(** * Bristol parser (CIAN): a shallow embedding of [bristol_parser.py]

    The development follows the Python module top-down:

    - [PyStr]: Python [str] values as lists of Unicode code points, with the
      string methods the parser calls ([in], [replace], [split], [strip],
      [lower], [startswith], [isdigit]);
    - [Re]: the fragment of Python's [re] the parser uses: concatenations of
      quantified one-character classes with flat capture groups and [$],
      matched by backtracking in Python's priority order;
    - [Py]: exceptions, [int(str)], binary64 floats ([float(str)], [int(float)],
      true division);
    - the models [Flat] and [JK], the helper functions, the browser seen as
      the outcomes of the calls made to it, and the methods of
      [BristolParser] from [_parse_flats] down; the run is a computation
      that records what it does to the browser;
    - the start of a run: [parse] and the methods it calls before
      [_parse_flats], with the browser it launches and closes;
    - the vocabulary of the properties, a small site and a sample run to
      run the parser on;
    - facts about rounding, matching, number parsing and the run;
    - the properties of the parser, each with the claim it settles;
    - the matcher against a declarative reading of its patterns, and
      further properties of the parser, function by function. *)

From Stdlib Require Import String Ascii.
From Stdlib Require Import ZArith NArith List Bool Lia.
From Stdlib Require Import Floats.SpecFloat.
From Equations Require Import Equations.
Import ListNotations.

Set Implicit Arguments.

(* ================================================================== *)
(** * Python strings *)
(* ================================================================== *)

Module PyStr.

(** A Python [str] is a sequence of Unicode code points. *)
Definition char := N.
Definition pystr := list char.

(** [u "..."] reads a UTF-8 encoded literal of this file as a [pystr]. *)
Definition cont (a : ascii) : N := N.land (N_of_ascii a) 63.

Fixpoint utf8_decode (s : string) : pystr :=
  match s with
  | EmptyString => []
  | String b0 r0 =>
    let n0 := N_of_ascii b0 in
    if (n0 <? 128)%N then n0 :: utf8_decode r0
    else if (n0 <? 224)%N then
      match r0 with
      | String b1 r1 => (N.land n0 31 * 64 + cont b1)%N :: utf8_decode r1
      | _ => [65533%N]
      end
    else if (n0 <? 240)%N then
      match r0 with
      | String b1 (String b2 r2) =>
        (N.land n0 15 * 4096 + cont b1 * 64 + cont b2)%N :: utf8_decode r2
      | _ => [65533%N]
      end
    else
      match r0 with
      | String b1 (String b2 (String b3 r3)) =>
        (N.land n0 7 * 262144 + cont b1 * 4096 + cont b2 * 64 + cont b3)%N
          :: utf8_decode r3
      | _ => [65533%N]
      end
  end.

Definition u (s : string) : pystr := utf8_decode s.

(** The double quote, and [q "..."]: a literal in which every backtick
    stands for a double quote (the page fragments and patterns of the parser
    are full of them). *)
Definition dquote : char := 34%N.
Definition backtick : char := 96%N.
Definition q (s : string) : pystr :=
  map (fun c => if (c =? backtick)%N then dquote else c) (utf8_decode s).

(** ** Equality, [in], [startswith] *)

Fixpoint str_eqb (a b : pystr) : bool :=
  match a, b with
  | [], [] => true
  | x :: a', y :: b' => (x =? y)%N && str_eqb a' b'
  | _, _ => false
  end.

Fixpoint startswith (s pre : pystr) : bool :=
  match pre, s with
  | [], _ => true
  | p :: pre', c :: s' => (p =? c)%N && startswith s' pre'
  | _ :: _, [] => false
  end.

(** [sub in s] *)
Fixpoint contains (s sub : pystr) : bool :=
  startswith s sub ||
  match s with
  | [] => false
  | _ :: s' => contains s' sub
  end.

Definition char_in (c : char) (s : pystr) : bool := existsb (N.eqb c) s.

(** ** [s.replace(old, new)] for a non-empty [old]: leftmost occurrences,
    not overlapping.  [skip] counts the characters of an occurrence that
    are still to be dropped. *)
Fixpoint replace_aux (old new : pystr) (skip : nat) (s : pystr) : pystr :=
  match s with
  | [] => []
  | c :: s' =>
    match skip with
    | S k => replace_aux old new k s'
    | O =>
      if startswith s old
      then new ++ replace_aux old new (length old - 1) s'
      else c :: replace_aux old new 0 s'
    end
  end.

Definition replace (s old new : pystr) : pystr := replace_aux old new 0 s.

(** ** Whitespace: [str.isspace], which is also the class [\s] of a [str]
    pattern. *)
Definition is_space (c : char) : bool :=
  ((9 <=? c) && (c <=? 13) || (28 <=? c) && (c <=? 32)
   || (c =? 133) || (c =? 160) || (c =? 5760)
   || (8192 <=? c) && (c <=? 8202)
   || (c =? 8232) || (c =? 8233) || (c =? 8239) || (c =? 8287)
   || (c =? 12288))%N.

Fixpoint lstrip (s : pystr) : pystr :=
  match s with
  | c :: s' => if is_space c then lstrip s' else s
  | [] => []
  end.

Definition rstrip (s : pystr) : pystr := rev (lstrip (rev s)).
Definition strip (s : pystr) : pystr := rstrip (lstrip s).

(** ** [s.split(',', 1)[1]] when [',' in s]: what follows the first
    separator. *)
Fixpoint after_first (sep : char) (s : pystr) : option pystr :=
  match s with
  | [] => None
  | c :: s' => if (c =? sep)%N then Some s' else after_first sep s'
  end.

(** ** Decimal digits: the class [\d] of a [str] pattern, [str.isdecimal],
    and the digits [int] and [float] read.  Unicode's category Nd is made of
    runs of ten code points, the digits zero to nine in order; the table
    lists where the runs start (Unicode 14, the table of CPython 3.11). *)
Definition Nd_starts : list N :=
  [48; 1632; 1776; 1984; 2406; 2534; 2662; 2790; 2918; 3046; 3174; 3302;
   3430; 3558; 3664; 3792; 3872; 4160; 4240; 6112; 6160; 6470; 6608; 6784;
   6800; 6992; 7088; 7232; 7248; 42528; 43216; 43264; 43472; 43504; 43600;
   44016; 65296; 66720; 68912; 69734; 69872; 69942; 70096; 70384; 70736;
   70864; 71248; 71360; 71472; 71904; 72016; 72784; 73040; 73120; 92768;
   92864; 93008; 120782; 120792; 120802; 120812; 120822; 123200; 123632;
   125264; 130032]%N.

Fixpoint digit_in (starts : list N) (c : char) : option N :=
  match starts with
  | [] => None
  | b :: starts' =>
    if ((b <=? c) && (c <? b + 10))%N then Some (c - b)%N
    else digit_in starts' c
  end.

Definition digit_value (c : char) : option N := digit_in Nd_starts c.

Definition is_digit (c : char) : bool :=
  match digit_value c with Some _ => true | None => false end.

(** [str.isdigit] accepts more than the decimal digits: superscripts,
    circled digits and the like (Numeric_Type=Digit), listed as ranges. *)
Definition other_digit_ranges : list (N * N) :=
  [(178, 179); (185, 185); (4969, 4977); (6618, 6618); (8304, 8304);
   (8308, 8313); (8320, 8329); (9312, 9320); (9332, 9340); (9352, 9360);
   (9450, 9450); (9461, 9469); (9471, 9471); (10102, 10110);
   (10112, 10120); (10122, 10130); (68160, 68163); (69216, 69224);
   (69714, 69722); (127232, 127242)]%N.

Definition char_isdigit (c : char) : bool :=
  is_digit c
  || existsb (fun r => (fst r <=? c) && (c <=? snd r))%N other_digit_ranges.

Definition isdigit (s : pystr) : bool :=
  match s with
  | [] => false
  | _ => forallb char_isdigit s
  end.

(** ** [s.lower()].  The case table is modelled for ASCII and for the
    Cyrillic block, the alphabets of the pages and of the keywords the
    parser looks for; any other character is left as it is. *)
Definition lower_char (c : char) : char :=
  if ((65 <=? c) && (c <=? 90))%N then (c + 32)%N
  else if ((1040 <=? c) && (c <=? 1071))%N then (c + 32)%N
  else if ((1024 <=? c) && (c <=? 1039))%N then (c + 80)%N
  else c.

Definition lower (s : pystr) : pystr := map lower_char s.

(** ** [str(x)] inside an f-string, for an optional string. *)
Definition format_opt (o : option pystr) : pystr :=
  match o with
  | Some s => s
  | None => u "None"
  end.

(** Truthiness of [str | None]. *)
Definition truthy (o : option pystr) : bool :=
  match o with
  | Some (_ :: _) => true
  | _ => false
  end.

End PyStr.

(* ================================================================== *)
(** * The fragment of [re] the parser uses *)
(* ================================================================== *)

Module Re.
Import PyStr.

(** Every pattern of [bristol_parser.py] is a concatenation of
    one-character classes, each with a quantifier, with capture groups that
    do not nest and, once, a final [$].  A class is the set of characters it
    accepts. *)
Definition cclass := char -> bool.

Definition ch (s : string) : char := hd 0%N (utf8_decode s).
Definition chr (s : string) : cclass := N.eqb (ch s).
Definition dq : cclass := N.eqb dquote.                (* the double quote *)
Definition digit : cclass := is_digit.                 (* \d *)
Definition space : cclass := is_space.                 (* \s *)
Definition dot : cclass := fun c => negb (c =? 10)%N.  (* . *)
Definition oneof (l : list cclass) : cclass :=         (* [...] *)
  fun c => existsb (fun f => f c) l.
Definition noneof (l : list cclass) : cclass :=        (* [^...] *)
  fun c => negb (oneof l c).

(** [x{lo,hi}], greedy or lazy; [hi = None] is no upper bound. *)
Record rep := mkRep
  { cls : cclass; lo : nat; hi : option nat; greedy : bool }.

Definition one (c : cclass) := mkRep c 1 (Some 1) true.
Definition opt (c : cclass) := mkRep c 0 (Some 1) true.       (* x? *)
Definition star (c : cclass) := mkRep c 0 None true.          (* x* *)
Definition plus (c : cclass) := mkRep c 1 None true.          (* x+ *)
Definition star_lazy (c : cclass) := mkRep c 0 None false.    (* x*? *)
Definition plus_lazy (c : cclass) := mkRep c 1 None false.    (* x+? *)

Inductive node :=
| Rep (r : rep)            (* outside a group *)
| Grp (body : list rep)    (* ( ... ) *)
| Eos.                     (* $ *)

Definition pattern := list node.

(** A literal piece of a pattern. *)
Definition lit (s : pystr) : pattern := map (fun c => Rep (one (N.eqb c))) s.

(** How many characters of the class stand at the front of [s], at most
    [cap] of them. *)
Fixpoint span (f : cclass) (cap : option nat) (s : pystr) : nat :=
  match cap, s with
  | Some O, _ => 0
  | _, [] => 0
  | _, c :: s' => if f c then S (span f (option_map pred cap) s') else 0
  end.

(** Backtracking over the number of repetitions: a greedy quantifier tries
    the longest run first, a lazy one the shortest; [k] is the rest of the
    match and the first count it accepts wins. *)
Section Backtrack.
Variable A : Type.

Fixpoint try_down (d base : nat) (s : pystr) (k : pystr -> option A)
  : option A :=
  match k (skipn (base + d) s) with
  | Some a => Some a
  | None =>
    match d with
    | O => None
    | S d' => try_down d' base s k
    end
  end.

Fixpoint try_up (d base : nat) (s : pystr) (k : pystr -> option A)
  : option A :=
  match k (skipn base s) with
  | Some a => Some a
  | None =>
    match d with
    | O => None
    | S d' => try_up d' (S base) s k
    end
  end.

Definition try_rep (r : rep) (s : pystr) (k : pystr -> option A)
  : option A :=
  let n := span (cls r) (hi r) s in
  if n <? lo r then None
  else if greedy r then try_down (n - lo r) (lo r) s k
  else try_up (n - lo r) (lo r) s k.

Fixpoint m_reps (b : list rep) (s : pystr) (k : pystr -> option A)
  : option A :=
  match b with
  | [] => k s
  | r :: b' => try_rep r s (fun s' => m_reps b' s' k)
  end.
End Backtrack.

(** [$]: at the end of the string, or just before a newline that ends it. *)
Definition at_end (s : pystr) : bool :=
  match s with
  | [] => true
  | [c] => (c =? 10)%N
  | _ => false
  end.

(** A match of [p] at the front of [s]: the text of the groups, in order,
    and what follows the match. *)
Fixpoint m_nodes (p : pattern) (s : pystr) : option (list pystr * pystr) :=
  match p with
  | [] => Some ([], s)
  | Rep r :: p' => try_rep r s (fun s' => m_nodes p' s')
  | Grp b :: p' =>
    m_reps b s (fun s' =>
      match m_nodes p' s' with
      | Some (gs, rest) => Some (firstn (length s - length s') s :: gs, rest)
      | None => None
      end)
  | Eos :: p' => if at_end s then m_nodes p' s else None
  end.

(** [re.search(p, s)]: the leftmost position where [p] matches; the
    match's groups. *)
Fixpoint search_from (p : pattern) (s : pystr) : option (list pystr * pystr) :=
  match m_nodes p s with
  | Some r => Some r
  | None =>
    match s with
    | [] => None
    | _ :: s' => search_from p s'
    end
  end.

Definition search (p : pattern) (s : pystr) : option (list pystr) :=
  option_map fst (search_from p s).

(** [m.group(i)], groups counted from 1. *)
Definition group (i : nat) (gs : list pystr) : pystr := nth (i - 1) gs [].

(** [re.findall(p, s)]: the groups of the successive matches, which do not
    overlap.  [skip] counts the characters of the last match still to be
    passed.  (No pattern of the parser matches the empty string.) *)
Fixpoint findall_aux (p : pattern) (skip : nat) (s : pystr)
  : list (list pystr) :=
  match skip with
  | S k =>
    match s with
    | [] => []
    | _ :: s' => findall_aux p k s'
    end
  | O =>
    match m_nodes p s with
    | Some (gs, rest) =>
      gs :: match s with
            | [] => []
            | _ :: s' => findall_aux p (length s - length rest - 1) s'
            end
    | None =>
      match s with
      | [] => []
      | _ :: s' => findall_aux p 0 s'
      end
    end
  end.

Definition findall (p : pattern) (s : pystr) : list (list pystr) :=
  findall_aux p 0 s.

(** [re.sub(p, '', s)]: every match is cut out. *)
Fixpoint sub_aux (p : pattern) (skip : nat) (s : pystr) : pystr :=
  match s with
  | [] => []
  | c :: s' =>
    match skip with
    | S k => sub_aux p k s'
    | O =>
      match m_nodes p s with
      | Some (_, rest) =>
        match length s - length rest with
        | O => c :: sub_aux p 0 s'
        | S n => sub_aux p n s'
        end
      | None => c :: sub_aux p 0 s'
      end
    end
  end.

Definition sub_empty (p : pattern) (s : pystr) : pystr := sub_aux p 0 s.

End Re.

(* ================================================================== *)
(** * Exceptions and numbers *)
(* ================================================================== *)

Module Py.
Import PyStr.

(** The exceptions the parser can meet.  [PlaywrightError] stands for what
    the browser layer raises (its [Error] and [TimeoutError]); all of them
    derive from [Exception]. *)
Inductive exn :=
| ValueError | TypeError | AttributeError | OverflowError
| ZeroDivisionError | PlaywrightError.

Inductive result (A : Type) :=
| Ok (a : A)
| Raise (e : exn).
Arguments Ok {A} a.
Arguments Raise {A} e.

Definition bind {A B} (m : result A) (f : A -> result B) : result B :=
  match m with
  | Ok a => f a
  | Raise e => Raise e
  end.

(** ** [int(s)] for a string, base ten *)

(** What [int] and [float] strip: the transformation they apply first turns
    every non-ASCII whitespace into a blank, and the C-level strip that
    follows knows the six ASCII ones; the separators U+001C..U+001F stay. *)
Definition num_space (c : char) : bool :=
  is_space c && negb ((28 <=? c) && (c <=? 31))%N.

Fixpoint num_lstrip (s : pystr) : pystr :=
  match s with
  | c :: s' => if num_space c then num_lstrip s' else s
  | [] => []
  end.

Definition num_strip (s : pystr) : pystr :=
  rev (num_lstrip (rev (num_lstrip s))).

Definition underscore : char := 95%N.
Definition minus : char := 45%N.
Definition plus_sign : char := 43%N.

(** An optional sign. *)
Definition split_sign (s : pystr) : bool * pystr :=
  match s with
  | c :: s' =>
    if (c =? minus)%N then (true, s')
    else if (c =? plus_sign)%N then (false, s')
    else (false, s)
  | [] => (false, [])
  end.

(** Underscores may stand between two digits only; they are dropped.
    [prev] is the character before. *)
Fixpoint drop_underscores (prev : option char) (s : pystr) : option pystr :=
  match s with
  | [] =>
    match prev with
    | Some p => if (p =? underscore)%N then None else Some []
    | None => Some []
    end
  | c :: s' =>
    if (c =? underscore)%N then
      match prev with
      | Some p => if is_digit p then drop_underscores (Some c) s' else None
      | None => None
      end
    else
      let after_us :=
        match prev with Some p => (p =? underscore)%N | None => false end in
      if after_us && negb (is_digit c) then None
      else option_map (cons c) (drop_underscores (Some c) s')
  end.

(** The values of a run of decimal digits; [None] when another character
    stands in it. *)
Fixpoint digit_values (s : pystr) : option (list N) :=
  match s with
  | [] => Some []
  | c :: s' =>
    match digit_value c, digit_values s' with
    | Some d, Some ds => Some (d :: ds)
    | _, _ => None
    end
  end.

Definition decimal (ds : list N) : Z :=
  fold_left (fun acc d => acc * 10 + Z.of_N d)%Z ds 0%Z.

(** [sys.get_int_max_str_digits()], at its default. *)
Definition int_max_str_digits : nat := 4300.

Definition int_of_str (s : pystr) : result Z :=
  match drop_underscores None (num_strip s) with
  | None => Raise ValueError
  | Some s1 =>
    let (neg, body) := split_sign s1 in
    match body, digit_values body with
    | _ :: _, Some ds =>
      if int_max_str_digits <? length ds then Raise ValueError
      else Ok (if neg then - decimal ds else decimal ds)%Z
    | _, _ => Raise ValueError
    end
  end.

(** ** Floats: IEEE 754 binary64, as [SpecFloat] specifies it *)

Definition float := spec_float.
Definition prec : Z := 53.
Definition emax : Z := 1024.

Definition fzero : float := S754_zero false.

(** [x == y], [x < y] *)
Definition feqb (x y : float) : bool := SFeqb x y.
Definition fltb (x y : float) : bool := SFltb x y.

(** The float nearest to [num / den] (ties to even), with the sign [neg]. *)
Definition round_ratio (neg : bool) (num den : positive) : float :=
  SFdiv prec emax (S754_finite neg num 0) (S754_finite false den 0).

(** The float nearest to [m * 10 ^ e] for [m >= 0]. *)
Definition round_decimal (neg : bool) (m e : Z) : float :=
  match m with
  | Zpos pm =>
    match e with
    | Zneg pe => round_ratio neg pm (Pos.pow 10 pe)
    | Z0 => round_ratio neg pm 1
    | Zpos pe => round_ratio neg (pm * Pos.pow 10 pe) 1
    end
  | _ => S754_zero neg
  end.

(** ** [float(s)] for a string *)

Definition ascii_lower (c : char) : char :=
  if ((65 <=? c) && (c <=? 90))%N then (c + 32)%N else c.

(** The longest run of decimal digits at the front: their values, and
    what follows. *)
Fixpoint take_digits (s : pystr) : list N * pystr :=
  match s with
  | c :: s' =>
    match digit_value c with
    | Some d => let (ds, r) := take_digits s' in (d :: ds, r)
    | None => ([], s)
    end
  | [] => ([], [])
  end.

Definition is_e (c : char) : bool := ((c =? 101) || (c =? 69))%N.
Definition point : char := 46%N.

(** The exponent part, if any: [e], a sign, digits that end the string. *)
Definition exponent (s : pystr) : option Z :=
  match s with
  | [] => Some 0%Z
  | c :: s' =>
    if is_e c then
      let (neg, body) := split_sign s' in
      match body, digit_values body with
      | _ :: _, Some ds => Some (if neg then - decimal ds else decimal ds)%Z
      | _, _ => None
      end
    else None
  end.

(** The decimal forms: digits, a point and digits, an exponent; at least
    one digit before the exponent. *)
Definition float_of_decimal (neg : bool) (s : pystr) : result float :=
  let (ip, r1) := take_digits s in
  let (fp, r2) :=
    match r1 with
    | c :: r1' => if (c =? point)%N then take_digits r1' else ([], r1)
    | [] => ([], [])
    end in
  match ip ++ fp, exponent r2 with
  | _ :: _, Some e =>
    Ok (round_decimal neg (decimal (ip ++ fp)) (e - Z.of_nat (length fp)))
  | _, _ => Raise ValueError
  end.

Definition float_of_str (s : pystr) : result float :=
  match drop_underscores None (num_strip s) with
  | None => Raise ValueError
  | Some s1 =>
    let (neg, body) := split_sign s1 in
    let word := map ascii_lower body in
    if str_eqb word (u "inf") || str_eqb word (u "infinity")
    then Ok (S754_infinity neg)
    else if str_eqb word (u "nan") then Ok S754_nan
    else float_of_decimal neg body
  end.

(** ** [float(n)] for an [int]: the nearest float, [OverflowError] when
    there is none. *)
Definition float_of_int (n : Z) : result float :=
  match binary_normalize prec emax n 0 false with
  | S754_infinity _ => Raise OverflowError
  | f => Ok f
  end.

(** ** [int(x)] for a float: towards zero. *)
Definition int_of_float (x : float) : result Z :=
  match x with
  | S754_zero _ => Ok 0%Z
  | S754_infinity _ => Raise OverflowError
  | S754_nan => Raise ValueError
  | S754_finite s m e =>
    let a :=
      match e with
      | Zneg k => Z.shiftr (Zpos m) (Zpos k)
      | _ => Z.shiftl (Zpos m) e
      end in
    Ok (if s then - a else a)%Z
  end.

(** ** [n / x] for an [int] and a float. *)
Definition is_zero (x : float) : bool :=
  match x with S754_zero _ => true | _ => false end.

Definition truediv_int_float (n : Z) (x : float) : result float :=
  bind (float_of_int n) (fun fn =>
    if is_zero x then Raise ZeroDivisionError
    else Ok (SFdiv prec emax fn x)).

End Py.

Notation "x <- c1 ;; c2" := (Py.bind c1 (fun x => c2))
  (at level 61, c1 at next level, right associativity).
Notation "' pat <- c1 ;; c2" :=
  (Py.bind c1 (fun x => match x with pat => c2 end))
  (at level 61, pat pattern, c1 at next level, right associativity).

(* ================================================================== *)
(** * Models *)
(* ================================================================== *)

Import PyStr Py.

Module Flat.
(** [class Flat(BaseModel)] *)
Record t := mk
  { id : pystr;
    url : pystr;
    rooms : Z;                     (* 0 = studio *)
    area : float;
    floor : Z;
    floors_total : Z;
    price : Z;
    address : option pystr;
    year_built : option Z;
    house_status : option pystr;
    images : list pystr }.

(** [flat.address = a], [flat.images = l] *)
Definition set_address (a : option pystr) (f : t) : t :=
  mk (id f) (url f) (rooms f) (area f) (floor f) (floors_total f) (price f)
     a (year_built f) (house_status f) (images f).

Definition set_images (l : list pystr) (f : t) : t :=
  mk (id f) (url f) (rooms f) (area f) (floor f) (floors_total f) (price f)
     (address f) (year_built f) (house_status f) l.

(** The computed field:
    [int(self.price / self.area) if self.area > 0 else 0]. *)
Definition price_per_m2 (f : t) : result Z :=
  if fltb fzero (area f) then
    x <- truediv_int_float (price f) (area f) ;;
    int_of_float x
  else Ok 0%Z.
End Flat.

Module JK.
(** [class JK(BaseModel)] *)
Record t := mk
  { id : pystr;
    name : pystr;
    url : pystr;
    status : option pystr;
    address : option pystr;
    developer : option pystr;
    price_min : option Z;
    price_max : option Z;
    price_per_m2_min : option Z;
    price_per_m2_max : option Z;
    building_class : option pystr;
    floors : option pystr;
    buildings_count : option Z;
    building_type : option pystr;
    ceiling_height : option float;
    finishing : option pystr;
    parking : option pystr;
    year_built : option Z }.
End JK.

(* ================================================================== *)
(** * Helpers *)
(* ================================================================== *)

(** [url.replace('\\u002F', '/')] *)
Definition decode_url (url : pystr) : pystr :=
  replace url (u "\u002F") (u "/").

(** [(\d+)] *)
Definition re_digits : Re.pattern := [Re.Grp [Re.plus Re.digit]].

Definition parse_rooms (text : pystr) : result Z :=
  if contains (lower text) (u "студия") then Ok 0%Z
  else
    match Re.search re_digits text with
    | Some m => int_of_str (Re.group 1 m)
    | None => Ok 0%Z
    end.

(** [([\d,]+)] *)
Definition re_area : Re.pattern :=
  [Re.Grp [Re.plus (Re.oneof [Re.digit; Re.chr ","])]].

Definition parse_area (text : pystr) : result float :=
  match Re.search re_area text with
  | Some m => float_of_str (replace (Re.group 1 m) (u ",") (u "."))
  | None => Ok fzero
  end.

(** [\s*\([^)]+\)\s*$] *)
Definition re_trailing_parens : Re.pattern :=
  [Re.Rep (Re.star Re.space);
   Re.Rep (Re.one (Re.chr "("));
   Re.Rep (Re.plus (Re.noneof [Re.chr ")"]));
   Re.Rep (Re.one (Re.chr ")"));
   Re.Rep (Re.star Re.space);
   Re.Eos].

(** [x or None] for a string. *)
Definition or_None (s : pystr) : option pystr :=
  match s with
  | [] => None
  | _ => Some s
  end.

Definition parse_building_from_house_name (house_name : pystr)
  : option pystr :=
  match house_name with
  | [] => None
  | _ =>
    match after_first (Re.ch ",") house_name with
    | None => None
    | Some rest =>
      let building_part := strip rest in
      let building := strip (Re.sub_empty re_trailing_parens building_part) in
      or_None building
    end
  end.

Definition normalize_status (status : option pystr) : option pystr :=
  match status with
  | None | Some [] => None
  | Some st =>
    let status_lower := strip (lower st) in
    if contains status_lower (u "сдан") then Some (u "Сдан")
    else if contains status_lower (u "строит") then Some (u "Строится")
    else Some st
  end.

(** [try: ... except (E1, E2, ...): return default] *)
Definition try_except {A} (body : result A) (caught : exn -> bool)
  (default : A) : result A :=
  match body with
  | Ok a => Ok a
  | Raise e => if caught e then Ok default else Raise e
  end.

(** The argument is annotated [str]; the [except] clauses provide for
    [None] as well, so it is an optional string here. *)
Definition safe_int (value : option pystr) (default : Z) : result Z :=
  try_except
    (x <- match value with
          | Some s => float_of_str s
          | None => Raise TypeError               (* float(None) *)
          end ;;
     int_of_float x)
    (fun e => match e with ValueError | TypeError => true | _ => false end)
    default.

Definition safe_float (value : option pystr) (default : float)
  : result float :=
  try_except
    (match value with
     | Some s => float_of_str (replace (replace s (u ",") (u ".")) (u " м") [])
     | None => Raise AttributeError               (* None.replace *)
     end)
    (fun e => match e with
              | ValueError | TypeError | AttributeError => true
              | _ => false
              end)
    default.

(* ================================================================== *)
(** * The browser, as the parser sees it *)
(* ================================================================== *)

(** The Playwright layer is outside the parser.  It is modelled by what its
    calls return: every call either yields a value or raises. *)
Module Browser.

(** An [<a>] element found in a card. *)
Record Link := mkLink
  { get_attribute_href : result (option pystr) }.

(** An element of which only the text is read. *)
Record Elem := mkElem
  { inner_text : result pystr }.

(** A listing card; a field per query the parser makes on it. *)
Record Card := mkCard
  { q_flat_link : result (option Link);     (* a link to /flat/ *)
    q_sale_link : result (option Link);     (* a link to sale/flat *)
    q_link_area : result (option Elem);     (* data-name LinkArea *)
    card_inner_text : result pystr;         (* card.inner_text() *)
    q_main_price : result (option Elem);    (* data-mark MainPrice *)
    q_address_item : result (option Elem)   (* data-name AddressItem *) }.

(** The pagination control of a listing page. *)
Record NextBtn := mkNextBtn
  { is_visible : result bool;
    click : result unit;
    settled : result unit                   (* wait_for_load_state *) }.

(** A listing page, once loaded. *)
Record ListingPage := mkListingPage
  { content : result pystr;                 (* page.content() *)
    link_areas : result (list Card);        (* data-name LinkArea *)
    card_components : result (list Card);   (* article CardComponent *)
    q_next_btn : result (option NextBtn) }.

(** The visit of a flat's own page. *)
Record DetailPage := mkDetailPage
  { detail_goto : result unit;
    detail_settled : result unit;
    detail_content : result pystr }.

(** The site during one run: opening the listing; the listing page shown
    after [n] clicks on the pagination control; the page served to the
    [i]-th detail visit, asked for a URL. *)
Record Site := mkSite
  { listing_goto : result unit;
    listing_settled : result unit;
    listing : nat -> ListingPage;
    detail : nat -> pystr -> DetailPage }.

End Browser.
Import Browser.

(** What the run does to the browser, in order. *)
Inductive event :=
| EvOpenListing                 (* page.goto(self.flats_url) *)
| EvParsePage (page_num : Z)    (* _parse_flats_page on page [page_num] *)
| EvClickNext (page_num : Z)    (* next_btn.click() on page [page_num] *)
| EvDetail (url : pystr).       (* page.goto(flat.url) *)

(** A computation that acts on the browser: the events so far and the
    outcome. *)
Definition M (A : Type) : Type := (list event * result A)%type.

Definition ret {A} (a : A) : M A := ([], Ok a).
Definition emit (e : event) : M unit := ([e], Ok tt).
Definition lift {A} (r : result A) : M A := ([], r).

Definition bindM {A B} (m : M A) (f : A -> M B) : M B :=
  match m with
  | (t1, Ok a) => let (t2, r) := f a in (t1 ++ t2, r)
  | (t1, Raise e) => (t1, Raise e)
  end.

Notation "x <~ c1 ;; c2" := (bindM c1 (fun x => c2))
  (at level 61, c1 at next level, right associativity).

(* ================================================================== *)
(** * BristolParser *)
(* ================================================================== *)

(** ** _extract_flats_from_layouts *)

(** In the comments that quote a pattern of the parser, as in the [q]
    literals, a backtick stands for a double quote. *)
Definition not_dq : Re.cclass := Re.noneof [Re.dq].       (* [^`] *)
Definition grp_text : Re.node := Re.Grp [Re.plus not_dq]. (* ([^`]+) *)
Definition grp_num : Re.node := Re.Grp [Re.plus Re.digit]. (* (\d+) *)

(** [\{`roomCount`:`([^`]+)`,`offerUrl`:`([^`]+)`,`houseName`:`([^`]+)`,
     `finishDate`:`([^`]+)`,`totalArea`:`([^`]+)`,`priceDisplay`:`[^`]+`,
     `price`:(\d+),[^}]*`offerId`:(\d+),`layoutImageUrl`:`([^`]+)`\}] *)
Definition re_layout : Re.pattern :=
  Re.lit (q "{`roomCount`:`") ++ [grp_text] ++
  Re.lit (q "`,`offerUrl`:`") ++ [grp_text] ++
  Re.lit (q "`,`houseName`:`") ++ [grp_text] ++
  Re.lit (q "`,`finishDate`:`") ++ [grp_text] ++
  Re.lit (q "`,`totalArea`:`") ++ [grp_text] ++
  Re.lit (q "`,`priceDisplay`:`") ++ [Re.Rep (Re.plus not_dq)] ++
  Re.lit (q "`,`price`:") ++ [grp_num] ++
  Re.lit (u ",") ++ [Re.Rep (Re.star (Re.noneof [Re.chr "}"]))] ++
  Re.lit (q "`offerId`:") ++ [grp_num] ++
  Re.lit (q ",`layoutImageUrl`:`") ++ [grp_text] ++
  Re.lit (q "`}").

(** The body of the loop over the matches: one [Flat] per match. *)
Definition layout_flat (jk : JK.t) (m : list pystr) : result Flat.t :=
  let room_count := Re.group 1 m in
  let url := Re.group 2 m in
  let house_name := Re.group 3 m in
  let finish_date := Re.group 4 m in
  let area_str := Re.group 5 m in
  let price := Re.group 6 m in
  let offer_id := Re.group 7 m in
  let image_url := Re.group 8 m in
  let building := parse_building_from_house_name house_name in
  let address :=
    match building with
    | Some b => Some (format_opt (JK.address jk) ++ u ", " ++ b)
    | None => JK.address jk
    end in
  rooms <- parse_rooms room_count ;;
  area <- parse_area area_str ;;
  price <- int_of_str price ;;
  Ok (Flat.mk offer_id (decode_url url) rooms area 0 0 price address
        (JK.year_built jk) (Some finish_date)
        (match image_url with [] => [] | _ => [decode_url image_url] end)).

(** [for x in xs: ys.append(f(x))], stopped by the first exception. *)
Fixpoint for_each {A B} (f : A -> result B) (xs : list A) : result (list B) :=
  match xs with
  | [] => Ok []
  | x :: xs' =>
    y <- f x ;;
    ys <- for_each f xs' ;;
    Ok (y :: ys)
  end.

Definition _extract_flats_from_layouts (html : pystr) (jk : JK.t)
  : result (list Flat.t) :=
  for_each (layout_flat jk) (Re.findall re_layout html).

(** ** The dictionary [layouts_by_id] *)

Definition dict (V : Type) := list (pystr * V).

Fixpoint dict_set {V} (k : pystr) (v : V) (d : dict V) : dict V :=
  match d with
  | [] => [(k, v)]
  | (k', v') :: d' =>
    if str_eqb k k' then (k, v) :: d' else (k', v') :: dict_set k v d'
  end.

Fixpoint dict_get {V} (k : pystr) (d : dict V) : option V :=
  match d with
  | [] => None
  | (k', v) :: d' => if str_eqb k k' then Some v else dict_get k d'
  end.

(** [{f.id: f for f in layouts_flats}] *)
Definition index_by_id (flats : list Flat.t) : dict Flat.t :=
  fold_left (fun d f => dict_set (Flat.id f) f d) flats [].

(** ** _extract_valid_flat_ids *)

(** [`cianId`:(\d+)[^}]*?`parentId`:(\d+)] *)
Definition re_cian_parent : Re.pattern :=
  Re.lit (q "`cianId`:") ++ [grp_num] ++
  [Re.Rep (Re.star_lazy (Re.noneof [Re.chr "}"]))] ++
  Re.lit (q "`parentId`:") ++ [grp_num].

(** The set is kept as the list of its members; the parser only asks
    whether it is empty and whether an identifier is in it. *)
Definition _extract_valid_flat_ids (html : pystr) (jk_id : pystr)
  : list pystr :=
  map (Re.group 1)
      (filter (fun m => str_eqb (Re.group 2 m) jk_id)
              (Re.findall re_cian_parent html)).

Definition set_mem (x : pystr) (s : list pystr) : bool :=
  existsb (str_eqb x) s.

(** ** _extract_flat_url_and_id *)

(** [/flat/(\d+)] *)
Definition re_flat_id : Re.pattern := Re.lit (u "/flat/") ++ [grp_num].

Definition _extract_flat_url_and_id (card : Card) : result (pystr * pystr) :=
  first <- q_flat_link card ;;
  link <- match first with
          | Some l => Ok (Some l)
          | None => q_sale_link card
          end ;;
  match link with
  | None => Ok ([], [])
  | Some l =>
    href <- get_attribute_href l ;;
    let url := match href with Some h => h | None => [] end in
    let url :=
      if startswith url (u "/") then u "https://www.cian.ru" ++ url else url in
    match Re.search re_flat_id url with
    | Some m => Ok (url, Re.group 1 m)
    | None => Ok (url, [])
    end
  end.

(** ** _get_card_text *)

Definition _get_card_text (card : Card) : result pystr :=
  area <- q_link_area card ;;
  match area with
  | Some el => inner_text el
  | None => card_inner_text card
  end.

(** ** _parse_price *)

Definition nbsp : pystr := [160%N].

(** [([\d\s]+)\s*₽] and [([\d\s]+)] *)
Definition grp_digits_spaces : Re.node :=
  Re.Grp [Re.plus (Re.oneof [Re.digit; Re.space])].
Definition re_price_rub : Re.pattern :=
  [grp_digits_spaces; Re.Rep (Re.star Re.space)] ++ Re.lit (u "₽").
Definition re_price_plain : Re.pattern := [grp_digits_spaces].

(** The digits of a match of one of the two patterns, when they are
    digits. *)
Definition price_digits (p : Re.pattern) (text : pystr) : option pystr :=
  match Re.search p text with
  | Some m =>
    let price_str := replace (Re.group 1 m) (u " ") [] in
    if isdigit price_str then Some price_str else None
  | None => None
  end.

Definition _parse_price (card : Card) (text : pystr) : result Z :=
  let text := replace text nbsp (u " ") in
  match price_digits re_price_rub text with
  | Some price_str => int_of_str price_str
  | None =>
    price_el <- q_main_price card ;;
    match price_el with
    | Some el =>
      t <- inner_text el ;;
      let price_text := replace t nbsp (u " ") in
      match price_digits re_price_plain price_text with
      | Some price_str => int_of_str price_str
      | None => Ok 0%Z
      end
    | None => Ok 0%Z
    end
  end.

(** ** _parse_card_data *)

(** [( \d+ [,.]? \d* ) \s* м²], written here with blanks between its
    parts *)
Definition re_card_area : Re.pattern :=
  [Re.Grp [Re.plus Re.digit;
           Re.opt (Re.oneof [Re.chr ","; Re.chr "."]);
           Re.star Re.digit];
   Re.Rep (Re.star Re.space)] ++ Re.lit (u "м²").

(** [(\d+)\s*[/из]+\s*(\d+)\s*эт] *)
Definition re_floors : Re.pattern :=
  [grp_num;
   Re.Rep (Re.star Re.space);
   Re.Rep (Re.plus (Re.oneof [Re.chr "/"; Re.chr "и"; Re.chr "з"]));
   Re.Rep (Re.star Re.space);
   grp_num;
   Re.Rep (Re.star Re.space)] ++ Re.lit (u "эт").

Definition _parse_card_data (card : Card) (text : pystr)
  : result (Z * float * Z * Z * Z) :=
  rooms <- parse_rooms text ;;
  area <- match Re.search re_card_area text with
          | Some m => float_of_str (replace (Re.group 1 m) (u ",") (u "."))
          | None => Ok fzero
          end ;;
  '(floor, floors_total) <-
    match Re.search re_floors text with
    | Some m =>
      a <- int_of_str (Re.group 1 m) ;;
      b <- int_of_str (Re.group 2 m) ;;
      Ok (a, b)
    | None => Ok (0%Z, 0%Z)
    end ;;
  price <- _parse_price card text ;;
  Ok (rooms, area, floor, floors_total, price).

(** ** _merge_with_layout *)

Definition _merge_with_layout (card : Card) (text : pystr)
  (layout : option Flat.t) (jk : JK.t)
  : result (option pystr * option pystr * list pystr * option Z) :=
  (* address *)
  addr_el <- q_address_item card ;;
  address <- match addr_el with
             | Some el => t <- inner_text el ;; Ok (Some (strip t))
             | None => Ok None
             end ;;
  let address :=
    match layout with
    | Some l => if truthy address then address else Flat.address l
    | None => address
    end in
  let address := if truthy address then address else JK.address jk in
  (* status *)
  let text_lower := lower text in
  let house_status :=
    if contains text_lower (u "дом сдан") then Some (u "Сдан")
    else if contains text_lower (u "строится") then Some (u "Строится")
    else None in
  let house_status :=
    match layout with
    | Some l =>
      if truthy house_status then house_status else Flat.house_status l
    | None => house_status
    end in
  let house_status :=
    if truthy house_status then house_status else JK.status jk in
  let house_status := normalize_status house_status in
  (* images and year *)
  let images := match layout with Some l => Flat.images l | None => [] end in
  let year_built :=
    match layout with
    | Some l =>
      match Flat.year_built l with
      | Some y => if (y =? 0)%Z then JK.year_built jk else Some y
      | None => JK.year_built jk
      end
    | None => JK.year_built jk
    end in
  Ok (address, house_status, images, year_built).

(** ** _parse_flat_card *)

(** The body of the [try]. *)
Definition parse_flat_card_body (card : Card) (jk : JK.t)
  (layouts_by_id : dict Flat.t) (valid_ids : list pystr)
  : result (option Flat.t) :=
  '(url, flat_id) <- _extract_flat_url_and_id card ;;
  match flat_id with
  | [] => Ok None
  | _ =>
    let foreign :=
      match valid_ids with
      | _ :: _ => negb (set_mem flat_id valid_ids)
      | [] => false
      end in
    if foreign then Ok None
    else
      title_text <- _get_card_text card ;;
      '(rooms, area, floor, floors_total, price) <-
        _parse_card_data card title_text ;;
      if feqb area fzero || (price =? 0)%Z then Ok None
      else
        let layout := dict_get flat_id layouts_by_id in
        '(address, house_status, images, year_built) <-
          _merge_with_layout card title_text layout jk ;;
        Ok (Some (Flat.mk flat_id url rooms area floor floors_total price
                    address year_built house_status images))
  end.

(** [try: ... except Exception: return None] *)
Definition _parse_flat_card (card : Card) (jk : JK.t)
  (layouts_by_id : dict Flat.t) (valid_ids : list pystr) : option Flat.t :=
  match parse_flat_card_body card jk layouts_by_id valid_ids with
  | Ok o => o
  | Raise _ => None
  end.

(** ** _parse_flats_page *)

(** The loop over the cards: the flats of the cards that give one. *)
Definition flats_of_cards (cards : list Card) (jk : JK.t)
  (layouts_by_id : dict Flat.t) (valid_ids : list pystr) : list Flat.t :=
  flat_map (fun card =>
              match _parse_flat_card card jk layouts_by_id valid_ids with
              | Some flat => [flat]
              | None => []
              end) cards.

Definition _parse_flats_page (page : ListingPage) (jk : JK.t)
  (layouts_by_id : dict Flat.t) : result (list Flat.t) :=
  html <- content page ;;
  let valid_ids := _extract_valid_flat_ids html (JK.id jk) in
  cards <- link_areas page ;;
  cards <- match cards with
           | [] => card_components page
           | _ => Ok cards
           end ;;
  Ok (flats_of_cards cards jk layouts_by_id valid_ids).

(** ** _enrich_flat_details *)

(** The method works on the [Flat] it is given and changes it in place: a
    computation on that object, which an exception leaves as it is at the
    moment of the raise. *)
Definition St (A : Type) : Type := Flat.t -> Flat.t * result A.

Definition retS {A} (a : A) : St A := fun flat => (flat, Ok a).
Definition liftS {A} (r : result A) : St A := fun flat => (flat, r).
Definition modify (g : Flat.t -> Flat.t) : St unit :=
  fun flat => (g flat, Ok tt).
Definition bindS {A B} (m : St A) (f : A -> St B) : St B :=
  fun flat =>
    match m flat with
    | (flat', Ok a) => f a flat'
    | (flat', Raise e) => (flat', Raise e)
    end.

Notation "x <== c1 ;; c2" := (bindS c1 (fun x => c2))
  (at level 61, c1 at next level, right associativity).

(** The end both building patterns share:
    [ул\.\s*Шекспира,\s*(\d+к\d+)] *)
Definition re_shakespeare : Re.pattern :=
  Re.lit (u "ул.") ++ [Re.Rep (Re.star Re.space)] ++
  Re.lit (u "Шекспира,") ++ [Re.Rep (Re.star Re.space)] ++
  [Re.Grp [Re.plus Re.digit; Re.one (Re.chr "к"); Re.plus Re.digit]].

(** [<meta[^>]*name=`description`[^>]*content=`[^`]*...] *)
Definition re_meta_building : Re.pattern :=
  Re.lit (u "<meta") ++ [Re.Rep (Re.star (Re.noneof [Re.chr ">"]))] ++
  Re.lit (q "name=`description`") ++
  [Re.Rep (Re.star (Re.noneof [Re.chr ">"]))] ++
  Re.lit (q "content=`") ++ [Re.Rep (Re.star not_dq)] ++ re_shakespeare.

(** [<title>[^<]*...] *)
Definition re_title_building : Re.pattern :=
  Re.lit (u "<title>") ++ [Re.Rep (Re.star (Re.noneof [Re.chr "<"]))] ++
  re_shakespeare.

(** [`house`:\{`id`:\d+,`name`:`([^`]+)`] *)
Definition re_house : Re.pattern :=
  Re.lit (q "`house`:{`id`:") ++ [Re.Rep (Re.plus Re.digit)] ++
  Re.lit (q ",`name`:`") ++ [grp_text] ++ Re.lit (q "`").

(** [`photos`:\[([^\]]+)\]] *)
Definition re_photos : Re.pattern :=
  Re.lit (q "`photos`:[") ++ [Re.Grp [Re.plus (Re.noneof [Re.chr "]"])]] ++
  Re.lit (u "]").

(** [`fullUrl`:\s*`([^`]+)`] *)
Definition re_full_url : Re.pattern :=
  Re.lit (q "`fullUrl`:") ++ [Re.Rep (Re.star Re.space)] ++
  Re.lit (q "`") ++ [grp_text] ++ Re.lit (q "`").

(** [for pattern in [...]: if match: building = match.group(1); break] *)
Fixpoint first_group (patterns : list Re.pattern) (html : pystr)
  : option pystr :=
  match patterns with
  | [] => None
  | p :: rest =>
    match Re.search p html with
    | Some m => Some (Re.group 1 m)
    | None => first_group rest html
    end
  end.

(** The building code the detail document gives: from the description or
    the title, or else from the house name. *)
Definition detail_building (html : pystr) : option pystr :=
  let building := first_group [re_meta_building; re_title_building] html in
  if truthy building then building
  else
    match Re.search re_house html with
    | Some m => parse_building_from_house_name (Re.group 1 m)
    | None => building
    end.

(** The photo addresses of the detail document, still encoded. *)
Definition detail_photos (html : pystr) : list pystr :=
  match Re.search re_photos html with
  | Some m => map (Re.group 1) (Re.findall re_full_url (Re.group 1 m))
  | None => []
  end.

Definition _enrich_flat_details (site : Site) (i : nat) (jk : JK.t)
  : St unit :=
  fun flat =>
    let page := detail site i (Flat.url flat) in
    (_ <== liftS (detail_goto page) ;;
     _ <== liftS (detail_settled page) ;;
     html <== liftS (detail_content page) ;;
     (* the address, from several sources *)
     _ <== match detail_building html with
          | Some ((_ :: _) as building) =>
            modify (Flat.set_address
                      (Some (format_opt (JK.address jk) ++ u ", " ++ building)))
          | _ => retS tt
          end ;;
     (* the photos *)
     match detail_photos html with
     | [] => retS tt
     | urls => modify (Flat.set_images (map decode_url urls))
     end) flat.

(** ** _parse_flats *)

Definition max_pages : Z := 50.

(** One turn of the [while] loop on page [page_num]: the flats so far with
    those of the page, and whether the loop goes on ([false]: [break]). *)
Definition page_turn (site : Site) (jk : JK.t) (layouts_by_id : dict Flat.t)
  (page_num : Z) (flats : list Flat.t) : M (list Flat.t * bool) :=
  let page := listing site (Z.to_nat (page_num - 1)) in
  _ <~ emit (EvParsePage page_num) ;;
  page_flats <~ lift (_parse_flats_page page jk layouts_by_id) ;;
  let flats := flats ++ page_flats in
  next_btn <~ lift (q_next_btn page) ;;
  match next_btn with
  | None => ret (flats, false)
  | Some btn =>
    visible <~ lift (is_visible btn) ;;
    if negb visible then ret (flats, false)
    else
      _ <~ emit (EvClickNext page_num) ;;
      _ <~ lift (click btn) ;;
      _ <~ lift (settled btn) ;;
      ret (flats, true)
  end.

(** The turns the loop has left at [page_num]: what decreases. *)
Definition pages_left (page_num : Z) : nat :=
  Z.to_nat (max_pages + 1 - page_num).
Arguments pages_left : simpl never.

(** [while page_num <= max_pages: ...; page_num += 1] *)
Equations? pages_loop (site : Site) (jk : JK.t) (layouts_by_id : dict Flat.t)
  (page_num : Z) (flats : list Flat.t) : M (list Flat.t)
  by wf (pages_left page_num) lt :=
  pages_loop site jk layouts_by_id page_num flats
    with Z_le_gt_dec page_num max_pages => {
    | right _ := ret flats;
    | left _ with page_turn site jk layouts_by_id page_num flats => {
      | (t, Raise e) := (t, Raise e);
      | (t, Ok (flats', false)) := (t, Ok flats');
      | (t, Ok (flats', true)) :=
          let (t', r) :=
            pages_loop site jk layouts_by_id (page_num + 1) flats' in
          (t ++ t', r) } }.
Proof. unfold pages_left, max_pages in *. lia. Qed.

(** [for i, flat in enumerate(flats): try: enrich except Exception: log] *)
Fixpoint enrich_all (site : Site) (jk : JK.t) (i : nat) (flats : list Flat.t)
  : M (list Flat.t) :=
  match flats with
  | [] => ret []
  | flat :: rest =>
    _ <~ emit (EvDetail (Flat.url flat)) ;;
    let (flat', _) := _enrich_flat_details site i jk flat in
    rest' <~ enrich_all site jk (S i) rest ;;
    ret (flat' :: rest')
  end.

Definition no_offers : pystr := u "Нет подходящих объявлений".

Definition _parse_flats (site : Site) (jk : JK.t) (jk_html : pystr)
  : M (list Flat.t) :=
  layouts_flats <~ lift (_extract_flats_from_layouts jk_html jk) ;;
  let layouts_by_id := index_by_id layouts_flats in
  _ <~ emit EvOpenListing ;;
  _ <~ lift (listing_goto site) ;;
  _ <~ lift (listing_settled site) ;;
  html <~ lift (content (listing site 0)) ;;
  if contains html no_offers then ret layouts_flats
  else
    flats <~ pages_loop site jk layouts_by_id 1 [] ;;
    enrich_all site jk 0 flats.

(* ================================================================== *)
(** * The start of a run *)
(* ================================================================== *)

Unset Implicit Arguments.

(** ** The exceptions of the parser *)

(** [class ParserError(Exception)] and its two subclasses.  A failure of
    [parse] is one of them, or an exception of Python or of the browser. *)
Inductive parser_error := NewObjectIdNotFound | NoFlatsFound.

Inductive failure :=
| Python (e : exn)
| Parser (e : parser_error).

Inductive outcome (A : Type) :=
| Done (a : A)
| Failed (f : failure).
Arguments Done {A} a.
Arguments Failed {A} f.

(** A [result] seen as an outcome. *)
Definition of_result {A} (r : result A) : outcome A :=
  match r with
  | Ok a => Done a
  | Raise e => Failed (Python e)
  end.

(** ** _extract_newobject_id *)

(** [newobject%5B0%5D=(\d+)] *)
Definition re_newobject_query : Re.pattern :=
  Re.lit (u "newobject%5B0%5D=") ++ [grp_num].

(** [`newobject`:\[(\d+)\]] *)
Definition re_newobject_list : Re.pattern :=
  Re.lit (q "`newobject`:[") ++ [grp_num] ++ Re.lit (u "]").

(** [newobject_id[`']?:\s*(\d+)], the class being that of the two
    quotes *)
Definition re_newobject_colon : Re.pattern :=
  Re.lit (u "newobject_id") ++
  [Re.Rep (Re.opt (Re.oneof [Re.dq; Re.chr "'"]))] ++
  Re.lit (u ":") ++ [Re.Rep (Re.star Re.space)] ++ [grp_num].

(** [`id`:(\d+).*?`type`:`newobject`] *)
Definition re_newobject_type : Re.pattern :=
  Re.lit (q "`id`:") ++ [grp_num] ++ [Re.Rep (Re.star_lazy Re.dot)] ++
  Re.lit (q "`type`:`newobject`").

Definition newobject_patterns : list Re.pattern :=
  [re_newobject_query; re_newobject_list; re_newobject_colon;
   re_newobject_type].

(** [content] is what [page.content()] returns. *)
Definition _extract_newobject_id (content : result pystr) : outcome pystr :=
  match content with
  | Raise e => Failed (Python e)
  | Ok html =>
    match first_group newobject_patterns html with
    | Some newobject_id => Done newobject_id
    | None => Failed (Parser NewObjectIdNotFound)
    end
  end.

(** ** _build_flats_url *)

(** The attribute [self.newobject_id] is a [str | None]. *)
Definition _build_flats_url (newobject_id : option pystr) : pystr :=
  u "https://www.cian.ru/cat.php"
  ++ u "?deal_type=sale&engine_version=2&offer_type=flat"
  ++ u "&from_developer=1&newobject%5B0%5D=" ++ format_opt newobject_id.

(** ** _extract_jk_fields *)

(** The dictionary [data]: its keys are known, each with values of one
    type, so it is a record of optional fields; [None] is a key that was
    not set (or, for the status, set to [None]). *)
Module JKFields.
Record t := mk
  { name : option pystr;
    status : option pystr;
    address : option pystr;
    developer : option pystr;
    price_min : option Z;
    price_max : option Z;
    price_per_m2_min : option Z;
    price_per_m2_max : option Z;
    year_built : option Z;
    building_class : option pystr;
    building_type : option pystr;
    floors : option pystr;
    buildings_count : option Z;
    finishing : option pystr;
    ceiling_height : option float;
    parking : option pystr }.
End JKFields.

Definition not_brace : Re.cclass := Re.noneof [Re.chr "}"].   (* [^}] *)
(** [([\d.]+)] *)
Definition grp_decimal : Re.node :=
  Re.Grp [Re.plus (Re.oneof [Re.digit; Re.chr "."])].

(** [`displayName`:`([^`]+)`] *)
Definition re_display_name : Re.pattern :=
  Re.lit (q "`displayName`:`") ++ [grp_text] ++ Re.lit (q "`").

(** [`buildingStatusInfo`:\{[^}]*`name`:`([^`]+)`] *)
Definition re_building_status : Re.pattern :=
  Re.lit (q "`buildingStatusInfo`:{") ++ [Re.Rep (Re.star not_brace)] ++
  Re.lit (q "`name`:`") ++ [grp_text] ++ Re.lit (q "`").

(** [class=`street-address`>([^<]+)<] *)
Definition re_street_address : Re.pattern :=
  Re.lit (q "class=`street-address`>") ++
  [Re.Grp [Re.plus (Re.noneof [Re.chr "<"])]] ++ Re.lit (u "<").

(** [`builders`:\[\{`[^}]*`name`:`([^`]+)`] *)
Definition re_builders : Re.pattern :=
  Re.lit (q "`builders`:[{`") ++ [Re.Rep (Re.star not_brace)] ++
  Re.lit (q "`name`:`") ++ [grp_text] ++ Re.lit (q "`").

(** [`fromDeveloperMinPrice`:(\d+)], [`minPrice`:`([\d.]+)`] and the two
    for the maximum *)
Definition re_dev_min_price : Re.pattern :=
  Re.lit (q "`fromDeveloperMinPrice`:") ++ [grp_num].
Definition re_min_price : Re.pattern :=
  Re.lit (q "`minPrice`:`") ++ [grp_decimal] ++ Re.lit (q "`").
Definition re_dev_max_price : Re.pattern :=
  Re.lit (q "`fromDeveloperMaxPrice`:") ++ [grp_num].
Definition re_max_price : Re.pattern :=
  Re.lit (q "`maxPrice`:`") ++ [grp_decimal] ++ Re.lit (q "`").

(** [`minPriceForMeterFromDeveloperValue`:(\d+)] *)
Definition re_meter_min : Re.pattern :=
  Re.lit (q "`minPriceForMeterFromDeveloperValue`:") ++ [grp_num].

(** [`priceForMeterFromDeveloperDisplay`:`[^`]*?(\d[\d\s]*\d)\s*₽] *)
Definition re_meter_display : Re.pattern :=
  Re.lit (q "`priceForMeterFromDeveloperDisplay`:`") ++
  [Re.Rep (Re.star_lazy not_dq)] ++
  [Re.Grp [Re.one Re.digit;
           Re.star (Re.oneof [Re.digit; Re.space]);
           Re.one Re.digit]] ++
  [Re.Rep (Re.star Re.space)] ++ Re.lit (u "₽").

(** [`completionYear`:(\d{4})] *)
Definition re_completion_year : Re.pattern :=
  Re.lit (q "`completionYear`:") ++
  [Re.Grp [Re.mkRep Re.digit 4 (Some 4) true]].

(** [`newbuildingClass`:`([^`]+)`] *)
Definition re_building_class : Re.pattern :=
  Re.lit (q "`newbuildingClass`:`") ++ [grp_text] ++ Re.lit (q "`").

(** [`materials`:\[`([^`]+)`] *)
Definition re_materials : Re.pattern :=
  Re.lit (q "`materials`:[`") ++ [grp_text] ++ Re.lit (q "`").

(** [`floor`:\{`minFloors`:(\d+),`maxFloors`:(\d+)\}] *)
Definition re_floor_range : Re.pattern :=
  Re.lit (q "`floor`:{`minFloors`:") ++ [grp_num] ++
  Re.lit (q ",`maxFloors`:") ++ [grp_num] ++ Re.lit (u "}").

(** [`shortSpecifications`:\[(.+?)\]] *)
Definition re_short_specs : Re.pattern :=
  Re.lit (q "`shortSpecifications`:[") ++ [Re.Grp [Re.plus_lazy Re.dot]] ++
  Re.lit (u "]").

(** [`title`:`Корпуса`,`value`:`(\d+)`] and the two other
    specifications, whose value is [([^`]+)] *)
Definition re_spec_buildings : Re.pattern :=
  Re.lit (q "`title`:`Корпуса`,`value`:`") ++ [grp_num] ++ Re.lit (q "`").
Definition re_spec_finishing : Re.pattern :=
  Re.lit (q "`title`:`Отделка`,`value`:`") ++ [grp_text] ++ Re.lit (q "`").
Definition re_spec_ceiling : Re.pattern :=
  Re.lit (q "`title`:`Потолки`,`value`:`") ++ [grp_text] ++ Re.lit (q "`").

(** [`parking`:\[\{`[^}]*`title`:`([^`]+)`] *)
Definition re_parking : Re.pattern :=
  Re.lit (q "`parking`:[{`") ++ [Re.Rep (Re.star not_brace)] ++
  Re.lit (q "`title`:`") ++ [grp_text] ++ Re.lit (q "`").

(** [m.group(1)] of a search, when it matches. *)
Definition searched (p : Re.pattern) (s : pystr) : option pystr :=
  option_map (Re.group 1) (Re.search p s).

(** The escapes of the two guillemets in the page's JSON. *)
Definition laquo_escape : pystr := u "\u00ab".
Definition raquo_escape : pystr := u "\u00bb".
(** The escape of a no-break space. *)
Definition nbsp_escape : pystr := u "\u00a0".

(** [if m := search(a): int(m.group(1)) elif m := search(b):
    safe_int(m.group(1))] *)
Definition developer_price (a b : Re.pattern) (html : pystr)
  : result (option Z) :=
  match searched a html with
  | Some g => n <- int_of_str g ;; Ok (Some n)
  | None =>
    match searched b html with
    | Some g => n <- safe_int (Some g) 0 ;; Ok (Some n)
    | None => Ok None
    end
  end.

(** [int(m.group(1))] of a search, when it matches. *)
Definition searched_int (p : Re.pattern) (s : pystr) : result (option Z) :=
  match searched p s with
  | Some g => n <- int_of_str g ;; Ok (Some n)
  | None => Ok None
  end.

Section Capitalize.
(** [str.capitalize], whose case tables are not modelled: the parser is
    defined for any function in its place. *)
Variable capitalize : pystr -> pystr.

Definition _extract_jk_fields (html : pystr) : result JKFields.t :=
  (* name *)
  let name :=
    option_map (fun g => replace (replace g laquo_escape (u "«"))
                                 raquo_escape (u "»"))
               (searched re_display_name html) in
  (* status *)
  let status :=
    match searched re_building_status html with
    | Some g => normalize_status (Some g)
    | None => None
    end in
  (* address, developer *)
  let address := searched re_street_address html in
  let developer := searched re_builders html in
  (* the developer's prices *)
  price_min <- developer_price re_dev_min_price re_min_price html ;;
  price_max <- developer_price re_dev_max_price re_max_price html ;;
  (* the price per square metre *)
  price_per_m2_min <- searched_int re_meter_min html ;;
  price_per_m2_max <-
    match searched re_meter_display html with
    | Some g =>
      let price_str := replace (replace g (u " ") []) nbsp_escape [] in
      n <- safe_int (Some price_str) 0 ;; Ok (Some n)
    | None => Ok None
    end ;;
  (* the year, the class, the type of the house *)
  year_built <- searched_int re_completion_year html ;;
  let building_class := searched re_building_class html in
  let building_type := option_map capitalize (searched re_materials html) in
  (* the floors *)
  let floors :=
    match Re.search re_floor_range html with
    | Some m =>
      let min_f := Re.group 1 m in
      let max_f := Re.group 2 m in
      Some (if str_eqb min_f max_f then min_f else min_f ++ u "-" ++ max_f)
    | None => None
    end in
  (* the specifications *)
  '(buildings_count, finishing, ceiling_height) <-
    match searched re_short_specs html with
    | Some specs =>
      buildings_count <- searched_int re_spec_buildings specs ;;
      let finishing := searched re_spec_finishing specs in
      ceiling_height <-
        match searched re_spec_ceiling specs with
        | Some g => x <- safe_float (Some g) fzero ;; Ok (Some x)
        | None => Ok None
        end ;;
      Ok (buildings_count, finishing, ceiling_height)
    | None => Ok (None, None, None)
    end ;;
  (* parking *)
  let parking := searched re_parking html in
  Ok (JKFields.mk name status address developer price_min price_max
        price_per_m2_min price_per_m2_max year_built building_class
        building_type floors buildings_count finishing ceiling_height
        parking).

(** ** _parse_jk *)

Definition JK_URL : pystr := u "https://zhk-bristol-i.cian.ru/".
Definition default_name : pystr := u "ЖК «Бристоль»".

(** [jk_data] is [id], the default [name] and [url], updated with the
    fields found; the [JK] made of it gives every field a value of its
    type. *)
Definition _parse_jk (newobject_id : pystr) (content : result pystr)
  : result JK.t :=
  html <- content ;;
  data <- _extract_jk_fields html ;;
  Ok (JK.mk newobject_id
        (match JKFields.name data with Some n => n | None => default_name end)
        JK_URL
        (JKFields.status data) (JKFields.address data)
        (JKFields.developer data)
        (JKFields.price_min data) (JKFields.price_max data)
        (JKFields.price_per_m2_min data) (JKFields.price_per_m2_max data)
        (JKFields.building_class data) (JKFields.floors data)
        (JKFields.buildings_count data) (JKFields.building_type data)
        (JKFields.ceiling_height data) (JKFields.finishing data)
        (JKFields.parking data) (JKFields.year_built data)).

End Capitalize.

(** ** parse *)

Module ParseResult.
(** [class ParseResult(BaseModel)]; [parsed_at] is a reading of the
    clock. *)
Record t := mk
  { jk : JK.t;
    flats : list Flat.t;
    flats_count : Z;
    parsed_at : Z }.
End ParseResult.

(** What [parse] meets outside the parser: Playwright, the browser, the
    landing page of the development, the site of the listing and the
    clock, each call with its outcome. *)
Record World := mkWorld
  { pw_enter : result unit;            (* sync_playwright().__enter__() *)
    pw_exit : result unit;             (* its __exit__, which returns None *)
    chromium_launch : result unit;     (* pw.chromium.launch(...) *)
    browser_new_context : result unit;
    context_new_page : result unit;
    jk_goto : result unit;             (* page.goto(JK_URL) *)
    jk_loaded : result unit;           (* wait_for_load_state *)
    jk_content : nat -> result pystr;  (* the n-th page.content() *)
    flats_site : pystr -> Site;        (* the site, for a listing URL *)
    browser_close : result unit;
    now : Z                            (* datetime.now() *) }.

(** What [parse] does, in order. *)
Inductive step :=
| StEnter                       (* sync_playwright() is entered *)
| StLaunch                      (* _launch_browser *)
| StNewContext                  (* browser.new_context(...) *)
| StNewPage                     (* context.new_page() *)
| StGotoJK                      (* page.goto(JK_URL) *)
| StFlats (flats_url : pystr) (e : event)   (* an event of _parse_flats *)
| StClose                       (* browser.close() *)
| StExit.                       (* sync_playwright() is left *)

Definition T (A : Type) : Type := (list step * outcome A)%type.

Definition retT {A} (a : A) : T A := ([], Done a).
Definition liftT {A} (r : result A) : T A := ([], of_result r).
Definition act {A} (s : step) (r : result A) : T A := ([s], of_result r).

Definition bindT {A B} (m : T A) (f : A -> T B) : T B :=
  match m with
  | (t1, Done a) => let (t2, r) := f a in (t1 ++ t2, r)
  | (t1, Failed e) => (t1, Failed e)
  end.

(** [try: body finally: cleanup], and the exit of a [with] block whose
    [__exit__] returns [None]: the cleanup runs whatever the body did, and
    an exception it raises replaces the outcome of the body. *)
Definition ensuring {A} (body : T A) (cleanup : T unit) : T A :=
  let (t1, r) := body in
  match cleanup with
  | (t2, Done _) => (t1 ++ t2, r)
  | (t2, Failed e) => (t1 ++ t2, Failed e)
  end.

(** [_parse_flats] as a part of [parse]. *)
Definition flats_run {A} (flats_url : pystr) (m : M A) : T A :=
  (map (StFlats flats_url) (fst m), of_result (snd m)).

Definition _launch_browser (w : World) : T unit :=
  act StLaunch (chromium_launch w).

Definition _create_page (w : World) : T unit :=
  bindT (act StNewContext (browser_new_context w)) (fun _ =>
  act StNewPage (context_new_page w)).

Definition _open_jk_page (w : World) : T unit :=
  bindT (act StGotoJK (jk_goto w)) (fun _ =>
  liftT (jk_loaded w)).

Section Parse.
Variable capitalize : pystr -> pystr.   (* str.capitalize, as above *)

Definition parse (w : World) : T ParseResult.t :=
  bindT (act StEnter (pw_enter w)) (fun _ =>
  bindT
    (ensuring
       (bindT (_launch_browser w) (fun _ =>
        ensuring
          (bindT (_create_page w) (fun _ =>
           bindT (_open_jk_page w) (fun _ =>
           bindT ([], _extract_newobject_id (jk_content w 0))
                 (fun newobject_id =>
           let flats_url := _build_flats_url (Some newobject_id) in
           bindT (liftT (_parse_jk capitalize newobject_id (jk_content w 1)))
                 (fun jk =>
           bindT (liftT (jk_content w 2)) (fun jk_html =>
           bindT (flats_run flats_url
                    (_parse_flats (flats_site w flats_url) jk jk_html))
                 (fun flats =>
           retT (jk, flats))))))))
          (act StClose (browser_close w))))
       (act StExit (pw_exit w)))
    (fun '(jk, flats) =>
       retT (ParseResult.mk jk flats (Z.of_nat (length flats)) (now w)))).

End Parse.

(* ================================================================== *)
(** * The vocabulary of the properties *)
(* ================================================================== *)

Unset Implicit Arguments.

(** [has_sign s x]: [x] is a zero, a finite number or an infinity of sign
    [s] (so not a NaN). *)
Definition has_sign (s : bool) (x : float) : Prop :=
  match x with
  | S754_zero s' | S754_infinity s' | S754_finite s' _ _ => s' = s
  | S754_nan => False
  end.

(** [floor(x)] as [math.floor] computes it: the largest integer below
    [m * 2 ^ e], an exception for an infinity or a NaN. *)
Definition floor_float (x : float) : result Z :=
  match x with
  | S754_zero _ => Ok 0%Z
  | S754_infinity _ => Raise OverflowError
  | S754_nan => Raise ValueError
  | S754_finite s m e =>
    let n := if s then Zneg m else Zpos m in
    Ok (n * 2 ^ Z.max e 0 / 2 ^ Z.max (- e) 0)%Z
  end.

(** What a pattern accepts, said without the search: a text is in the
    language of a sequence of quantified classes when it splits into one run
    per class, each run made of characters of its class and long enough. *)
Definition run_ok (r : Re.rep) (x : pystr) : Prop :=
  forallb (Re.cls r) x = true /\ Re.lo r <= length x.

Fixpoint lang (b : list Re.rep) (w : pystr) : Prop :=
  match b with
  | [] => w = []
  | r :: b' => exists x y, w = x ++ y /\ run_ok r x /\ lang b' y
  end.

(** The groups of a match, each in the language of its body. *)
Fixpoint groups_ok (p : Re.pattern) (gs : list pystr) : Prop :=
  match p with
  | [] => gs = []
  | Re.Grp b :: p' =>
    exists g gs', gs = g :: gs' /\ lang b g /\ groups_ok p' gs'
  | _ :: p' => groups_ok p' gs
  end.

(** The characters of an unsigned decimal literal with a point. *)
Definition plain_char (c : char) : bool := is_digit c || (c =? point)%N.

(** The characters [str.isdigit] accepts or [plain_char]: none is a sign or
    a letter. *)
Definition unsigned_char (c : char) : bool := char_isdigit c || plain_char c.

(** A record with a positive area and a positive price. *)
Definition positive_flat (f : Flat.t) : Prop :=
  fltb fzero (Flat.area f) = true /\ (0 < Flat.price f)%Z.

(** The pages [_parse_flats_page] was run on, from the events. *)
Definition parsed_pages (t : list event) : list Z :=
  flat_map (fun e => match e with EvParsePage n => [n] | _ => [] end) t.

(** The page the browser shows during turn [page_num]. *)
Definition page_at (site : Site) (page_num : Z) : ListingPage :=
  listing site (Z.to_nat (page_num - 1)).

(** The cards a page shows: the link areas, or else the card components. *)
Definition cards_of (page : ListingPage) : list Card :=
  match link_areas page with
  | Ok (c :: cs) => c :: cs
  | Ok [] => match card_components page with Ok cs => cs | Raise _ => [] end
  | Raise _ => []
  end.

(** Every entry of the dictionary stands under the identifier of its
    flat, which is one of the flats given. *)
Definition keyed_by_id (flats : list Flat.t) (d : dict Flat.t) : Prop :=
  forall k v, In (k, v) d -> k = Flat.id v /\ In v flats.

(** The fields enrichment never writes. *)
Definition fixed_fields (f : Flat.t) :=
  (Flat.id f, Flat.url f, Flat.rooms f, Flat.area f, Flat.floor f,
   Flat.floors_total f, Flat.price f, Flat.year_built f, Flat.house_status f).

(** The records after the enrichment pass: each one as its own visit
    leaves it. *)
Fixpoint enriched (site : Site) (jk : JK.t) (i : nat) (flats : list Flat.t)
  : list Flat.t :=
  match flats with
  | [] => []
  | flat :: rest =>
    fst (_enrich_flat_details site i jk flat) :: enriched site jk (S i) rest
  end.

(** The listing opens and its first page reads as [html]. *)
Definition listing_opens (site : Site) (html : pystr) : Prop :=
  listing_goto site = Ok tt /\ listing_settled site = Ok tt
  /\ content (listing site 0) = Ok html.

(** The detail page opens and reads as [html]. *)
Definition detail_opens (page : DetailPage) (html : pystr) : Prop :=
  detail_goto page = Ok tt /\ detail_settled page = Ok tt
  /\ detail_content page = Ok html.

(** [from; from + 1; ...], [len] page numbers. *)
Fixpoint page_range (from : Z) (len : nat) : list Z :=
  match len with
  | O => []
  | S len' => from :: page_range (from + 1) len'
  end.

(** A listing page whose document and cards can be read. *)
Definition page_loads (page : ListingPage) : Prop :=
  (exists html, content page = Ok html)
  /\ exists cards,
      link_areas page = Ok cards
      /\ (cards = [] -> exists cs, card_components page = Ok cs).

(** The page shows a pagination control that is visible and works. *)
Definition next_active (page : ListingPage) : Prop :=
  exists btn,
    q_next_btn page = Ok (Some btn) /\ is_visible btn = Ok true
    /\ click btn = Ok tt /\ settled btn = Ok tt.

(** The page shows no pagination control, or one that is not visible. *)
Definition next_absent (page : ListingPage) : Prop :=
  q_next_btn page = Ok None
  \/ exists btn, q_next_btn page = Ok (Some btn) /\ is_visible btn = Ok false.

(** [l1] is [l2] with some elements left out. *)
Inductive subseq {A : Type} : list A -> list A -> Prop :=
| subseq_nil : subseq [] []
| subseq_skip x l1 l2 : subseq l1 l2 -> subseq l1 (x :: l2)
| subseq_keep x l1 l2 : subseq l1 l2 -> subseq (x :: l1) (x :: l2).

(** The identifier a card carries, if its link can be read. *)
Definition card_ids (card : Card) : list pystr :=
  match _extract_flat_url_and_id card with
  | Ok (_, flat_id) => [flat_id]
  | Raise _ => []
  end.

(** The identifiers of the cards shown on the given pages, in order. *)
Definition shown_ids (site : Site) (pages : list Z) : list pystr :=
  flat_map (fun n => flat_map card_ids (cards_of (page_at site n))) pages.

(** The precedence of the specification: the first address that is
    present, from the card, then the layout, then the development. *)
Definition first_present (card_address layout_address jk_address
  : option pystr) : option pystr :=
  if truthy card_address then card_address
  else if truthy layout_address then layout_address
  else jk_address.

(** The address of the layout candidate, if there is a candidate. *)
Definition layout_address (layout : option Flat.t) : option pystr :=
  match layout with
  | Some l => Flat.address l
  | None => None
  end.

(** A record without a floor. *)
Definition no_floor (f : Flat.t) : Prop :=
  Flat.floor f = 0%Z /\ Flat.floors_total f = 0%Z.

(** ** Matches, said without the search *)

(** A run of a quantified class: characters of the class, as many as the
    quantifier allows. *)
Definition run_in (r : Re.rep) (x : pystr) : Prop :=
  forallb (Re.cls r) x = true /\ Re.lo r <= length x
  /\ match Re.hi r with Some h => length x <= h | None => True end.

Fixpoint text_in (b : list Re.rep) (w : pystr) : Prop :=
  match b with
  | [] => w = []
  | r :: b' => exists x y, w = x ++ y /\ run_in r x /\ text_in b' y
  end.

(** [matches p w rest gs]: the text [w], followed by [rest], is a match of
    [p] whose groups are [gs]. *)
Fixpoint matches (p : Re.pattern) (w rest : pystr) (gs : list pystr) : Prop :=
  match p with
  | [] => w = [] /\ gs = []
  | Re.Rep r :: p' =>
    exists x y, w = x ++ y /\ run_in r x /\ matches p' y rest gs
  | Re.Grp b :: p' =>
    exists g y gs',
      w = g ++ y /\ gs = g :: gs' /\ text_in b g /\ matches p' y rest gs'
  | Re.Eos :: p' => Re.at_end (w ++ rest) = true /\ matches p' w rest gs
  end.

(** [s] holds a match of [p] with the groups [gs]. *)
Definition found (p : Re.pattern) (s : pystr) (gs : list pystr) : Prop :=
  exists pre w rest, s = pre ++ w ++ rest /\ matches p w rest gs.

(** A string of decimal digits, and the number it writes. *)
Definition digits (s : pystr) : Prop := s <> [] /\ forallb is_digit s = true.

Definition number (s : pystr) : Z :=
  match digit_values s with
  | Some ds => decimal ds
  | None => 0%Z
  end.

(** The next character, if any, is not of the class: a run ends here. *)
Definition stops (f : char -> bool) (rest : pystr) : Prop :=
  match rest with
  | [] => True
  | c :: _ => f c = false
  end.

(** The characters the area pattern takes: a decimal digit or a comma. *)
Definition area_char : char -> bool := Re.oneof [Re.digit; Re.chr ","].

(** [s.replace(',', '.')], character by character. *)
Definition comma_as_point (c : char) : char :=
  if (44 =? c)%N then point else c.

(** [sep.join(parts)] *)
Fixpoint join (sep : pystr) (parts : list pystr) : pystr :=
  match parts with
  | [] => []
  | [p] => p
  | p :: ps => p ++ sep ++ join sep ps
  end.

(** The escape of a slash in the page's JSON, and the backslash it starts
    with. *)
Definition slash_escape : pystr := u "\u002F".
Definition backslash : char := 92%N.

Definition closing_brace : char := 125%N.

(** The characters the price patterns take: a decimal digit or a
    whitespace; the ruble sign; the two blanks that [_parse_price] removes,
    the space and the no-break space. *)
Definition price_char : char -> bool := Re.oneof [Re.digit; Re.space].
Definition ruble : char := 8381%N.
Definition blank (c : char) : bool := ((c =? 32) || (c =? 160))%N.

(** [s.replace(NBSP, ' ')], character by character. *)
Definition nbsp_as_space (c : char) : char :=
  if (160 =? c)%N then 32%N else c.


(** The last of the flats that has the identifier [k]. *)
Definition last_with_id (k : pystr) (flats : list Flat.t) : option Flat.t :=
  find (fun f => str_eqb k (Flat.id f)) (rev flats).

(** An event of the listing: a page parsed, the pagination control
    clicked. *)
Definition listing_event (e : event) : Prop :=
  match e with
  | EvParsePage _ | EvClickNext _ => True
  | _ => False
  end.



(** [opt_all P o]: the value of [o], when there is one, satisfies [P]. *)
Definition opt_all {A : Type} (P : A -> Prop) (o : option A) : Prop :=
  match o with
  | Some a => P a
  | None => True
  end.

(** The string the parser gives for the floors: one number, or two
    different ones around a hyphen. *)
Definition floors_text (s : pystr) : Prop :=
  exists a b,
    digits a /\ digits b
    /\ s = if str_eqb a b then a else a ++ u "-" ++ b.

(** A text that is not empty and has no [c] in it: what a group
    [([^c]+)] holds. *)
Definition text_without (c : char) (s : pystr) : Prop := s <> [] /\ ~ In c s.

(** The floor of a quotient taken in exact arithmetic, as a reader of
    [floor(p / a)] would compute it: the largest integer [n] with
    [n * a <= p], for a positive finite float [a = m * 2 ^ e]; 0 for an
    infinite area. *)
Definition floor_of_quotient (p : Z) (a : float) : option Z :=
  match a with
  | S754_finite false m e =>
    Some (match e with
          | Zneg k => (p * 2 ^ Zpos k) / Zpos m
          | _ => p / (Zpos m * 2 ^ e)
          end)%Z
  | S754_infinity false => Some 0%Z
  | _ => None
  end.

(** The word every pattern of [_extract_newobject_id] looks for. *)
Definition newobject : pystr := u "newobject".

(** The steps of the [try] block of [parse]: what is done with the browser
    between its launch and its closing. *)
Definition working_step (s : step) : Prop :=
  match s with
  | StNewContext | StNewPage | StGotoJK | StFlats _ _ => True
  | StEnter | StLaunch | StClose | StExit => False
  end.

(* ================================================================== *)
(** * A small site to run the parser on *)
(* ================================================================== *)

Module Example.

(** The development: identifier 42, address [Street]. *)
Definition jk : JK.t :=
  JK.mk (u "42") (u "Complex") (u "https://zhk-bristol-i.cian.ru/")
        None (Some (u "Street")) None None None None None None None None
        None None None None (Some 2025%Z).

(** A layout record of the landing document. *)
Definition layout_json (offer_id total_area price : string) : pystr :=
  q "{`roomCount`:`1-комн.`,`offerUrl`:`https://www.cian.ru/sale/flat/"
  ++ u offer_id
  ++ q "/`,`houseName`:`Шекспира, 1к1 (510к2)`,`finishDate`:`Сдан`,"
  ++ q "`totalArea`:`" ++ u total_area
  ++ q "`,`priceDisplay`:`-`,`price`:" ++ u price
  ++ q ",`offerId`:" ++ u offer_id
  ++ q ",`layoutImageUrl`:`https://img/" ++ u offer_id ++ q ".jpg`}".

(** The landing document with the layout of flat 7: 45,6 m², 5 000 000. *)
Definition landing : pystr :=
  u "<script>" ++ layout_json "7" "45,6" "5000000" ++ u "</script>".

(** A landing document whose one layout has no area and no price. *)
Definition landing_free : pystr :=
  u "<script>" ++ layout_json "9" "0" "0" ++ u "</script>".

(** The card of a flat: a link, a title, a price, no address. *)
Definition card (flat_id : string) : Card :=
  mkCard
    (Ok (Some (mkLink (Ok (Some (u "/sale/flat/" ++ u flat_id ++ u "/"))))))
    (Ok None)
    (Ok None)
    (Ok (u "1-комн. кв., 45,6 м², 3/9 этаж"))
    (Ok (Some (mkElem (Ok (u "5 000 000 ₽")))))
    (Ok None).

Definition next_btn : NextBtn := mkNextBtn (Ok true) (Ok tt) (Ok tt).

Definition page (cards : list Card) (next : option NextBtn) : ListingPage :=
  mkListingPage (Ok (u "<html>offers</html>")) (Ok cards) (Ok []) (Ok next).

Definition plain_detail : DetailPage :=
  mkDetailPage (Ok tt) (Ok tt) (Ok (u "<html></html>")).

(** A detail page with a building code and two photos. *)
Definition rich_detail : DetailPage :=
  mkDetailPage (Ok tt) (Ok tt)
    (Ok (q "<title>Продажа, ул. Шекспира, 1к2</title>"
         ++ q "`photos`:[{`fullUrl`:`https://img/a.jpg`},"
         ++ q "{`fullUrl`: `https://img/b.jpg`}]")).

(** The document of a detail page with a building code and no photos. *)
Definition title_only : pystr :=
  q "<title>Продажа, ул. Шекспира, 1к2</title>".

Definition title_only_detail : DetailPage :=
  mkDetailPage (Ok tt) (Ok tt) (Ok title_only).

(** A detail page that does not open. *)
Definition broken_detail : DetailPage :=
  mkDetailPage (Raise PlaywrightError) (Ok tt) (Ok []).

(** One listing page, with the card of flat 7 and no pagination control. *)
Definition site_one : Site :=
  mkSite (Ok tt) (Ok tt) (fun _ => page [card "7"] None)
         (fun _ _ => plain_detail).

(** Two listing pages, both showing the card of flat 7. *)
Definition site_twice : Site :=
  mkSite (Ok tt) (Ok tt)
         (fun n => match n with
                   | O => page [card "7"] (Some next_btn)
                   | _ => page [card "7"] None
                   end)
         (fun _ _ => plain_detail).

(** The listing says there is nothing to show. *)
Definition site_empty : Site :=
  mkSite (Ok tt) (Ok tt)
         (fun _ => mkListingPage
                     (Ok (u "<html>Нет подходящих объявлений</html>"))
                     (Ok []) (Ok []) (Ok None))
         (fun _ _ => plain_detail).

(** Every detail page has a building code and no photos. *)
Definition site_title_only : Site :=
  mkSite (Ok tt) (Ok tt) (fun _ => page [card "1"] None)
         (fun _ _ => title_only_detail).

(** Cards A, B, C (flats 1, 2, 3); the detail page of the second visit
    does not open. *)
Definition site_abc : Site :=
  mkSite (Ok tt) (Ok tt)
         (fun _ => page [card "1"; card "2"; card "3"] None)
         (fun i _ => match i with
                     | 1 => broken_detail
                     | _ => rich_detail
                     end).

(** [pages] listing pages with an active pagination control on all but the
    last, or on all of them. *)
Definition site_pages (pages : nat) (last_active : bool) : Site :=
  mkSite (Ok tt) (Ok tt)
         (fun n => if S n <? pages then page [] (Some next_btn)
                   else if (S n =? pages) && last_active
                        then page [] (Some next_btn)
                        else page [] None)
         (fun _ _ => plain_detail).

(** 45.6 as a float *)
Definition area_45_6 : float := S754_finite false 6417629469002957 (-47).

(** The record of flat [n] as its card and the layout of flat 7 give
    it. *)
Definition flat (flat_id : string) (address : option pystr)
  (year_built : option Z) (house_status : option pystr)
  (images : list pystr) : Flat.t :=
  Flat.mk (u flat_id) (u "https://www.cian.ru/sale/flat/" ++ u flat_id ++ u "/")
          1 area_45_6 3 9 5000000 address year_built house_status images.

(** The candidate the layout of flat 7 gives. *)
Definition layout7 : Flat.t :=
  Flat.mk (u "7") (u "https://www.cian.ru/sale/flat/7/") 1 area_45_6 0 0
          5000000 (Some (u "Street, 1к1")) (Some 2025%Z) (Some (u "Сдан"))
          [u "https://img/7.jpg"].

(** The record of flat 7: its card merged with its layout. *)
Definition flat7 : Flat.t :=
  flat "7" (Some (u "Street, 1к1")) (Some 2025%Z) (Some (u "Сдан"))
       [u "https://img/7.jpg"].

End Example.

(** ** The records the examples give *)

(** The record the layout of [landing_free] gives. *)
Definition free_flat : Flat.t :=
  Flat.mk (u "9") (u "https://www.cian.ru/sale/flat/9/") 1 fzero 0 0 0
          (Some (u "Street, 1к1")) (Some 2025%Z) (Some (u "Сдан"))
          [u "https://img/9.jpg"].

(** The records of cards A, B, C before the enrichment. *)
Definition abc_before : list Flat.t :=
  [Example.flat "1" (Some (u "Street")) (Some 2025%Z) None [];
   Example.flat "2" (Some (u "Street")) (Some 2025%Z) None [];
   Example.flat "3" (Some (u "Street")) (Some 2025%Z) None []].

(** After it: A and C have the building code and the photos of their
    detail page, B is as it was. *)
Definition abc_after : list Flat.t :=
  [Example.flat "1" (Some (u "Street, 1к2")) (Some 2025%Z) None
                [u "https://img/a.jpg"; u "https://img/b.jpg"];
   Example.flat "2" (Some (u "Street")) (Some 2025%Z) None [];
   Example.flat "3" (Some (u "Street, 1к2")) (Some 2025%Z) None
                [u "https://img/a.jpg"; u "https://img/b.jpg"]].

(** A development whose address is [Y], a layout candidate whose address
    is [X], one that has none. *)
Definition jk_Y : JK.t :=
  JK.mk (u "42") (u "Complex") (u "https://zhk-bristol-i.cian.ru/")
        None (Some (u "Y")) None None None None None None None None
        None None None None None.

Definition layout_X : Flat.t := Example.flat "7" (Some (u "X")) None None [].
Definition layout_none : Flat.t := Example.flat "7" None None None [].

(** 1.0 as a float *)
Definition area_1_0 : float := S754_finite false 4503599627370496 (-52).

(** A flat of 45.6 m² at 4 560 000; a flat whose price, 2 ^ 53 + 1, is not
    a float; a flat whose price is beyond the floats. *)
Definition flat_100000 : Flat.t :=
  Flat.mk (u "1") (u "https://www.cian.ru/sale/flat/1/") 1 Example.area_45_6
          3 9 4560000 None None None [].

Definition flat_2_53 : Flat.t :=
  Flat.mk (u "2") (u "https://www.cian.ru/sale/flat/2/") 1 area_1_0
          3 9 9007199254740993 None None None [].

Definition flat_10_400 : Flat.t :=
  Flat.mk (u "3") (u "https://www.cian.ru/sale/flat/3/") 1 area_1_0
          3 9 (10 ^ 400) None None None [].

(** ** A sample run *)

Module Sample.

(** The landing document of the development 42: a link to its listing,
    its fields, and the layout of flat 7. *)
Definition jk_page : pystr :=
  q "<a href=`/cat.php?newobject%5B0%5D=42`>" ++
  q "{`displayName`:`ЖК Бристоль`,`completionYear`:2025," ++
  q "`fromDeveloperMinPrice`:5000000,`maxPrice`:`9000000.5`," ++
  q "`floor`:{`minFloors`:9,`maxFloors`:17}," ++
  q "`buildingStatusInfo`:{`id`:1,`name`:`Дом сдан`}}" ++
  q "<span class=`street-address`>Street</span>" ++
  Example.landing.

(** A landing document whose minimal price has four hundred digits. *)
Definition huge_price_page : pystr :=
  q "`minPrice`:`" ++ repeat 57%N 400 ++ q "`".

(** [str.capitalize] on the words of the samples, which it leaves as they
    are. *)
Definition capitalize (s : pystr) : pystr := s.

(** What [_parse_jk] makes of [jk_page]. *)
Definition jk : JK.t :=
  JK.mk (u "42") (u "ЖК Бристоль") JK_URL (Some (u "Сдан"))
        (Some (u "Street")) None (Some 5000000%Z) (Some 9000000%Z) None None
        None (Some (u "9-17")) None None None None None (Some 2025%Z).

(** A run in which every call succeeds: the landing page is [jk_page],
    the listing has the card of flat 7. *)
Definition world : World :=
  mkWorld (Ok tt) (Ok tt) (Ok tt) (Ok tt) (Ok tt) (Ok tt) (Ok tt)
          (fun _ => Ok jk_page) (fun _ => Example.site_one) (Ok tt)
          1700000000%Z.

(** The same run, on a landing page with no identifier. *)
Definition world_without_id : World :=
  mkWorld (Ok tt) (Ok tt) (Ok tt) (Ok tt) (Ok tt) (Ok tt) (Ok tt)
          (fun _ => Ok (u "<html></html>")) (fun _ => Example.site_one)
          (Ok tt) 1700000000%Z.

(** The same run, with a browser that fails to close. *)
Definition world_not_closing : World :=
  mkWorld (Ok tt) (Ok tt) (Ok tt) (Ok tt) (Ok tt) (Ok tt) (Ok tt)
          (fun _ => Ok jk_page) (fun _ => Example.site_one)
          (Raise PlaywrightError) 1700000000%Z.

(** What [parse] returns in [world]. *)
Definition result : ParseResult.t :=
  Eval vm_compute in
    match snd (parse capitalize world) with
    | Done r => r
    | Failed _ => ParseResult.mk jk [] 0%Z 0%Z
    end.

End Sample.

(* ================================================================== *)
(** * Facts about the floats *)
(* ================================================================== *)

Section Rounding.
Local Open Scope Z_scope.

Lemma shr_1_nonneg (r : shr_record) :
  0 <= shr_m r -> 0 <= shr_m (shr_1 r).
Proof.
  destruct r as [m b1 b2]; simpl.
  destruct m as [|p|p]; simpl; try lia;
    destruct p; simpl; lia.
Qed.

Lemma iter_pos_shr_1_nonneg (n : positive) :
  forall r, 0 <= shr_m r -> 0 <= shr_m (iter_pos shr_1 n r).
Proof.
  induction n as [n IH|n IH|]; intros r Hr; simpl.
  - apply IH, IH, shr_1_nonneg, Hr.
  - apply IH, IH, Hr.
  - apply shr_1_nonneg, Hr.
Qed.

Lemma shr_nonneg (r : shr_record) (e n : Z) :
  0 <= shr_m r -> 0 <= shr_m (fst (shr r e n)).
Proof.
  intros Hr. destruct n; simpl; auto using iter_pos_shr_1_nonneg.
Qed.

Lemma shr_fexp_nonneg (m e : Z) (l : location) :
  0 <= m -> 0 <= shr_m (fst (shr_fexp prec emax m e l)).
Proof.
  intros Hm. unfold shr_fexp. apply shr_nonneg.
  destruct l as [|[ | | ]]; simpl; exact Hm.
Qed.

Lemma round_nearest_even_nonneg (m : Z) (l : location) :
  0 <= m -> 0 <= round_nearest_even m l.
Proof.
  intros Hm. destruct l as [|[ | | ]]; simpl; try lia.
  destruct (Z.even m); lia.
Qed.

(** Rounding a non-negative mantissa keeps the sign it is given and never
    makes a NaN. *)
Lemma binary_round_aux_sign (s : bool) (m e : Z) (l : location) :
  0 <= m -> has_sign s (binary_round_aux prec emax s m e l).
Proof.
  intros Hm. unfold binary_round_aux.
  pose proof (shr_fexp_nonneg m e l Hm) as H1.
  destruct (shr_fexp prec emax m e l) as [r1 e1]; simpl in H1.
  pose proof (round_nearest_even_nonneg _ (loc_of_shr_record r1) H1) as H2.
  pose proof (shr_fexp_nonneg _ e1 loc_Exact H2) as H3.
  destruct (shr_fexp prec emax (round_nearest_even (shr_m r1)
                                  (loc_of_shr_record r1)) e1 loc_Exact)
    as [r2 e2]; simpl in H3.
  destruct (shr_m r2) as [|p|p]; simpl; try reflexivity; try lia.
  destruct (_ <=? _); simpl; reflexivity.
Qed.

Lemma SFdiv_finite_sign (s1 s2 : bool) (m1 m2 : positive) (e1 e2 : Z) :
  has_sign (xorb s1 s2)
    (SFdiv prec emax (S754_finite s1 m1 e1) (S754_finite s2 m2 e2)).
Proof.
  unfold SFdiv, SFdiv_core_binary.
  set (e' := Z.min _ _). set (sh := e1 - e2 - e').
  set (m' := match sh with Z.pos _ => _ | Z0 => _ | Z.neg _ => _ end).
  assert (Hm' : 0 <= m').
  { unfold m'. destruct sh; try lia. apply Z.shiftl_nonneg. lia. }
  pose proof (Z.div_pos m' (Zpos m2) Hm' ltac:(lia)) as Hq.
  unfold Z.div in Hq.
  destruct (Z.div_eucl m' (Zpos m2)) as [qq r]; simpl in Hq.
  apply binary_round_aux_sign, Hq.
Qed.

Lemma round_ratio_sign (s : bool) (num den : positive) :
  has_sign s (round_ratio s num den).
Proof.
  unfold round_ratio.
  replace s with (xorb s false) at 1 by (destruct s; reflexivity).
  apply SFdiv_finite_sign.
Qed.

Lemma round_decimal_sign (s : bool) (m e : Z) :
  has_sign s (round_decimal s m e).
Proof.
  unfold round_decimal.
  destruct m; simpl; try reflexivity; destruct e; apply round_ratio_sign.
Qed.

Lemma float_of_int_sign (n : Z) (x : float) :
  0 <= n -> float_of_int n = Ok x ->
  has_sign false x /\ forall s, x <> S754_infinity s.
Proof.
  unfold float_of_int, binary_normalize. intros Hn.
  destruct n as [|p|p]; try lia.
  - intros [= <-]. split; [simpl; reflexivity | discriminate].
  - unfold binary_round.
    destruct (shl_align p 0 _) as [mz ez].
    pose proof (binary_round_aux_sign false (Zpos mz) ez loc_Exact
                  ltac:(lia)) as Hs.
    destruct (binary_round_aux prec emax false (Z.pos mz) ez loc_Exact);
      try discriminate; intros [= <-]; (split; [exact Hs | discriminate]).
Qed.

(** [x > 0] for a float. *)
Lemma fltb_zero_inv (x : float) :
  fltb fzero x = true ->
  x = S754_infinity false \/ exists m e, x = S754_finite false m e.
Proof.
  destruct x as [s|s| |s m e]; simpl; try discriminate.
  - destruct s; [discriminate | auto].
  - destruct s; [discriminate | eauto].
Qed.

(** On what is not negative, rounding towards zero is rounding down. *)
Lemma int_of_float_floor (x : float) :
  has_sign false x \/ x = S754_nan -> int_of_float x = floor_float x.
Proof.
  intros [Hs | ->]; [| reflexivity].
  destruct x as [s|s| |s m e]; simpl in *; try reflexivity; try tauto.
  subst s. f_equal. destruct e as [|k|k]; simpl Z.max.
  - rewrite Z.shiftl_0_r, Z.pow_0_r, Z.mul_1_r, Z.div_1_r. reflexivity.
  - rewrite Z.shiftl_mul_pow2 by lia.
    rewrite Z.pow_0_r, Z.div_1_r. reflexivity.
  - rewrite Z.shiftr_div_pow2 by lia.
    rewrite Z.pow_0_r, Z.mul_1_r. reflexivity.
Qed.
End Rounding.

(* ================================================================== *)
(** * Facts about matching *)
(* ================================================================== *)

Section Matching.

Lemma span_le_length (f : Re.cclass) (s : pystr) :
  forall cap, Re.span f cap s <= length s.
Proof.
  induction s as [|c s IH]; intros cap; simpl.
  - destruct cap as [[|n]|]; simpl; lia.
  - destruct cap as [[|n]|]; simpl; try lia;
      destruct (f c); simpl; try lia.
    + specialize (IH (Some n)). simpl in IH. lia.
    + specialize (IH None). simpl in IH. lia.
Qed.

Lemma span_prefix (f : Re.cclass) (s : pystr) :
  forall cap i, i <= Re.span f cap s -> forallb f (firstn i s) = true.
Proof.
  induction s as [|c s IH]; intros cap i Hi.
  - destruct i; reflexivity.
  - destruct i as [|i]; [reflexivity|]. simpl.
    destruct cap as [[|n]|]; simpl in Hi; try lia;
      destruct (f c) eqn:Hc; try lia; simpl.
    + apply (IH (Some n)). simpl. lia.
    + apply (IH None). simpl. lia.
Qed.

Variable A : Type.
Implicit Types (k : pystr -> option A) (s : pystr).

Lemma try_down_sound d base s k a :
  Re.try_down d base s k = Some a ->
  exists i, base <= i <= base + d /\ k (skipn i s) = Some a.
Proof.
  induction d as [|d IH]; simpl.
  - destruct (k (skipn (base + 0) s)) eqn:E; [|discriminate].
    intros [= ->]. exists (base + 0). split; [lia | exact E].
  - destruct (k (skipn (base + S d) s)) eqn:E.
    + intros [= ->]. exists (base + S d). split; [lia | exact E].
    + intros H. destruct (IH H) as (i & Hi & Hk).
      exists i. split; [lia | exact Hk].
Qed.

Lemma try_up_sound d s k a :
  forall base, Re.try_up d base s k = Some a ->
  exists i, base <= i <= base + d /\ k (skipn i s) = Some a.
Proof.
  induction d as [|d IH]; intros base; simpl.
  - destruct (k (skipn base s)) eqn:E; [|discriminate].
    intros [= ->]. exists base. split; [lia | exact E].
  - destruct (k (skipn base s)) eqn:E.
    + intros [= ->]. exists base. split; [lia | exact E].
    + intros H. destruct (IH _ H) as (i & Hi & Hk).
      exists i. split; [lia | exact Hk].
Qed.

Lemma try_rep_sound r s k a :
  Re.try_rep r s k = Some a ->
  exists x s', s = x ++ s' /\ run_ok r x /\ k s' = Some a.
Proof.
  unfold Re.try_rep.
  set (n := Re.span (Re.cls r) (Re.hi r) s).
  destruct (n <? Re.lo r) eqn:Hlo; [discriminate|].
  apply Nat.ltb_ge in Hlo.
  intros H.
  assert (exists i, Re.lo r <= i <= n /\ k (skipn i s) = Some a)
    as (i & Hi & Hk).
  { destruct (Re.greedy r).
    - destruct (try_down_sound _ _ _ _ _ H) as (i & Hi & Hk).
      exists i. split; [lia | exact Hk].
    - destruct (try_up_sound _ _ _ _ _ H) as (i & Hi & Hk).
      exists i. split; [lia | exact Hk]. }
  exists (firstn i s), (skipn i s).
  split; [symmetry; apply firstn_skipn|]. split; [|exact Hk].
  split.
  - apply (span_prefix _ _ (Re.hi r)). fold n. lia.
  - rewrite length_firstn.
    pose proof (span_le_length (Re.cls r) s (Re.hi r)). fold n in H0. lia.
Qed.

Lemma m_reps_sound b :
  forall s k a,
    Re.m_reps b s k = Some a ->
    exists w s', s = w ++ s' /\ lang b w /\ k s' = Some a.
Proof.
  induction b as [|r b IH]; intros s k a; simpl.
  - intros H. exists [], s. auto.
  - intros H. apply try_rep_sound in H.
    destruct H as (x & s1 & -> & Hx & H).
    apply IH in H. destruct H as (w & s' & -> & Hw & Hk).
    exists (x ++ w), s'. rewrite app_assoc. split; [reflexivity|].
    split; [|exact Hk]. exists x, w. auto.
Qed.

End Matching.

Lemma m_nodes_groups (p : Re.pattern) :
  forall s gs rest, Re.m_nodes p s = Some (gs, rest) -> groups_ok p gs.
Proof.
  induction p as [|nd p IH]; intros s gs rest; simpl.
  - intros [= <- _]. reflexivity.
  - destruct nd as [r|b|].
    + intros H. apply try_rep_sound in H.
      destruct H as (x & s' & _ & _ & H). eapply IH, H.
    + intros H. apply m_reps_sound in H.
      destruct H as (w & s' & -> & Hw & H).
      destruct (Re.m_nodes p s') as [[gs' rest']|] eqn:E; [|discriminate].
      injection H as <- <-.
      exists w, gs'. rewrite length_app, Nat.add_sub.
      rewrite firstn_app, firstn_all, Nat.sub_diag. simpl.
      rewrite app_nil_r. split; [reflexivity|]. split; [exact Hw|].
      eapply IH, E.
    + destruct (Re.at_end s); [|discriminate]. apply IH.
Qed.

Lemma search_groups (p : Re.pattern) (s : pystr) (gs : list pystr) :
  Re.search p s = Some gs -> groups_ok p gs.
Proof.
  unfold Re.search.
  induction s as [|c s IH]; simpl.
  - destruct (Re.m_nodes p []) as [[g r]|] eqn:E; [|discriminate].
    intros [= <-]. eapply m_nodes_groups, E.
  - destruct (Re.m_nodes p (c :: s)) as [[g r]|] eqn:E.
    + intros [= <-]. eapply m_nodes_groups, E.
    + exact IH.
Qed.


(** A text in the language of a body is made of characters of its
    classes. *)
Lemma lang_chars (P : char -> bool) (b : list Re.rep) :
  Forall (fun r => forall c, Re.cls r c = true -> P c = true) b ->
  forall w, lang b w -> forallb P w = true.
Proof.
  induction 1 as [|r b Hr _ IH]; intros w; simpl.
  - intros ->. reflexivity.
  - intros (x & y & -> & [Hx _] & Hy).
    rewrite forallb_app, (IH _ Hy), andb_true_r.
    rewrite forallb_forall in *. auto.
Qed.

(* ================================================================== *)
(** * Facts about strings and number parsing *)
(* ================================================================== *)

Lemma bind_Ok_inv {A B} (m : result A) (f : A -> result B) (b : B) :
  bind m f = Ok b -> exists a, m = Ok a /\ f a = Ok b.
Proof. destruct m as [a|e]; simpl; [eauto | discriminate]. Qed.

(** [bind_inv H as pat]: from [H : x <- m ;; k = Ok b], the value of [m] and
    what is left of [H]. *)
Tactic Notation "bind_inv" hyp(H) "as" simple_intropattern(pat) :=
  apply bind_Ok_inv in H; destruct H as pat.

Lemma startswith_nil (s : pystr) : startswith s [] = true.
Proof. destruct s; reflexivity. Qed.

(** Replacing one character by another is a map. *)
Lemma replace_char (c d : char) (s : pystr) :
  replace s [c] [d] = map (fun x => if (c =? x)%N then d else x) s.
Proof.
  unfold replace. induction s as [|x s IH]; simpl; [reflexivity|].
  rewrite startswith_nil, andb_true_r.
  destruct (c =? x)%N; simpl; f_equal; exact IH.
Qed.

Lemma forallb_rev {A} (P : A -> bool) (l : list A) :
  forallb P (rev l) = forallb P l.
Proof.
  induction l as [|x l IH]; simpl; [reflexivity|].
  rewrite forallb_app, IH. simpl. rewrite andb_true_r. apply andb_comm.
Qed.

Section Kept.
(** What the number parsers drop (blanks, underscores) takes no character
    out of a class [P] the whole string is in. *)
Variable P : char -> bool.

Lemma num_lstrip_all (s : pystr) :
  forallb P s = true -> forallb P (num_lstrip s) = true.
Proof.
  induction s as [|c s IH]; simpl; [reflexivity|].
  intros H. destruct (num_space c); [|exact H].
  apply andb_prop in H. tauto.
Qed.

Lemma num_strip_all (s : pystr) :
  forallb P s = true -> forallb P (num_strip s) = true.
Proof.
  intros H. unfold num_strip.
  rewrite forallb_rev. apply num_lstrip_all.
  rewrite forallb_rev. apply num_lstrip_all, H.
Qed.

Lemma drop_underscores_all (s : pystr) :
  forall prev s1,
    drop_underscores prev s = Some s1 ->
    forallb P s = true -> forallb P s1 = true.
Proof.
  induction s as [|c s IH]; intros prev s1; simpl.
  - destruct prev as [p|]; [destruct (p =? underscore)%N|];
      try discriminate; intros [= <-]; reflexivity.
  - intros H Hall. apply andb_prop in Hall. destruct Hall as [Hc Hs].
    destruct (c =? underscore)%N.
    + destruct prev as [p|]; [|discriminate].
      destruct (is_digit p); [|discriminate]. eapply IH; eauto.
    + destruct (_ && negb (is_digit c)); [discriminate|].
      destruct (drop_underscores (Some c) s) as [s2|] eqn:E;
        [|discriminate].
      injection H as <-. simpl. rewrite Hc. eapply IH; eauto.
Qed.
End Kept.

Lemma unsigned_char_not (c : char) :
  unsigned_char c = true ->
  forall x, In x [43; 45; 73; 78; 105; 110]%N -> c <> x.
Proof.
  intros H x Hx ->.
  simpl in Hx.
  repeat (destruct Hx as [<- | Hx]; [vm_compute in H; discriminate|]).
  exact Hx.
Qed.

Lemma split_sign_unsigned (s : pystr) :
  forallb unsigned_char s = true -> split_sign s = (false, s).
Proof.
  destruct s as [|c s]; simpl; [reflexivity|]. intros H.
  apply andb_prop in H. destruct H as [Hc _].
  pose proof (unsigned_char_not c Hc) as Hn.
  destruct (c =? minus)%N eqn:E1.
  { apply N.eqb_eq in E1. exfalso. apply (Hn 45%N); simpl; auto. }
  destruct (c =? plus_sign)%N eqn:E2.
  { apply N.eqb_eq in E2. exfalso. apply (Hn 43%N); simpl; auto. }
  reflexivity.
Qed.

Lemma fold_decimal_nonneg (ds : list N) :
  forall acc : Z,
    (0 <= acc)%Z ->
    (0 <= fold_left (fun a d => a * 10 + Z.of_N d) ds acc)%Z.
Proof.
  induction ds as [|d ds IH]; intros acc Hacc; simpl.
  - exact Hacc.
  - apply IH. lia.
Qed.

Lemma decimal_nonneg (ds : list N) : (0 <= decimal ds)%Z.
Proof. apply fold_decimal_nonneg. lia. Qed.

(** [int] of a string without a sign is not negative. *)
Lemma int_of_str_unsigned (s : pystr) (n : Z) :
  forallb unsigned_char s = true -> int_of_str s = Ok n -> (0 <= n)%Z.
Proof.
  intros Hs. unfold int_of_str.
  destruct (drop_underscores None (num_strip s)) as [s1|] eqn:E;
    [|discriminate].
  pose proof (drop_underscores_all unsigned_char _ _ _ E
                (num_strip_all unsigned_char _ Hs)) as H1.
  rewrite (split_sign_unsigned _ H1).
  destruct s1 as [|c s1]; [discriminate|].
  destruct (digit_values (c :: s1)) as [ds|]; [|discriminate].
  destruct (int_max_str_digits <? length ds); [discriminate|].
  intros [= <-]. apply decimal_nonneg.
Qed.

Lemma isdigit_unsigned (s : pystr) :
  isdigit s = true -> forallb unsigned_char s = true.
Proof.
  destruct s as [|c s]; [discriminate|]. unfold isdigit.
  intros H. rewrite forallb_forall in *. intros x Hx.
  unfold unsigned_char. rewrite (H x Hx). reflexivity.
Qed.

Lemma str_eqb_head (c : char) (s w : pystr) (x : char) :
  str_eqb (map ascii_lower (c :: s)) (x :: w) = true -> ascii_lower c = x.
Proof.
  simpl. intros H. apply andb_prop in H. destruct H as [H _].
  apply N.eqb_eq, H.
Qed.

Lemma ascii_lower_cases (c x : char) :
  ascii_lower c = x -> c = x \/ (c + 32)%N = x.
Proof.
  unfold ascii_lower. destruct (_ && _); auto.
Qed.

(** [float] of an unsigned decimal literal is not negative and not a NaN. *)
Lemma float_of_str_unsigned (s : pystr) (x : float) :
  forallb unsigned_char s = true -> float_of_str s = Ok x ->
  has_sign false x.
Proof.
  intros Hs. unfold float_of_str.
  destruct (drop_underscores None (num_strip s)) as [s1|] eqn:E;
    [|discriminate].
  pose proof (drop_underscores_all unsigned_char _ _ _ E
                (num_strip_all unsigned_char _ Hs)) as H1.
  rewrite (split_sign_unsigned _ H1).
  assert (Hword : forall w y, In y [105; 110]%N ->
            str_eqb (map ascii_lower s1) (y :: w) = false).
  { intros w y Hy. destruct (str_eqb _ _) eqn:Heq; [|reflexivity].
    exfalso. destruct s1 as [|c s1]; [discriminate|].
    apply str_eqb_head, ascii_lower_cases in Heq.
    simpl in H1. apply andb_prop in H1. destruct H1 as [Hc _].
    pose proof (unsigned_char_not c Hc) as Hn.
    assert (Hin : In c [43; 45; 73; 78; 105; 110]%N).
    { simpl in Hy |- *. destruct Hy as [<-|[<-|[]]]; destruct Heq as [->|Heq];
        try (assert (c = 73%N) as -> by lia);
        try (assert (c = 78%N) as -> by lia); auto 10. }
    exact (Hn c Hin eq_refl). }
  change (u "inf") with (105%N :: u "nf").
  change (u "infinity") with (105%N :: u "nfinity").
  change (u "nan") with (110%N :: u "an").
  rewrite !Hword by (simpl; auto). simpl orb. cbv iota.
  unfold float_of_decimal.
  destruct (take_digits s1) as [ip r1].
  destruct (match r1 with
            | [] => ([], [])
            | c :: r1' => if (c =? point)%N then take_digits r1' else ([], r1)
            end) as [fp r2].
  destruct (ip ++ fp); [discriminate|].
  destruct (exponent r2); [|discriminate].
  intros [= <-]. apply round_decimal_sign.
Qed.

(* ================================================================== *)
(** * Facts about the run *)
(* ================================================================== *)

Lemma bindM_Ok_inv {A B} (m : M A) (f : A -> M B) (t : list event) (b : B) :
  bindM m f = (t, Ok b) ->
  exists t1 a t2, m = (t1, Ok a) /\ f a = (t2, Ok b) /\ t = t1 ++ t2.
Proof.
  destruct m as [t1 [a|e]]; simpl; [|discriminate].
  destruct (f a) as [t2 r] eqn:E. intros [= <- ->].
  exists t1, a, t2. auto.
Qed.

Tactic Notation "bindM_inv" hyp(H) "as" simple_intropattern(pat) :=
  apply bindM_Ok_inv in H; destruct H as pat.

(** The loop, unfolded once. *)
Lemma pages_loop_eq site jk layouts_by_id page_num flats :
  pages_loop site jk layouts_by_id page_num flats =
  if Z_le_gt_dec page_num max_pages then
    match page_turn site jk layouts_by_id page_num flats with
    | (t, Raise e) => (t, Raise e)
    | (t, Ok (flats', false)) => (t, Ok flats')
    | (t, Ok (flats', true)) =>
      let (t', r) :=
        pages_loop site jk layouts_by_id (page_num + 1) flats' in
      (t ++ t', r)
    end
  else ret flats.
Proof.
  simp pages_loop.
  destruct (Z_le_gt_dec page_num max_pages); simpl; [|reflexivity].
  destruct (page_turn site jk layouts_by_id page_num flats)
    as [t [[flats' [|]]|e]]; reflexivity.
Qed.

(** Induction on the pages the loop has left. *)
Lemma pages_loop_ind (Q : Z -> Prop) :
  (forall page_num,
      ((page_num <= max_pages)%Z -> Q (page_num + 1)%Z) -> Q page_num) ->
  forall page_num, Q page_num.
Proof.
  intros Hstep page_num.
  remember (pages_left page_num) as n eqn:Hn.
  revert page_num Hn.
  induction n as [n IH] using lt_wf_ind. intros page_num ->.
  apply Hstep. intros Hle. eapply IH; [|reflexivity].
  unfold pages_left, max_pages in *. lia.
Qed.

(** ** The acceptance gate of a card *)

Lemma card_area_group (text : pystr) (m : list pystr) :
  Re.search re_card_area text = Some m ->
  forallb unsigned_char (replace (Re.group 1 m) (u ",") (u ".")) = true.
Proof.
  intros H. apply search_groups in H.
  destruct H as (g & gs & -> & Hg & _).
  change (Re.group 1 (g :: gs)) with g.
  change (u ",") with [44%N]. change (u ".") with [46%N].
  rewrite replace_char.
  apply (lang_chars (fun c => is_digit c || (44 =? c)%N || (46 =? c)%N)) in Hg.
  - rewrite forallb_forall in *. intros y Hy.
    apply in_map_iff in Hy. destruct Hy as (x & <- & Hx).
    specialize (Hg x Hx). unfold unsigned_char, plain_char, point.
    destruct (44 =? x)%N; [reflexivity|].
    rewrite (N.eqb_sym x 46).
    destruct (is_digit x), (46 =? x)%N, (char_isdigit x);
      try reflexivity; discriminate.
  - repeat constructor; cbn [Re.cls Re.plus Re.opt Re.star];
      unfold Re.digit, Re.oneof, Re.chr; cbn [existsb];
      change (Re.ch ",") with 44%N; change (Re.ch ".") with 46%N;
      intros c Hc;
      destruct (is_digit c), (44 =? c)%N, (46 =? c)%N;
      try reflexivity; discriminate.
Qed.

Lemma price_digits_nonneg (p : Re.pattern) (text price_str : pystr) (n : Z) :
  price_digits p text = Some price_str ->
  int_of_str price_str = Ok n -> (0 <= n)%Z.
Proof.
  unfold price_digits.
  destruct (Re.search p text) as [m|]; [|discriminate].
  destruct (isdigit _) eqn:E; [|discriminate].
  intros [= <-]. apply int_of_str_unsigned, isdigit_unsigned, E.
Qed.

Lemma _parse_price_nonneg (card : Card) (text : pystr) (n : Z) :
  _parse_price card text = Ok n -> (0 <= n)%Z.
Proof.
  unfold _parse_price.
  destruct (price_digits re_price_rub _) as [s|] eqn:E1.
  { eapply price_digits_nonneg, E1. }
  intros H. bind_inv H as ([el|] & _ & H).
  - bind_inv H as (t & _ & H).
    destruct (price_digits re_price_plain _) as [s|] eqn:E2.
    + eapply price_digits_nonneg; eauto.
    + injection H as <-. lia.
  - injection H as <-. lia.
Qed.

Lemma _parse_card_data_sign (card : Card) (text : pystr)
  (rooms floor floors_total price : Z) (area : float) :
  _parse_card_data card text = Ok (rooms, area, floor, floors_total, price) ->
  has_sign false area /\ (0 <= price)%Z.
Proof.
  unfold _parse_card_data. intros H.
  bind_inv H as (rooms' & _ & H).
  bind_inv H as (area' & Harea & H).
  bind_inv H as ([fl ft] & _ & H).
  bind_inv H as (price' & Hprice & H).
  injection H as -> -> -> -> ->. split.
  - destruct (Re.search re_card_area text) as [m|] eqn:E.
    + eapply float_of_str_unsigned; [|exact Harea].
      eapply card_area_group, E.
    + injection Harea as <-. reflexivity.
  - eapply _parse_price_nonneg, Hprice.
Qed.

Lemma gate_positive (area : float) (price : Z) :
  has_sign false area -> (0 <= price)%Z ->
  feqb area fzero || (price =? 0)%Z = false ->
  fltb fzero area = true /\ (0 < price)%Z.
Proof.
  intros Hs Hp H. apply orb_false_elim in H. destruct H as [Ha Hz].
  apply Z.eqb_neq in Hz. split; [|lia].
  destruct area as [s|s| |s m e]; simpl in Hs; try subst s;
    try reflexivity; try discriminate; tauto.
Qed.

(** What the body of [_parse_flat_card] returns, when it returns a flat. *)
Lemma parse_flat_card_body_Some card jk layouts_by_id valid_ids f :
  parse_flat_card_body card jk layouts_by_id valid_ids = Ok (Some f) ->
  exists url, _extract_flat_url_and_id card = Ok (url, Flat.id f)
              /\ Flat.url f = url /\ positive_flat f.
Proof.
  unfold parse_flat_card_body. intros H.
  bind_inv H as ([url flat_id] & Hid & H).
  destruct flat_id as [|c flat_id]; [discriminate|].
  destruct (match valid_ids with [] => false | _ :: _ => _ end);
    [discriminate|].
  bind_inv H as (title_text & _ & H).
  bind_inv H as ([[[[rooms area] floor] floors_total] price] & Hdata & H).
  destruct (feqb area fzero || (price =? 0)%Z) eqn:Hgate; [discriminate|].
  bind_inv H as ([[[address house_status] images] year_built] & _ & H).
  injection H as <-. simpl. exists url. split; [exact Hid|].
  split; [reflexivity|].
  apply _parse_card_data_sign in Hdata. destruct Hdata as [Hs Hp].
  apply gate_positive; assumption.
Qed.

Lemma _parse_flat_card_Some card jk layouts_by_id valid_ids f :
  _parse_flat_card card jk layouts_by_id valid_ids = Some f ->
  exists url, _extract_flat_url_and_id card = Ok (url, Flat.id f)
              /\ Flat.url f = url /\ positive_flat f.
Proof.
  unfold _parse_flat_card.
  destruct (parse_flat_card_body _ _ _ _) as [[g|]|e] eqn:E;
    try discriminate.
  intros [= ->]. eapply parse_flat_card_body_Some, E.
Qed.

(** The flat of a card carries what the merger returned for the layout
    candidate found under the card's identifier. *)
Lemma _parse_flat_card_merged card jk layouts_by_id valid_ids f :
  _parse_flat_card card jk layouts_by_id valid_ids = Some f ->
  exists text,
    _merge_with_layout card text (dict_get (Flat.id f) layouts_by_id) jk
    = Ok (Flat.address f, Flat.house_status f, Flat.images f,
          Flat.year_built f).
Proof.
  unfold _parse_flat_card.
  destruct (parse_flat_card_body _ _ _ _) as [[g|]|e] eqn:E;
    try discriminate.
  intros [= ->]. revert E. unfold parse_flat_card_body. intros H.
  bind_inv H as ([url flat_id] & Hid & H).
  destruct flat_id as [|c flat_id]; [discriminate|].
  destruct (match valid_ids with [] => false | _ :: _ => _ end);
    [discriminate|].
  bind_inv H as (title_text & _ & H).
  bind_inv H as ([[[[rooms area] floor] floors_total] price] & _ & H).
  destruct (feqb area fzero || (price =? 0)%Z); [discriminate|].
  bind_inv H as ([[[address house_status] images] year_built] & Hm & H).
  injection H as <-. exists title_text. exact Hm.
Qed.

(** ** The layouts by identifier *)

Lemma str_eqb_eq (a b : pystr) : str_eqb a b = true <-> a = b.
Proof.
  revert b. induction a as [|x a IH]; intros [|y b]; simpl;
    try (split; [discriminate | discriminate]); [tauto|].
  rewrite andb_true_iff, N.eqb_eq, IH. split.
  - intros [-> ->]. reflexivity.
  - intros [= -> ->]. auto.
Qed.

Lemma dict_set_keyed flats d f :
  keyed_by_id flats d -> In f flats ->
  keyed_by_id flats (dict_set (Flat.id f) f d).
Proof.
  intros Hd Hf. induction d as [|[k' v'] d IH]; simpl.
  - intros k v [[= <- <-]|[]]. auto.
  - assert (Hd' : keyed_by_id flats d).
    { intros k v Hin. apply Hd. right. exact Hin. }
    destruct (str_eqb (Flat.id f) k').
    + intros k v [[= <- <-]|Hin]; [auto | apply Hd'; exact Hin].
    + intros k v [[= <- <-]|Hin].
      * apply Hd. left. reflexivity.
      * apply (IH Hd'). exact Hin.
Qed.

Lemma index_by_id_keyed flats : keyed_by_id flats (index_by_id flats).
Proof.
  unfold index_by_id.
  assert (H : forall l d,
             incl l flats -> keyed_by_id flats d ->
             keyed_by_id flats
               (fold_left (fun d f => dict_set (Flat.id f) f d) l d)).
  { induction l as [|f l IH]; intros d Hl Hd; simpl; [exact Hd|].
    apply IH.
    - intros x Hx. apply Hl. right. exact Hx.
    - apply dict_set_keyed; [exact Hd|]. apply Hl. left. reflexivity. }
  apply H; [apply incl_refl|]. intros k v [].
Qed.

Lemma dict_get_In {V} (k : pystr) (d : dict V) (v : V) :
  dict_get k d = Some v -> In (k, v) d.
Proof.
  induction d as [|[k' v'] d IH]; simpl; [discriminate|].
  destruct (str_eqb k k') eqn:E.
  - intros [= ->]. apply str_eqb_eq in E. subst k'. left. reflexivity.
  - intros H. right. apply IH, H.
Qed.

(** ** Pages *)

Lemma parsed_pages_app (t1 t2 : list event) :
  parsed_pages (t1 ++ t2) = parsed_pages t1 ++ parsed_pages t2.
Proof. apply flat_map_app. Qed.

Lemma flats_of_cards_Forall (P : Flat.t -> Prop) cards jk layouts_by_id
  valid_ids :
  (forall card f,
      _parse_flat_card card jk layouts_by_id valid_ids = Some f -> P f) ->
  Forall P (flats_of_cards cards jk layouts_by_id valid_ids).
Proof.
  intros HP. unfold flats_of_cards.
  induction cards as [|card cards IH]; simpl; [constructor|].
  apply Forall_app. split; [|exact IH].
  destruct (_parse_flat_card card jk layouts_by_id valid_ids) eqn:E;
    repeat constructor. eapply HP, E.
Qed.

Lemma _parse_flats_page_Ok page jk layouts_by_id fl :
  _parse_flats_page page jk layouts_by_id = Ok fl ->
  exists valid_ids,
    fl = flats_of_cards (cards_of page) jk layouts_by_id valid_ids.
Proof.
  unfold _parse_flats_page, cards_of. intros H.
  bind_inv H as (html & _ & H).
  bind_inv H as (cards & -> & H).
  bind_inv H as (cards' & Hc & H).
  injection H as <-. eexists.
  destruct cards as [|c cs].
  - rewrite Hc. reflexivity.
  - injection Hc as <-. reflexivity.
Qed.

(** One turn: its events start with the page it parses, and a turn that
    ends well has added the flats of that page. *)
Lemma page_turn_Ok site jk layouts_by_id page_num flats t flats' go :
  page_turn site jk layouts_by_id page_num flats = (t, Ok (flats', go)) ->
  exists page_flats,
    _parse_flats_page (page_at site page_num) jk layouts_by_id = Ok page_flats
    /\ flats' = flats ++ page_flats
    /\ parsed_pages t = [page_num].
Proof.
  unfold page_turn. fold (page_at site page_num). intros H.
  bindM_inv H as (t1 & [] & t2 & H1 & H & ->).
  injection H1 as <-.
  bindM_inv H as (t3 & pf & t4 & H3 & H & ->).
  unfold lift in H3. injection H3 as <- Hpf.
  bindM_inv H as (t5 & nb & t6 & H5 & H & ->).
  unfold lift in H5. injection H5 as <- _.
  exists pf. split; [exact Hpf|].
  destruct nb as [btn|].
  - bindM_inv H as (t7 & vis & t8 & H7 & H & ->).
    unfold lift in H7. injection H7 as <- _.
    destruct vis; simpl in H.
    + destruct (click btn) as [[]|]; simpl in H; [|discriminate].
      destruct (settled btn) as [[]|]; simpl in H; [|discriminate].
      injection H as <- <- <-. auto.
    + injection H as <- <- <-. auto.
  - injection H as <- <- <-. auto.
Qed.

(** A turn that raises has parsed its page too. *)
Lemma page_turn_parsed site jk layouts_by_id page_num flats :
  parsed_pages (fst (page_turn site jk layouts_by_id page_num flats))
  = [page_num].
Proof.
  unfold page_turn. fold (page_at site page_num). simpl.
  destruct (_parse_flats_page _ _ _) as [pf|]; simpl; [|reflexivity].
  destruct (q_next_btn _) as [[btn|]|]; simpl; try reflexivity.
  destruct (is_visible btn) as [[|]|]; simpl; try reflexivity.
  destruct (click btn) as [[]|]; simpl; try reflexivity.
  destruct (settled btn) as [[]|]; simpl; reflexivity.
Qed.

(** The flats the loop returns: those it started with, then those of the
    pages it parsed, page by page. *)
Lemma pages_loop_Ok site jk layouts_by_id :
  forall page_num flats t out,
    pages_loop site jk layouts_by_id page_num flats = (t, Ok out) ->
    exists pfs,
      out = flats ++ concat pfs
      /\ Forall2 (fun n pf =>
                    _parse_flats_page (page_at site n) jk layouts_by_id
                    = Ok pf)
                 (parsed_pages t) pfs.
Proof.
  intros page_num. pattern page_num. apply pages_loop_ind.
  clear page_num. intros page_num IH flats t out.
  rewrite pages_loop_eq.
  destruct (Z_le_gt_dec page_num max_pages) as [Hle|Hgt].
  - destruct (page_turn site jk layouts_by_id page_num flats)
      as [t1 [[flats' go]|e]] eqn:Hturn; [|discriminate].
    apply page_turn_Ok in Hturn.
    destruct Hturn as (pf & Hpf & -> & Hp).
    destruct go.
    + destruct (pages_loop site jk layouts_by_id (page_num + 1)
                  (flats ++ pf)) as [t2 r] eqn:Hrec.
      intros [= <- ->].
      destruct (IH Hle _ _ _ Hrec) as (pfs & -> & Hall).
      exists (pf :: pfs). simpl. rewrite app_assoc. split; [reflexivity|].
      rewrite parsed_pages_app, Hp. simpl. constructor; assumption.
    + intros [= <- <-]. exists [pf]. simpl. rewrite app_nil_r.
      split; [reflexivity|]. rewrite Hp. repeat constructor. exact Hpf.
  - intros [= <- <-]. exists []. simpl. rewrite app_nil_r.
    split; [reflexivity | constructor].
Qed.

(** ** Enrichment *)

Lemma _enrich_flat_details_fixed site i jk flat :
  fixed_fields (fst (_enrich_flat_details site i jk flat))
  = fixed_fields flat.
Proof.
  unfold _enrich_flat_details, bindS, liftS, modify, retS.
  destruct (detail_goto _) as [[]|]; [|reflexivity].
  destruct (detail_settled _) as [[]|]; [|reflexivity].
  destruct (detail_content _) as [html|]; [|reflexivity].
  destruct (detail_building html) as [[|c b]|];
    destruct (detail_photos html); reflexivity.
Qed.

Lemma enrich_all_eq site jk flats :
  forall i,
    enrich_all site jk i flats
    = (map (fun f => EvDetail (Flat.url f)) flats,
       Ok (enriched site jk i flats)).
Proof.
  induction flats as [|flat rest IH]; intros i; simpl; [reflexivity|].
  destruct (_enrich_flat_details site i jk flat) as [flat' r].
  rewrite IH. simpl. rewrite app_nil_r. reflexivity.
Qed.

Lemma enriched_fixed site jk flats :
  forall i, map fixed_fields (enriched site jk i flats)
            = map fixed_fields flats.
Proof.
  induction flats as [|flat rest IH]; intros i; simpl; [reflexivity|].
  rewrite _enrich_flat_details_fixed, IH. reflexivity.
Qed.

(** ** The whole of [_parse_flats] *)

(** A run that ends well either fell back on the layouts or went through
    the pages and the enrichment. *)
Lemma _parse_flats_Ok site jk jk_html t out :
  _parse_flats site jk jk_html = (t, Ok out) ->
  exists layouts_flats html,
    _extract_flats_from_layouts jk_html jk = Ok layouts_flats
    /\ listing_opens site html
    /\ ((contains html no_offers = true /\ out = layouts_flats
         /\ t = [EvOpenListing])
        \/ (contains html no_offers = false
            /\ exists t1 flats,
                pages_loop site jk (index_by_id layouts_flats) 1 []
                = (t1, Ok flats)
                /\ out = enriched site jk 0 flats
                /\ parsed_pages t = parsed_pages t1)).
Proof.
  unfold _parse_flats. intros H.
  destruct (_extract_flats_from_layouts jk_html jk) as [lf|]; [|discriminate].
  simpl in H.
  destruct (listing_goto site) as [[]|] eqn:Hg; [|discriminate].
  destruct (listing_settled site) as [[]|] eqn:Hs; [|discriminate].
  destruct (content (listing site 0)) as [html|] eqn:Hc; [|discriminate].
  simpl in H. exists lf, html. split; [reflexivity|].
  split; [repeat split; assumption|].
  destruct (contains html no_offers) eqn:Hno.
  - left. injection H as <- <-. auto.
  - right. split; [reflexivity|].
    destruct (pages_loop site jk (index_by_id lf) 1 []) as [t1 [flats|e]]
      eqn:Hloop; simpl in H; [|discriminate].
    rewrite enrich_all_eq in H. injection H as <- <-.
    exists t1, flats. split; [reflexivity|]. split; [reflexivity|].
    change (EvOpenListing :: ?x) with ([EvOpenListing] ++ x).
    simpl. rewrite parsed_pages_app.
    replace (parsed_pages (map (fun f => EvDetail (Flat.url f)) flats))
      with (@nil Z); [rewrite app_nil_r; reflexivity|].
    clear. induction flats as [|f fs IH]; simpl; [reflexivity | exact IH].
Qed.

(** ** The pagination loop *)

Lemma page_loads_parses page jk layouts_by_id :
  page_loads page ->
  exists pf, _parse_flats_page page jk layouts_by_id = Ok pf.
Proof.
  intros [[html Hh] (cards & Hc & Hcs)]. unfold _parse_flats_page.
  rewrite Hh, Hc. simpl. destruct cards as [|c cards].
  - destruct (Hcs eq_refl) as [cs ->]. simpl. eauto.
  - simpl. eauto.
Qed.

Lemma page_turn_active site jk layouts_by_id page_num flats :
  page_loads (page_at site page_num) ->
  next_active (page_at site page_num) ->
  exists flats',
    page_turn site jk layouts_by_id page_num flats
    = ([EvParsePage page_num; EvClickNext page_num], Ok (flats', true)).
Proof.
  intros Hl (btn & Hq & Hv & Hc & Hs).
  destruct (page_loads_parses _ jk layouts_by_id Hl) as [pf Hpf].
  unfold page_turn. fold (page_at site page_num).
  rewrite Hpf, Hq. simpl. rewrite Hv. simpl. rewrite Hc, Hs. simpl. eauto.
Qed.

Lemma page_turn_absent site jk layouts_by_id page_num flats :
  page_loads (page_at site page_num) ->
  next_absent (page_at site page_num) ->
  exists flats',
    page_turn site jk layouts_by_id page_num flats
    = ([EvParsePage page_num], Ok (flats', false)).
Proof.
  intros Hl Ha.
  destruct (page_loads_parses _ jk layouts_by_id Hl) as [pf Hpf].
  unfold page_turn. fold (page_at site page_num).
  rewrite Hpf. destruct Ha as [Hq | (btn & Hq & Hv)]; rewrite Hq; simpl.
  - eauto.
  - rewrite Hv. simpl. eauto.
Qed.

(** Whatever the pages do, the loop parses consecutive pages and stops at
    [max_pages]. *)
Lemma pages_loop_cap site jk layouts_by_id :
  forall page_num flats,
    exists len,
      parsed_pages (fst (pages_loop site jk layouts_by_id page_num flats))
      = page_range page_num len
      /\ (Z.of_nat len <= Z.max 0 (max_pages + 1 - page_num))%Z.
Proof.
  assert (Hmax : max_pages = 50%Z) by reflexivity.
  intros page_num. pattern page_num. apply pages_loop_ind.
  clear page_num. intros page_num IH flats.
  rewrite pages_loop_eq.
  destruct (Z_le_gt_dec page_num max_pages) as [Hle|Hgt].
  - pose proof (page_turn_parsed site jk layouts_by_id page_num flats) as Hp.
    destruct (page_turn site jk layouts_by_id page_num flats)
      as [t1 [[flats' [|]]|e]]; simpl in Hp.
    + destruct (IH Hle flats') as (len & Hlen & Hb).
      destruct (pages_loop site jk layouts_by_id (page_num + 1) flats')
        as [t2 r]. cbn [fst] in *.
      exists (S len). rewrite parsed_pages_app, Hp, Hlen.
      split; [reflexivity | lia].
    + exists 1. cbn [fst]. rewrite Hp. split; [reflexivity | lia].
    + exists 1. cbn [fst]. rewrite Hp. split; [reflexivity | lia].
  - exists 0. split; [reflexivity | lia].
Qed.

(** The loop stops at the first page without an active control. *)
Lemma pages_loop_stops site jk layouts_by_id :
  forall page_num flats (len : nat),
    let last := (page_num + Z.of_nat len)%Z in
    (last <= max_pages)%Z ->
    (forall j, (page_num <= j < last)%Z ->
               page_loads (page_at site j) /\ next_active (page_at site j)) ->
    page_loads (page_at site last) -> next_absent (page_at site last) ->
    parsed_pages (fst (pages_loop site jk layouts_by_id page_num flats))
    = page_range page_num (S len).
Proof.
  assert (Hmax : max_pages = 50%Z) by reflexivity.
  intros page_num flats len. revert page_num flats.
  induction len as [|len IH]; intros page_num flats last Hle Hact Hl Ha;
    rewrite pages_loop_eq;
    (destruct (Z_le_gt_dec page_num max_pages) as [_|Hgt]; [|lia]).
  - assert (Hlast : last = page_num) by (unfold last; lia).
    rewrite Hlast in *.
    destruct (page_turn_absent site jk layouts_by_id _ flats Hl Ha) as [fl ->].
    reflexivity.
  - destruct (Hact page_num ltac:(lia)) as [Hl0 Ha0].
    destruct (page_turn_active site jk layouts_by_id _ flats Hl0 Ha0) as [fl ->].
    specialize (IH (page_num + 1)%Z fl).
    destruct (pages_loop site jk layouts_by_id (page_num + 1) fl) as [t2 r].
    cbn [fst parsed_pages flat_map app page_range] in *. f_equal.
    assert (Hlast : (page_num + 1 + Z.of_nat len)%Z = last)
      by (unfold last; lia).
    rewrite Hlast in IH.
    apply IH; try assumption; try (unfold last in *; lia).
    intros j Hj. apply Hact. unfold last in *. lia.
Qed.

(** With an active control on every page, the loop stops after
    [max_pages]. *)
Lemma pages_loop_all site jk layouts_by_id :
  forall (len : nat) page_num flats,
    (page_num + Z.of_nat len = max_pages + 1)%Z ->
    (forall j, (page_num <= j <= max_pages)%Z ->
               page_loads (page_at site j) /\ next_active (page_at site j)) ->
    parsed_pages (fst (pages_loop site jk layouts_by_id page_num flats))
    = page_range page_num len.
Proof.
  assert (Hmax : max_pages = 50%Z) by reflexivity.
  induction len as [|len IH]; intros page_num flats Hlen Hact;
    rewrite pages_loop_eq.
  - destruct (Z_le_gt_dec page_num max_pages) as [Hle|_]; [lia|].
    reflexivity.
  - destruct (Z_le_gt_dec page_num max_pages) as [_|Hgt]; [|lia].
    destruct (Hact page_num ltac:(lia)) as [Hl0 Ha0].
    destruct (page_turn_active site jk layouts_by_id _ flats Hl0 Ha0) as [fl ->].
    specialize (IH (page_num + 1)%Z fl).
    destruct (pages_loop site jk layouts_by_id (page_num + 1) fl) as [t2 r].
    cbn [fst parsed_pages flat_map app page_range] in *. f_equal.
    apply IH; [lia|].
    intros j Hj. apply Hact. lia.
Qed.

(* ================================================================== *)
(** * The parser on examples *)
(* ================================================================== *)

Example parse_rooms_studio : parse_rooms (u "Студия, 25 м²") = Ok 0%Z.
Proof. vm_compute. reflexivity. Qed.

Example parse_rooms_three : parse_rooms (u "3-комн.") = Ok 3%Z.
Proof. vm_compute. reflexivity. Qed.

Example parse_rooms_none : parse_rooms [] = Ok 0%Z.
Proof. vm_compute. reflexivity. Qed.

Example parse_area_comma :
  parse_area (u "45,6 м²") = Ok Example.area_45_6.
Proof. vm_compute. reflexivity. Qed.

Example parse_area_none : parse_area (u "no number") = Ok fzero.
Proof. vm_compute. reflexivity. Qed.

(** A lone comma is a match of the pattern and not a number. *)
Example parse_area_raises : parse_area (u "a, b") = Raise ValueError.
Proof. vm_compute. reflexivity. Qed.

Example decode_url_slashes :
  decode_url (u "https:\u002F\u002Fimg\u002F1.jpg") = u "https://img/1.jpg".
Proof. vm_compute. reflexivity. Qed.

Example normalize_status_completed :
  normalize_status (Some (u "Дом сдан в 2023")) = Some (u "Сдан").
Proof. vm_compute. reflexivity. Qed.

Example normalize_status_building :
  normalize_status (Some (u "строится")) = Some (u "Строится").
Proof. vm_compute. reflexivity. Qed.

Example normalize_status_other :
  normalize_status (Some (u "Проект")) = Some (u "Проект")
  /\ normalize_status None = None.
Proof. split; vm_compute; reflexivity. Qed.

(** Only the identifiers whose parent is the development are kept. *)
Example valid_flat_ids_of_parent :
  _extract_valid_flat_ids
    (q "{`cianId`:1,`parentId`:100},{`cianId`:2,`parentId`:200},"
     ++ q "{`cianId`:3,`x`:0,`parentId`:100}")
    (u "100")
  = [u "1"; u "3"].
Proof. vm_compute. reflexivity. Qed.

(** A card of another development is dropped when the page names the flats
    of this one. *)
Example foreign_card_is_dropped :
  _parse_flat_card (Example.card "8") Example.jk [] [u "7"] = None
  /\ exists f,
      _parse_flat_card (Example.card "7") Example.jk [] [u "7"] = Some f.
Proof. split; [|eexists]; vm_compute; reflexivity. Qed.

(** A price on a line of its own is not read from the text of the card: the
    match takes the line break with it, and what is left is not made of
    digits; the price element is read instead (here there is none). *)
Example price_after_line_break :
  _parse_price (mkCard (Ok None) (Ok None) (Ok None) (Ok []) (Ok None)
                       (Ok None))
               (u "3/9 этаж" ++ [10%N] ++ u "5 000 000 ₽")
  = Ok 0%Z
  /\ _parse_price (mkCard (Ok None) (Ok None) (Ok None) (Ok []) (Ok None)
                          (Ok None))
                  (u "3/9 этаж, 5 000 000 ₽")
     = Ok 5000000%Z.
Proof. split; vm_compute; reflexivity. Qed.

(** One listing page with the card of flat 7, whose layout is in the landing
    document: one record, with the address of the layout. *)
Example run_on_one_page :
  _parse_flats Example.site_one Example.jk Example.landing
  = ([EvOpenListing; EvParsePage 1; EvDetail (Flat.url Example.flat7)],
     Ok [Example.flat7])
  /\ Flat.price_per_m2 Example.flat7 = Ok 109649%Z.
Proof. split; vm_compute; reflexivity. Qed.

(* ================================================================== *)
(** * The properties of the parser *)
(* ================================================================== *)

(** ** The derived price per square metre *)

(** C5 (as the code has it).  For every [Flat] with price [p > 0] and
    area [a > 0], [price_per_m2] is the floor of the float quotient
    [p / a] that Python computes, the price converted to a float and the
    division rounded (where that quotient is not a finite number, both
    sides raise the same exception); for every [Flat] with area 0,
    [price_per_m2] is 0; the field is a function of the price and the area
    alone. *)
Theorem price_per_m2_is_floor (f : Flat.t) :
  ((0 < Flat.price f)%Z -> fltb fzero (Flat.area f) = true ->
   Flat.price_per_m2 f
   = (x <- truediv_int_float (Flat.price f) (Flat.area f) ;; floor_float x))
  /\ (forall m e,
        (0 < Flat.price f)%Z -> fltb fzero (Flat.area f) = true ->
        truediv_int_float (Flat.price f) (Flat.area f)
        = Ok (S754_finite false m e) ->
        Flat.price_per_m2 f
        = Ok (Z.pos m * 2 ^ Z.max e 0 / 2 ^ Z.max (- e) 0)%Z)
  /\ (feqb (Flat.area f) fzero = true -> Flat.price_per_m2 f = Ok 0%Z)
  /\ (forall g, Flat.price g = Flat.price f -> Flat.area g = Flat.area f ->
                Flat.price_per_m2 g = Flat.price_per_m2 f).
Proof.
  assert (H1 : (0 < Flat.price f)%Z -> fltb fzero (Flat.area f) = true ->
               Flat.price_per_m2 f
               = (x <- truediv_int_float (Flat.price f) (Flat.area f) ;;
                  floor_float x)).
  { intros Hp Ha. unfold Flat.price_per_m2. rewrite Ha.
    unfold truediv_int_float.
    destruct (float_of_int (Flat.price f)) as [fp|e] eqn:Hfp; [|reflexivity].
    apply float_of_int_sign in Hfp; [|lia]. destruct Hfp as [Hs Hfin].
    simpl. apply fltb_zero_inv in Ha.
    destruct Ha as [-> | (m & e & ->)]; simpl.
    - destruct fp as [s|s| |s mp ep]; simpl in Hs; try tauto; reflexivity.
    - apply int_of_float_floor. left.
      destruct fp as [s|s| |s mp ep]; simpl in Hs; try tauto; subst s.
      + reflexivity.
      + reflexivity.
      + apply (SFdiv_finite_sign false false). }
  split; [exact H1|]. split; [|split].
  - intros m e Hp Ha Hq. rewrite (H1 Hp Ha), Hq. reflexivity.
  - intros Hz. unfold Flat.price_per_m2.
    destruct (Flat.area f) as [s|s| |s m e]; try discriminate;
      try (destruct s; discriminate). reflexivity.
  - intros g Hp Ha. unfold Flat.price_per_m2. rewrite Hp, Ha. reflexivity.
Qed.

Lemma price_per_m2_is_floor_witness :
  (0 < Flat.price Example.flat7)%Z
  /\ fltb fzero (Flat.area Example.flat7) = true
  /\ Flat.price_per_m2 Example.flat7 = Ok 109649%Z.
Proof.
  split; [reflexivity|]. split; [reflexivity|].
  pose proof (proj1 (price_per_m2_is_floor Example.flat7)) as H.
  rewrite H; vm_compute; reflexivity.
Defined.

(** [floor_of_quotient] is the floor of the exact quotient: for
    [a = m * 2 ^ e], [n * a <= p < (n + 1) * a]. *)
Lemma floor_of_quotient_exact (p : Z) (m : positive) (e n : Z) :
  floor_of_quotient p (S754_finite false m e) = Some n ->
  (n * (Z.pos m * 2 ^ Z.max e 0) <= p * 2 ^ Z.max (- e) 0
   < (n + 1) * (Z.pos m * 2 ^ Z.max e 0))%Z.
Proof.
  assert (Hdiv : forall a d : Z, (0 < d)%Z ->
                   (a / d * d <= a < (a / d + 1) * d)%Z).
  { intros a d Hd. pose proof (Z.mul_div_le a d Hd).
    pose proof (Z.mul_succ_div_gt a d Hd). lia. }
  assert (Hn : forall a : Z, Some a = Some n -> a = n)
    by (intros a Ha; congruence).
  unfold floor_of_quotient. intros H. apply Hn in H. subst n. clear Hn.
  destruct e as [|k|k].
  - change (Z.max 0 0) with 0%Z. change (Z.max (- 0) 0) with 0%Z.
    rewrite !Z.pow_0_r, !Z.mul_1_r. apply Hdiv. lia.
  - replace (Z.max (Z.pos k) 0) with (Z.pos k) by lia.
    replace (Z.max (- Z.pos k) 0) with 0%Z by lia.
    rewrite Z.pow_0_r, Z.mul_1_r. apply Hdiv.
    apply Z.mul_pos_pos; [lia | apply Z.pow_pos_nonneg; lia].
  - replace (Z.max (Z.neg k) 0) with 0%Z by lia.
    replace (Z.max (- Z.neg k) 0) with (Z.pos k) by lia.
    rewrite Z.pow_0_r, Z.mul_1_r. apply Hdiv. lia.
Qed.

(** C5, as stated, fails: [price_per_m2] is the floor of the float
    quotient, not of the quotient.  At 4 560 000 for 45.6 m² the quotient
    is just below 100 000 (the float 45.6 is above 45.6) and rounds to
    100 000.0; the price 2 ^ 53 + 1 is rounded to 2 ^ 53 before the
    division; a price beyond the floats raises. *)
Lemma price_per_m2_is_not_the_exact_floor :
  ((0 < Flat.price flat_100000)%Z
   /\ fltb fzero (Flat.area flat_100000) = true
   /\ Flat.price_per_m2 flat_100000 = Ok 100000%Z
   /\ floor_of_quotient (Flat.price flat_100000) (Flat.area flat_100000)
      = Some 99999%Z)
  /\ ((0 < Flat.price flat_2_53)%Z
      /\ fltb fzero (Flat.area flat_2_53) = true
      /\ Flat.price_per_m2 flat_2_53 = Ok 9007199254740992%Z
      /\ floor_of_quotient (Flat.price flat_2_53) (Flat.area flat_2_53)
         = Some 9007199254740993%Z)
  /\ ((0 < Flat.price flat_10_400)%Z
      /\ fltb fzero (Flat.area flat_10_400) = true
      /\ Flat.price_per_m2 flat_10_400 = Raise OverflowError
      /\ floor_of_quotient (Flat.price flat_10_400) (Flat.area flat_10_400)
         = Some (10 ^ 400)%Z)
  /\ ~ (forall f : Flat.t,
          (0 < Flat.price f)%Z -> fltb fzero (Flat.area f) = true ->
          exists n,
            floor_of_quotient (Flat.price f) (Flat.area f) = Some n
            /\ Flat.price_per_m2 f = Ok n).
Proof.
  split; [|split; [|split]];
    try (repeat split; vm_compute; reflexivity).
  intros H.
  destruct (H flat_100000 eq_refl eq_refl) as (n & Hn & Hp).
  vm_compute in Hn, Hp. congruence.
Qed.

(** ** The building code *)

Lemma after_first_None (sep : char) (s : pystr) :
  after_first sep s = None <-> char_in sep s = false.
Proof.
  unfold char_in. induction s as [|c s IH]; simpl; [tauto|].
  rewrite (N.eqb_sym c sep). destruct (sep =? c)%N; simpl.
  - split; discriminate.
  - exact IH.
Qed.

(** C10.  [parse_building_from_house_name] never returns an empty string:
    it returns [None] exactly when the input is empty, has no comma, or
    nothing is left after the comma once the trailing parenthetical group
    and the blanks are removed (as for ["Шекспира, (510к2)"]); otherwise a
    non-empty building code. *)
Theorem building_code_is_never_empty :
  (forall house_name,
      parse_building_from_house_name house_name <> Some [])
  /\ (forall house_name,
        parse_building_from_house_name house_name = None <->
        house_name = []
        \/ char_in (Re.ch ",") house_name = false
        \/ exists rest,
            after_first (Re.ch ",") house_name = Some rest
            /\ strip (Re.sub_empty re_trailing_parens (strip rest)) = [])
  /\ parse_building_from_house_name (u "Шекспира, (510к2)") = None
  /\ parse_building_from_house_name (u "Шекспира, 1к1 (510к2)")
     = Some (u "1к1").
Proof.
  split; [|split; [|split; vm_compute; reflexivity]].
  - intros h. unfold parse_building_from_house_name.
    destruct h as [|c h]; [discriminate|].
    destruct (after_first _ _) as [rest|]; [|discriminate].
    destruct (strip (Re.sub_empty _ _)); discriminate.
  - intros h. unfold parse_building_from_house_name.
    destruct h as [|c h]; [tauto|].
    destruct (after_first (Re.ch ",") (c :: h)) as [rest|] eqn:E.
    + split.
      * intros H. right. right. exists rest. split; [reflexivity|].
        destruct (strip (Re.sub_empty _ _)); [reflexivity | discriminate].
      * intros [H | [H | (rest' & [= <-] & H)]].
        -- discriminate.
        -- apply after_first_None in H. congruence.
        -- rewrite H. reflexivity.
    + split; [|reflexivity]. intros _. right. left.
      apply after_first_None, E.
Qed.

(** ** The safe coercions *)

Lemma float_of_str_raises (s : pystr) (e : exn) :
  float_of_str s = Raise e -> e = ValueError.
Proof.
  unfold float_of_str, float_of_decimal.
  destruct (drop_underscores None (num_strip s)) as [s1|];
    [|intros [= <-]; reflexivity].
  destruct (split_sign s1) as [neg body].
  destruct (_ || _); [discriminate|].
  destruct (str_eqb _ _); [discriminate|].
  destruct (take_digits body) as [ip r1].
  destruct (match r1 with [] => _ | _ :: _ => _ end) as [fp r2].
  destruct (ip ++ fp); [intros [= <-]; reflexivity|].
  destruct (exponent r2); [discriminate | intros [= <-]; reflexivity].
Qed.

(** A comma is not part of a number: not of its digits, its sign, its
    point or its exponent, and not of the blanks around it. *)
Definition comma : char := 44%N.












(** ** Records made from cards *)

Lemma fixed_fields_inv (f g : Flat.t) :
  fixed_fields f = fixed_fields g ->
  Flat.id f = Flat.id g /\ Flat.area f = Flat.area g
  /\ Flat.price f = Flat.price g.
Proof. unfold fixed_fields. intros [= -> _ _ -> _ _ -> _ _]. auto. Qed.

Lemma enriched_Forall (P : Flat.t -> Prop) site jk flats :
  (forall f g, fixed_fields f = fixed_fields g -> P g -> P f) ->
  forall i, Forall P flats -> Forall P (enriched site jk i flats).
Proof.
  intros HP. induction flats as [|flat rest IH]; intros i H; simpl.
  - constructor.
  - inversion H as [|? ? Hf Hr]; subst. constructor; [|apply IH, Hr].
    eapply HP; [apply _enrich_flat_details_fixed | exact Hf].
Qed.

Lemma enriched_ids site jk flats :
  forall i, map Flat.id (enriched site jk i flats) = map Flat.id flats.
Proof.
  induction flats as [|flat rest IH]; intros i; simpl; [reflexivity|].
  rewrite IH. f_equal.
  apply (fixed_fields_inv _ _ (_enrich_flat_details_fixed site i jk flat)).
Qed.

Lemma page_flats_positive page jk layouts_by_id pf :
  _parse_flats_page page jk layouts_by_id = Ok pf ->
  Forall positive_flat pf.
Proof.
  intros H. apply _parse_flats_page_Ok in H. destruct H as [valid_ids ->].
  apply flats_of_cards_Forall. intros card f Hf.
  apply _parse_flat_card_Some in Hf. destruct Hf as (url & _ & _ & Hp).
  exact Hp.
Qed.

Lemma concat_Forall {A B} (P : B -> Prop) (R : A -> list B -> Prop)
  (xs : list A) (ls : list (list B)) :
  (forall x l, R x l -> Forall P l) ->
  Forall2 R xs ls -> Forall P (concat ls).
Proof.
  intros HR. induction 1 as [|x l xs ls Hx _ IH]; simpl; [constructor|].
  apply Forall_app. split; [eapply HR, Hx | exact IH].
Qed.

(** C1 (as the code has it).  Every record made from a listing card has
    area > 0 and price > 0: a card whose area or price resolves to 0 is
    rejected, whatever its other fields, and on the card path every record
    of the final output is such a record.  The layout extractor has no
    such gate: on the fallback path the output is its list of candidates
    as it is. *)
Theorem card_records_are_positive :
  (forall card jk layouts_by_id valid_ids f,
      _parse_flat_card card jk layouts_by_id valid_ids = Some f ->
      positive_flat f)
  /\ (forall site jk jk_html t out html,
        _parse_flats site jk jk_html = (t, Ok out) ->
        content (listing site 0) = Ok html ->
        contains html no_offers = false ->
        Forall positive_flat out)
  /\ (forall site jk jk_html t out html,
        _parse_flats site jk jk_html = (t, Ok out) ->
        content (listing site 0) = Ok html ->
        contains html no_offers = true ->
        _extract_flats_from_layouts jk_html jk = Ok out).
Proof.
  split; [|split].
  - intros card jk layouts_by_id valid_ids f Hf.
    apply _parse_flat_card_Some in Hf. destruct Hf as (url & _ & _ & Hp).
    exact Hp.
  - intros site jk jk_html t out html Hrun Hc Hno.
    apply _parse_flats_Ok in Hrun.
    destruct Hrun as (lf & html' & _ & (_ & _ & Hc') & Hrun).
    rewrite Hc in Hc'. injection Hc' as <-.
    destruct Hrun as [(Hyes & _) | (_ & t1 & flats & Hloop & -> & _)];
      [congruence|].
    apply pages_loop_Ok in Hloop. destruct Hloop as (pfs & -> & Hall).
    apply enriched_Forall.
    + intros f g Hfg [Ha Hp]. apply fixed_fields_inv in Hfg.
      destruct Hfg as (_ & Hfa & Hfp). unfold positive_flat.
      rewrite Hfa, Hfp. auto.
    + simpl. eapply concat_Forall; [|exact Hall].
      intros n pf. apply page_flats_positive.
  - intros site jk jk_html t out html Hrun Hc Hno.
    apply _parse_flats_Ok in Hrun.
    destruct Hrun as (lf & html' & Hl & (_ & _ & Hc') & Hrun).
    rewrite Hc in Hc'. injection Hc' as <-.
    destruct Hrun as [(_ & -> & _) | (Hyes & _)]; [exact Hl | congruence].
Qed.

Lemma card_records_are_positive_witness :
  Forall positive_flat [Example.flat7].
Proof.
  eapply (proj1 (proj2 card_records_are_positive)
            Example.site_one Example.jk Example.landing);
    vm_compute; reflexivity.
Defined.

(** C1, as stated, fails on the fallback path: a layout whose area and price
    are 0 is in the final output. *)
Lemma layout_record_with_zero_area_and_price :
  _parse_flats Example.site_empty Example.jk Example.landing_free
  = ([EvOpenListing], Ok [free_flat])
  /\ feqb (Flat.area free_flat) fzero = true
  /\ Flat.price free_flat = 0%Z
  /\ ~ positive_flat free_flat.
Proof.
  split; [vm_compute; reflexivity|]. split; [reflexivity|].
  split; [reflexivity|]. intros [H _]. discriminate H.
Qed.

(** ** One record per card *)

Lemma subseq_refl {A} (l : list A) : subseq l l.
Proof. induction l; constructor; assumption. Qed.

Lemma subseq_nil_l {A} (l : list A) : subseq [] l.
Proof. induction l; constructor; assumption. Qed.

Lemma subseq_app {A} (a b c d : list A) :
  subseq a b -> subseq c d -> subseq (a ++ c) (b ++ d).
Proof.
  intros Hab Hcd. induction Hab; simpl; try constructor; assumption.
Qed.

Lemma subseq_In {A} (l1 l2 : list A) (x : A) :
  subseq l1 l2 -> In x l1 -> In x l2.
Proof.
  induction 1 as [|y l1 l2 _ IH|y l1 l2 _ IH]; simpl; intuition.
Qed.

Lemma subseq_NoDup {A} (l1 l2 : list A) :
  subseq l1 l2 -> NoDup l2 -> NoDup l1.
Proof.
  induction 1 as [|y l1 l2 Hs IH|y l1 l2 Hs IH]; intros Hnd.
  - constructor.
  - inversion Hnd; subst. auto.
  - inversion Hnd as [|? ? Hy Hl]; subst. constructor; [|auto].
    intros Hin. apply Hy. eapply subseq_In; eassumption.
Qed.

Lemma flats_of_cards_ids cards jk layouts_by_id valid_ids :
  subseq (map Flat.id (flats_of_cards cards jk layouts_by_id valid_ids))
         (flat_map card_ids cards).
Proof.
  unfold flats_of_cards.
  induction cards as [|card cards IH]; simpl; [constructor|].
  rewrite map_app. apply subseq_app; [|exact IH].
  destruct (_parse_flat_card card jk layouts_by_id valid_ids) as [f|] eqn:E.
  - apply _parse_flat_card_Some in E. destruct E as (url & Hid & _).
    unfold card_ids. rewrite Hid. apply subseq_refl.
  - apply subseq_nil_l.
Qed.

Lemma pages_ids site jk layouts_by_id pages pfs :
  Forall2 (fun n pf =>
             _parse_flats_page (page_at site n) jk layouts_by_id = Ok pf)
          pages pfs ->
  subseq (map Flat.id (concat pfs)) (shown_ids site pages).
Proof.
  induction 1 as [|n pf pages pfs Hn _ IH]; simpl; [constructor|].
  rewrite map_app. apply subseq_app; [|exact IH].
  apply _parse_flats_page_Ok in Hn. destruct Hn as [valid_ids ->].
  apply flats_of_cards_ids.
Qed.

(** C2 (as the code has it).  On the card path the final list holds at most
    one record per listing card: its identifiers are, in order, identifiers
    of the cards shown on the parsed pages, each card giving at most one
    record, whether or not the layout source has a candidate with the same
    identifier (card and layout merge into that one record).  So the
    output has one record per identifier when no two cards carry the same
    identifier; records are not de-duplicated between cards. *)
Theorem one_record_per_card :
  forall site jk jk_html t out html,
    _parse_flats site jk jk_html = (t, Ok out) ->
    content (listing site 0) = Ok html ->
    contains html no_offers = false ->
    subseq (map Flat.id out) (shown_ids site (parsed_pages t))
    /\ (NoDup (shown_ids site (parsed_pages t)) -> NoDup (map Flat.id out)).
Proof.
  intros site jk jk_html t out html Hrun Hc Hno.
  assert (Hsub : subseq (map Flat.id out) (shown_ids site (parsed_pages t))).
  { apply _parse_flats_Ok in Hrun.
    destruct Hrun as (lf & html' & _ & (_ & _ & Hc') & Hrun).
    rewrite Hc in Hc'. injection Hc' as <-.
    destruct Hrun as [(Hyes & _) | (_ & t1 & flats & Hloop & -> & ->)];
      [congruence|].
    apply pages_loop_Ok in Hloop. destruct Hloop as (pfs & -> & Hall).
    rewrite enriched_ids. simpl. eapply pages_ids, Hall. }
  split; [exact Hsub|]. apply subseq_NoDup, Hsub.
Qed.

Lemma one_record_per_card_witness :
  subseq (map Flat.id [Example.flat7]) [u "7"]
  /\ NoDup (map Flat.id [Example.flat7]).
Proof.
  pose proof (one_record_per_card Example.site_one Example.jk Example.landing
                [EvOpenListing; EvParsePage 1;
                 EvDetail (Flat.url Example.flat7)]
                [Example.flat7] (u "<html>offers</html>")) as H.
  destruct H as [Hs Hn]; try (vm_compute; reflexivity).
  split; [exact Hs|]. apply Hn. vm_compute.
  repeat constructor. intros [].
Defined.

(** C2, as stated, fails: the card of flat 7 shown on two pages gives two
    records with the identifier 7. *)
Lemma same_card_on_two_pages_gives_two_records :
  snd (_parse_flats Example.site_twice Example.jk Example.landing)
  = Ok [Example.flat7; Example.flat7]
  /\ parsed_pages
       (fst (_parse_flats Example.site_twice Example.jk Example.landing))
     = [1%Z; 2%Z]
  /\ ~ NoDup (map Flat.id [Example.flat7; Example.flat7]).
Proof.
  split; [vm_compute; reflexivity|]. split; [vm_compute; reflexivity|].
  intros H. inversion H as [|? ? Hin _]; subst. apply Hin. left. reflexivity.
Qed.

(** ** Enrichment *)

Lemma enriched_nth site jk flats :
  forall i k f,
    nth_error flats k = Some f ->
    nth_error (enriched site jk i flats) k
    = Some (fst (_enrich_flat_details site (i + k) jk f)).
Proof.
  induction flats as [|flat rest IH]; intros i k f.
  - destruct k; discriminate.
  - destruct k as [|k]; simpl.
    + intros [= ->]. rewrite Nat.add_0_r. reflexivity.
    + intros H. rewrite (IH (S i) k f H). do 3 f_equal. lia.
Qed.

Lemma enriched_length site jk flats :
  forall i, length (enriched site jk i flats) = length flats.
Proof.
  induction flats as [|flat rest IH]; intros i; simpl; [reflexivity|].
  rewrite IH. reflexivity.
Qed.

(** C3 (as the code has it).  Enrichment is isolated per record.  A record
    whose enrichment raises (opening the detail page, waiting for it,
    reading it: the calls that can raise all come before the first write)
    keeps exactly the values it had.  A pattern that is missing is not a
    failure: a visit that opens never raises, writes the address when a
    building code is found and the images when photos are found, each
    independently of the other, and leaves a field as it was when its
    pattern is missing.  The pass never raises, and every record of the
    list, in order, is what its own visit leaves, whatever happened to the
    others; in the run, once the pages are crawled the result is the list
    so enriched. *)
Theorem enrichment_is_isolated :
  (forall site i jk flat flat' e,
      _enrich_flat_details site i jk flat = (flat', Raise e) ->
      flat' = flat)
  /\ (forall site i jk flat html,
        detail_opens (detail site i (Flat.url flat)) html ->
        exists flat',
          _enrich_flat_details site i jk flat = (flat', Ok tt)
          /\ fixed_fields flat' = fixed_fields flat
          /\ Flat.address flat'
             = match detail_building html with
               | Some ((_ :: _) as building) =>
                 Some (format_opt (JK.address jk) ++ u ", " ++ building)
               | _ => Flat.address flat
               end
          /\ Flat.images flat'
             = match detail_photos html with
               | [] => Flat.images flat
               | urls => map decode_url urls
               end)
  /\ (forall site jk flats,
        exists out,
          snd (enrich_all site jk 0 flats) = Ok out
          /\ length out = length flats
          /\ forall k f,
              nth_error flats k = Some f ->
              nth_error out k
              = Some (fst (_enrich_flat_details site k jk f)))
  /\ (forall site jk jk_html layouts_flats html t flats,
        _extract_flats_from_layouts jk_html jk = Ok layouts_flats ->
        listing_opens site html ->
        contains html no_offers = false ->
        pages_loop site jk (index_by_id layouts_flats) 1 [] = (t, Ok flats) ->
        snd (_parse_flats site jk jk_html)
        = snd (enrich_all site jk 0 flats)).
Proof.
  split; [|split; [|split]].
  - intros site i jk flat flat' e.
    unfold _enrich_flat_details, bindS, liftS, modify, retS.
    destruct (detail_goto _) as [[]|]; [|intros [= <- _]; reflexivity].
    destruct (detail_settled _) as [[]|]; [|intros [= <- _]; reflexivity].
    destruct (detail_content _) as [html|]; [|intros [= <- _]; reflexivity].
    destruct (detail_building html) as [[|c b]|];
      destruct (detail_photos html); discriminate.
  - intros site i jk flat html (Hg & Hs & Hc).
    unfold _enrich_flat_details, bindS, liftS, modify, retS.
    rewrite Hg, Hs, Hc.
    destruct (detail_building html) as [[|c b]|];
      destruct (detail_photos html); eexists; repeat split.
  - intros site jk flats. exists (enriched site jk 0 flats).
    rewrite enrich_all_eq. split; [reflexivity|].
    split; [apply enriched_length|].
    intros k f H. apply (enriched_nth site jk flats 0 k f H).
  - intros site jk jk_html lf html t flats Hl (Hg & Hs & Hc) Hno Hloop.
    unfold _parse_flats. rewrite Hl, Hg, Hs, Hc. simpl. rewrite Hno, Hloop.
    simpl. destruct (enrich_all site jk 0 flats). reflexivity.
Qed.

Lemma enrichment_is_isolated_witness :
  snd (_parse_flats Example.site_abc Example.jk Example.landing)
  = Ok abc_after
  /\ (exists e, snd (_enrich_flat_details Example.site_abc 1 Example.jk
                       (Example.flat "2" (Some (u "Street")) (Some 2025%Z)
                                     None []))
                = Raise e).
Proof.
  split.
  - rewrite (proj2 (proj2 (proj2 enrichment_is_isolated))
               Example.site_abc Example.jk Example.landing
               [Example.layout7] (u "<html>offers</html>")
               [EvParsePage 1] abc_before);
      repeat split; vm_compute; reflexivity.
  - exists PlaywrightError. vm_compute. reflexivity.
Defined.

(** C3, as stated, fails where the failure is a missing pattern: on a detail
    page with a building code and no photo block the photos are not found,
    and the record does not keep its values, its address is overwritten. *)
Lemma missing_photos_still_overwrite_the_address :
  Re.search re_photos Example.title_only = None
  /\ _enrich_flat_details Example.site_title_only 0 Example.jk
       (Example.flat "1" (Some (u "Street")) (Some 2025%Z) None [])
     = (Example.flat "1" (Some (u "Street, 1к2")) (Some 2025%Z) None [],
        Ok tt)
  /\ Example.flat "1" (Some (u "Street, 1к2")) (Some 2025%Z) None []
     <> Example.flat "1" (Some (u "Street")) (Some 2025%Z) None [].
Proof.
  split; [vm_compute; reflexivity|]. split; [vm_compute; reflexivity|].
  intros H. apply (f_equal Flat.address) in H. vm_compute in H.
  discriminate H.
Qed.

(** ** Pagination *)

(** C4.  The pagination loop always terminates ([pages_loop] is a total
    function): it parses consecutive pages from page 1, at most 50 of them
    whatever the pages do; it stops at the first page without a visible
    pagination control; and with an active control on every page it parses
    exactly 50. *)
Theorem pagination_is_bounded :
  forall site jk layouts_by_id,
    let pages :=
      parsed_pages (fst (pages_loop site jk layouts_by_id 1 [])) in
    (exists len, pages = page_range 1 len /\ len <= 50)
    /\ (forall len : nat,
          (Z.of_nat len < 50)%Z ->
          (forall j, (1 <= j <= Z.of_nat len)%Z ->
                     page_loads (page_at site j)
                     /\ next_active (page_at site j)) ->
          page_loads (page_at site (Z.of_nat len + 1)) ->
          next_absent (page_at site (Z.of_nat len + 1)) ->
          pages = page_range 1 (S len))
    /\ ((forall j, (1 <= j <= 50)%Z ->
                   page_loads (page_at site j)
                   /\ next_active (page_at site j)) ->
        pages = page_range 1 50).
Proof.
  intros site jk layouts_by_id pages. unfold pages. split; [|split].
  - destruct (pages_loop_cap site jk layouts_by_id 1 []) as (len & H & Hb).
    exists len. split; [exact H|]. unfold max_pages in Hb. lia.
  - intros len Hlen Hact Hl Ha.
    apply pages_loop_stops.
    + unfold max_pages. lia.
    + intros j Hj. apply Hact. lia.
    + replace (1 + Z.of_nat len)%Z with (Z.of_nat len + 1)%Z by lia.
      exact Hl.
    + replace (1 + Z.of_nat len)%Z with (Z.of_nat len + 1)%Z by lia.
      exact Ha.
  - intros Hact. apply pages_loop_all; [reflexivity|].
    intros j Hj. apply Hact. unfold max_pages in Hj. lia.
Qed.

Lemma example_page_loads cards next : page_loads (Example.page cards next).
Proof.
  split; [eexists; reflexivity|]. exists cards. split; [reflexivity|].
  intros _. eexists. reflexivity.
Qed.

Lemma example_next_active cards :
  next_active (Example.page cards (Some Example.next_btn)).
Proof. exists Example.next_btn. repeat split. Qed.

Lemma pagination_is_bounded_witness :
  parsed_pages
    (fst (pages_loop (Example.site_pages 3 false) Example.jk [] 1 []))
  = [1; 2; 3]%Z
  /\ parsed_pages
       (fst (pages_loop (Example.site_pages 60 true) Example.jk [] 1 []))
     = page_range 1 50.
Proof.
  split.
  - apply (proj1 (proj2 (pagination_is_bounded
                           (Example.site_pages 3 false) Example.jk [])) 2).
    + reflexivity.
    + intros j Hj. assert (j = 1 \/ j = 2)%Z as [-> | ->] by lia;
        (split; [apply example_page_loads | apply example_next_active]).
    + apply example_page_loads.
    + left. reflexivity.
  - apply (proj2 (proj2 (pagination_is_bounded
                           (Example.site_pages 60 true) Example.jk []))).
    intros j Hj. unfold page_at, Example.site_pages. cbn [listing].
    destruct (Nat.ltb_spec (S (Z.to_nat (j - 1))) 60) as [_|Hge]; [|lia].
    split; [apply example_page_loads | apply example_next_active].
Defined.

(** ** The merger *)

(** ** The layouts by identifier *)

Lemma str_eqb_refl (s : pystr) : str_eqb s s = true.
Proof. apply str_eqb_eq. reflexivity. Qed.

Lemma str_eqb_trans_false (a b c : pystr) :
  str_eqb a b = true -> str_eqb c b = false -> str_eqb a c = false.
Proof.
  intros H1 H2. apply str_eqb_eq in H1. subst b.
  destruct (str_eqb a c) eqn:E; [|reflexivity].
  apply str_eqb_eq in E. subst c. rewrite str_eqb_refl in H2. discriminate.
Qed.

(** Lookup after an insertion. *)
Lemma dict_get_set {V} (k k' : pystr) (v : V) (d : dict V) :
  dict_get k (dict_set k' v d)
  = if str_eqb k k' then Some v else dict_get k d.
Proof.
  induction d as [|[k1 v1] d IH]; simpl; [reflexivity|].
  destruct (str_eqb k' k1) eqn:E1; simpl.
  - destruct (str_eqb k k') eqn:E2; [reflexivity|].
    apply str_eqb_eq in E1. subst k1. rewrite E2. reflexivity.
  - rewrite IH. destruct (str_eqb k k1) eqn:E3; [|reflexivity].
    destruct (str_eqb k k') eqn:E2; [|reflexivity].
    apply str_eqb_eq in E2, E3. subst k' k1. rewrite str_eqb_refl in E1.
    discriminate.
Qed.

Lemma find_app {A} (p : A -> bool) (l1 l2 : list A) :
  find p (l1 ++ l2)
  = match find p l1 with Some x => Some x | None => find p l2 end.
Proof.
  induction l1 as [|x l1 IH]; simpl; [reflexivity|].
  destruct (p x); [reflexivity | exact IH].
Qed.

Lemma dict_get_fold (k : pystr) (flats : list Flat.t) :
  forall d,
    dict_get k (fold_left (fun d f => dict_set (Flat.id f) f d) flats d)
    = match last_with_id k flats with
      | Some f => Some f
      | None => dict_get k d
      end.
Proof.
  unfold last_with_id.
  induction flats as [|f flats IH]; intros d; simpl; [reflexivity|].
  rewrite IH, find_app, dict_get_set. simpl.
  destruct (find _ (rev flats)); [reflexivity|].
  destruct (str_eqb k (Flat.id f)); reflexivity.
Qed.

(** The dictionary of the layouts gives the last candidate with the
    identifier asked for, and gives one whenever there is one. *)
Lemma index_by_id_last (k : pystr) (layouts_flats : list Flat.t) :
  dict_get k (index_by_id layouts_flats) = last_with_id k layouts_flats.
Proof.
  unfold index_by_id. rewrite dict_get_fold.
  destruct (last_with_id k layouts_flats); reflexivity.
Qed.

Lemma last_with_id_exists (k : pystr) (flats : list Flat.t) :
  (exists l, In l flats /\ Flat.id l = k) ->
  exists l, last_with_id k flats = Some l.
Proof.
  intros (l & Hin & Hid). unfold last_with_id.
  destruct (find _ (rev flats)) as [x|] eqn:E; [eauto|].
  exfalso. apply in_rev in Hin. pose proof (find_none _ _ E l Hin) as Hf.
  cbv beta in Hf. subst k. rewrite str_eqb_refl in Hf. discriminate.
Qed.

Lemma _merge_with_layout_address card text layout jk :
  (q_address_item card = Ok None ->
   exists status images year,
     _merge_with_layout card text layout jk
     = Ok (first_present None (layout_address layout) (JK.address jk),
           status, images, year))
  /\ (forall el t,
        q_address_item card = Ok (Some el) -> inner_text el = Ok t ->
        exists status images year,
          _merge_with_layout card text layout jk
          = Ok (first_present (Some (strip t)) (layout_address layout)
                              (JK.address jk),
                status, images, year)).
Proof.
  split.
  - intros Hq. unfold _merge_with_layout. rewrite Hq. cbn [bind].
    do 3 eexists. apply f_equal.
    repeat (apply (f_equal2 pair); [|reflexivity]).
    unfold first_present, layout_address.
    destruct layout as [l|]; reflexivity.
  - intros el t Hq Ht. unfold _merge_with_layout. rewrite Hq. cbn [bind].
    rewrite Ht. cbn [bind].
    do 3 eexists. apply f_equal.
    repeat (apply (f_equal2 pair); [|reflexivity]).
    unfold first_present, layout_address.
    destruct layout as [l|]; destruct (strip t); reflexivity.
Qed.

(** C6.  The merged address follows the precedence: the text of the card's
    own address element when there is one (blanks stripped, when something
    is left); otherwise the address of the layout candidate with the same
    identifier, when there is one and it has an address; otherwise the
    address of the development.  It holds of the merger, and of the record
    a card gives: its layout candidate is looked up among the candidates
    of the landing document by the card's identifier, and whenever a
    candidate has that identifier one is found, the last of them. *)
Theorem merged_address_follows_precedence :
  (forall card text layout jk,
      (q_address_item card = Ok None ->
       exists status images year,
         _merge_with_layout card text layout jk
         = Ok (first_present None (layout_address layout) (JK.address jk),
               status, images, year))
      /\ (forall el t,
            q_address_item card = Ok (Some el) -> inner_text el = Ok t ->
            exists status images year,
              _merge_with_layout card text layout jk
              = Ok (first_present (Some (strip t)) (layout_address layout)
                                  (JK.address jk),
                    status, images, year)))
  /\ (forall card jk layouts_flats valid_ids f,
        _parse_flat_card card jk (index_by_id layouts_flats) valid_ids
        = Some f ->
        let layout := dict_get (Flat.id f) (index_by_id layouts_flats) in
        (forall l, layout = Some l ->
                   In l layouts_flats /\ Flat.id l = Flat.id f)
        /\ layout = last_with_id (Flat.id f) layouts_flats
        /\ ((exists l, In l layouts_flats /\ Flat.id l = Flat.id f) ->
            exists l, layout = Some l)
        /\ exists card_address,
            Flat.address f
            = first_present card_address (layout_address layout)
                            (JK.address jk)
            /\ ((q_address_item card = Ok None /\ card_address = None)
                \/ exists el t,
                    q_address_item card = Ok (Some el)
                    /\ inner_text el = Ok t
                    /\ card_address = Some (strip t))).
Proof.
  split; [exact _merge_with_layout_address|].
  intros card jk lf valid_ids f Hf layout. split; [|split; [|split]].
  - intros l Hl. apply dict_get_In in Hl.
    apply index_by_id_keyed in Hl. destruct Hl as [Hk Hin]. auto.
  - apply index_by_id_last.
  - intros Hex. unfold layout. rewrite index_by_id_last.
    apply last_with_id_exists, Hex.
  - apply _parse_flat_card_merged in Hf. destruct Hf as (text & Hm).
    fold layout in Hm.
    destruct (_merge_with_layout_address card text layout jk) as [H0 H1].
    destruct (q_address_item card) as [[el|]|e] eqn:Hq.
    + destruct (inner_text el) as [t|e] eqn:Ht.
      * destruct (H1 el t eq_refl Ht) as (st & im & yr & H).
        rewrite H in Hm. injection Hm as Ha _ _ _.
        exists (Some (strip t)). split; [symmetry; exact Ha|].
        right. exists el, t. auto.
      * unfold _merge_with_layout in Hm. rewrite Hq in Hm. cbn [bind] in Hm.
        rewrite Ht in Hm. discriminate Hm.
    + destruct (H0 eq_refl) as (st & im & yr & H).
      rewrite H in Hm. injection Hm as Ha _ _ _.
      exists None. split; [symmetry; exact Ha|]. left. auto.
    + unfold _merge_with_layout in Hm. rewrite Hq in Hm. discriminate Hm.
Qed.

Lemma merged_address_follows_precedence_witness :
  (exists status images year,
      _merge_with_layout (Example.card "7") [] (Some layout_X) jk_Y
      = Ok (Some (u "X"), status, images, year))
  /\ (exists status images year,
         _merge_with_layout (Example.card "7") [] (Some layout_none) jk_Y
         = Ok (Some (u "Y"), status, images, year))
  /\ (exists status images year,
         _merge_with_layout (Example.card "7") [] None jk_Y
         = Ok (Some (u "Y"), status, images, year))
  /\ (dict_get (Flat.id layout_X) (index_by_id [layout_none; layout_X])
      = Some layout_X
      /\ Flat.address layout_X
         = first_present None (Some (u "X")) (JK.address jk_Y)).
Proof.
  split; [|split; [|split]].
  - exact (proj1 (proj1 merged_address_follows_precedence
                           (Example.card "7") [] (Some layout_X) jk_Y)
                  eq_refl).
  - exact (proj1 (proj1 merged_address_follows_precedence
                           (Example.card "7") [] (Some layout_none) jk_Y)
                  eq_refl).
  - exact (proj1 (proj1 merged_address_follows_precedence
                           (Example.card "7") [] None jk_Y)
                  eq_refl).
  - assert (Hf : _parse_flat_card (Example.card "7") jk_Y
                   (index_by_id [layout_none; layout_X]) []
                 = Some layout_X) by (vm_compute; reflexivity).
    destruct (proj2 merged_address_follows_precedence (Example.card "7")
                jk_Y [layout_none; layout_X] [] layout_X Hf)
      as (_ & Hlast & _ & ca & Ha & Hc).
    split; [rewrite Hlast; reflexivity|].
    rewrite Ha, Hlast.
    destruct Hc as [[_ ->] | (el & t & Hq & _)]; [reflexivity|].
    discriminate Hq.
Defined.

(** ** The fallback on the layouts *)



(** ** Layout candidates *)

Lemma layout_flat_no_floor jk m f : layout_flat jk m = Ok f -> no_floor f.
Proof.
  unfold layout_flat. intros H.
  bind_inv H as (rooms & _ & H).
  bind_inv H as (area & _ & H).
  bind_inv H as (price & _ & H).
  injection H as <-. split; reflexivity.
Qed.

Lemma for_each_Forall {A B} (P : B -> Prop) (f : A -> result B) :
  (forall x y, f x = Ok y -> P y) ->
  forall xs ys, for_each f xs = Ok ys -> Forall P ys.
Proof.
  intros HP. induction xs as [|x xs IH]; intros ys; simpl.
  - intros [= <-]. constructor.
  - intros H. bind_inv H as (y & Hy & H).
    bind_inv H as (ys' & Hys & H).
    injection H as <-. constructor; [eapply HP, Hy | apply IH, Hys].
Qed.

(** C9.  Every candidate of the layout extractor has floor 0 and
    floors_total 0; so when the crawler falls back on the layouts, every
    unit of the final output reports floor 0 and floors_total 0. *)
Theorem layout_candidates_have_no_floor :
  (forall html jk flats,
      _extract_flats_from_layouts html jk = Ok flats ->
      Forall no_floor flats)
  /\ (forall site jk jk_html t out html,
        _parse_flats site jk jk_html = (t, Ok out) ->
        content (listing site 0) = Ok html ->
        contains html no_offers = true ->
        Forall no_floor out).
Proof.
  assert (H1 : forall html jk flats,
             _extract_flats_from_layouts html jk = Ok flats ->
             Forall no_floor flats).
  { intros html jk flats. apply for_each_Forall.
    intros m f. apply layout_flat_no_floor. }
  split; [exact H1|].
  intros site jk jk_html t out html Hrun Hc Hno.
  apply _parse_flats_Ok in Hrun.
  destruct Hrun as (lf & html' & Hl & (_ & _ & Hc') & Hrun).
  rewrite Hc in Hc'. injection Hc' as <-.
  destruct Hrun as [(_ & -> & _) | (Hyes & _)]; [|congruence].
  eapply H1, Hl.
Qed.

Lemma layout_candidates_have_no_floor_witness :
  Forall no_floor [Example.layout7].
Proof.
  apply (proj2 layout_candidates_have_no_floor
           Example.site_empty Example.jk Example.landing [EvOpenListing]
           [Example.layout7] (u "<html>Нет подходящих объявлений</html>"));
    vm_compute; reflexivity.
Defined.

(* ================================================================== *)
(** * The matcher and its patterns *)
(* ================================================================== *)

(** ** Matches *)

Lemma span_cap (f : Re.cclass) (s : pystr) :
  forall h, Re.span f (Some h) s <= h.
Proof.
  induction s as [|c s IH]; intros [|h]; simpl; try lia.
  destruct (f c); [|lia]. specialize (IH h). lia.
Qed.

Section Runs.
Variable A : Type.
Implicit Types (k : pystr -> option A) (s : pystr).

Lemma try_rep_run r s k a :
  Re.try_rep r s k = Some a ->
  exists x s', s = x ++ s' /\ run_in r x /\ k s' = Some a.
Proof.
  unfold Re.try_rep.
  set (n := Re.span (Re.cls r) (Re.hi r) s).
  destruct (n <? Re.lo r) eqn:Hlo; [discriminate|].
  apply Nat.ltb_ge in Hlo. intros H.
  assert (exists i, Re.lo r <= i <= n /\ k (skipn i s) = Some a)
    as (i & Hi & Hk).
  { destruct (Re.greedy r).
    - destruct (try_down_sound _ _ _ _ _ _ H) as (i & Hi & Hk).
      exists i. split; [lia | exact Hk].
    - destruct (try_up_sound _ _ _ _ _ _ H) as (i & Hi & Hk).
      exists i. split; [lia | exact Hk]. }
  pose proof (span_le_length (Re.cls r) s (Re.hi r)) as Hlen. fold n in Hlen.
  exists (firstn i s), (skipn i s).
  split; [symmetry; apply firstn_skipn|]. split; [|exact Hk].
  repeat split.
  - apply (span_prefix _ _ (Re.hi r)). fold n. lia.
  - rewrite length_firstn. lia.
  - rewrite length_firstn. subst n.
    destruct (Re.hi r) as [h|]; [|exact I].
    pose proof (span_cap (Re.cls r) s h). lia.
Qed.

Lemma m_reps_text b :
  forall s k a,
    Re.m_reps b s k = Some a ->
    exists w s', s = w ++ s' /\ text_in b w /\ k s' = Some a.
Proof.
  induction b as [|r b IH]; intros s k a; simpl.
  - intros H. exists [], s. auto.
  - intros H. apply try_rep_run in H.
    destruct H as (x & s1 & -> & Hx & H).
    apply IH in H. destruct H as (w & s' & -> & Hw & Hk).
    exists (x ++ w), s'. rewrite app_assoc. split; [reflexivity|].
    split; [|exact Hk]. exists x, w. auto.
Qed.
End Runs.

(** What the matcher returns is a match. *)
Lemma m_nodes_matches (p : Re.pattern) :
  forall s gs rest,
    Re.m_nodes p s = Some (gs, rest) ->
    exists w, s = w ++ rest /\ matches p w rest gs.
Proof.
  induction p as [|nd p IH]; intros s gs rest; simpl.
  - intros [= <- <-]. exists []. auto.
  - destruct nd as [r|b|].
    + intros H. apply try_rep_run in H.
      destruct H as (x & s' & -> & Hx & H).
      destruct (IH _ _ _ H) as (w & -> & Hw).
      exists (x ++ w). rewrite app_assoc. split; [reflexivity|].
      exists x, w. auto.
    + intros H. apply m_reps_text in H.
      destruct H as (g & s' & -> & Hg & H).
      destruct (Re.m_nodes p s') as [[gs' rest']|] eqn:E; [|discriminate].
      injection H as <- <-.
      rewrite length_app, Nat.add_sub.
      rewrite firstn_app, firstn_all, Nat.sub_diag. simpl.
      rewrite app_nil_r.
      destruct (IH _ _ _ E) as (w & -> & Hw).
      exists (g ++ w). rewrite app_assoc. split; [reflexivity|].
      exists g, w, gs'. auto.
    + destruct (Re.at_end s) eqn:E; [|discriminate]. intros H.
      destruct (IH _ _ _ H) as (w & -> & Hw). exists w. auto.
Qed.

Lemma search_from_found (p : Re.pattern) (s : pystr) :
  forall gs rest,
    Re.search_from p s = Some (gs, rest) ->
    exists pre w, s = pre ++ w ++ rest /\ matches p w rest gs.
Proof.
  induction s as [|c s IH]; intros gs rest; simpl.
  - destruct (Re.m_nodes p []) as [[g r]|] eqn:E; [|discriminate].
    intros [= <- <-]. apply m_nodes_matches in E.
    destruct E as (w & Hw & Hm). exists [], w. auto.
  - destruct (Re.m_nodes p (c :: s)) as [[g r]|] eqn:E.
    + intros [= <- <-]. apply m_nodes_matches in E.
      destruct E as (w & Hw & Hm). exists [], w. auto.
    + intros H. destruct (IH _ _ H) as (pre & w & -> & Hm).
      exists (c :: pre), w. auto.
Qed.

(** [re.search] returns the groups of a match the string holds. *)
Lemma search_found (p : Re.pattern) (s : pystr) (gs : list pystr) :
  Re.search p s = Some gs -> found p s gs.
Proof.
  unfold Re.search.
  destruct (Re.search_from p s) as [[g rest]|] eqn:E; [|discriminate].
  intros [= <-]. destruct (search_from_found _ _ _ _ E) as (pre & w & H & Hm).
  exists pre, w, rest. auto.
Qed.

Lemma found_cons (p : Re.pattern) (c : char) (s : pystr) (gs : list pystr) :
  found p s gs -> found p (c :: s) gs.
Proof.
  intros (pre & w & rest & -> & H). exists (c :: pre), w, rest. auto.
Qed.

Lemma findall_found (p : Re.pattern) (s : pystr) :
  Forall (found p s) (Re.findall p s).
Proof.
  unfold Re.findall. generalize 0 as skip.
  induction s as [|c s IH]; intros skip; simpl.
  - destruct skip; [|constructor].
    destruct (Re.m_nodes p []) as [[g r]|] eqn:E; constructor.
    + apply m_nodes_matches in E. destruct E as (w & Hw & Hm).
      exists [], w, r. auto.
    + constructor.
  - assert (Hup : forall k, Forall (found p (c :: s)) (Re.findall_aux p k s)).
    { intros k. eapply Forall_impl; [|apply IH].
      intros gs. apply found_cons. }
    destruct skip; [|apply Hup].
    destruct (Re.m_nodes p (c :: s)) as [[g r]|] eqn:E.
    + constructor; [|apply Hup].
      apply m_nodes_matches in E. destruct E as (w & Hw & Hm).
      exists [], w, r. auto.
    + apply Hup.
Qed.

(** A literal piece of a pattern matches itself and nothing else. *)
Lemma run_in_one (c : char) (x : pystr) :
  run_in (Re.one (N.eqb c)) x -> x = [c].
Proof.
  intros (Hall & Hlo & Hhi). simpl in *.
  destruct x as [|a [|b x]]; simpl in *; try lia.
  apply andb_prop in Hall. destruct Hall as [Ha _].
  apply N.eqb_eq in Ha. subst a. reflexivity.
Qed.

Lemma matches_lit (l : pystr) (p : Re.pattern) :
  forall w rest gs,
    matches (Re.lit l ++ p) w rest gs ->
    exists y, w = l ++ y /\ matches p y rest gs.
Proof.
  induction l as [|c l IH]; intros w rest gs; simpl.
  - intros H. exists w. auto.
  - intros (x & y & -> & Hx & H). apply run_in_one in Hx. subst x.
    destruct (IH _ _ _ H) as (y' & -> & H'). exists y'. auto.
Qed.

(** The text of a body is made of characters of its classes. *)
Lemma text_in_chars (P : char -> bool) (b : list Re.rep) :
  Forall (fun r => forall c, Re.cls r c = true -> P c = true) b ->
  forall w, text_in b w -> forallb P w = true.
Proof.
  induction 1 as [|r b Hr _ IH]; intros w; simpl.
  - intros ->. reflexivity.
  - intros (x & y & -> & [Hx _] & Hy).
    rewrite forallb_app, (IH _ Hy), andb_true_r.
    rewrite forallb_forall in *. auto.
Qed.

(** [x+] of one class: a non-empty string of the class. *)
Lemma text_in_plus (f : Re.cclass) (w : pystr) :
  text_in [Re.plus f] w <-> w <> [] /\ forallb f w = true.
Proof.
  simpl. split.
  - intros (x & y & -> & (Hall & Hlo & _) & ->). rewrite app_nil_r.
    simpl in *. split; [|exact Hall]. destruct x; simpl in *; [lia|discriminate].
  - intros [Hne Hall]. exists w, []. rewrite app_nil_r.
    repeat split; auto. simpl. destruct w; simpl; [congruence|lia].
Qed.

(** ** Where the matcher finds a match *)

Lemma span_run (f : Re.cclass) (x rest : pystr) :
  forallb f x = true -> stops f rest ->
  Re.span f None (x ++ rest) = length x.
Proof.
  intros Hx Hr. induction x as [|c x IH]; simpl.
  - destruct rest as [|c rest]; [reflexivity|]. simpl in *. rewrite Hr.
    reflexivity.
  - simpl in Hx. apply andb_prop in Hx. destruct Hx as [Hc Hx].
    rewrite Hc. f_equal. apply IH, Hx.
Qed.

Lemma span_stops (f : Re.cclass) (cap : option nat) (s : pystr) :
  stops f s -> Re.span f cap s = 0.
Proof.
  destruct s as [|c s]; simpl.
  - destruct cap as [[|n]|]; reflexivity.
  - intros ->. destruct cap as [[|n]|]; reflexivity.
Qed.

Lemma span_zero (f : Re.cclass) (s : pystr) : Re.span f (Some 0) s = 0.
Proof. destruct s; reflexivity. Qed.

Section First.
Variable A : Type.
Implicit Types (k : pystr -> option A) (s : pystr).

(** A greedy quantifier keeps its longest run when the rest of the pattern
    accepts what follows. *)
Lemma try_down_first d base s k a :
  k (skipn (base + d) s) = Some a -> Re.try_down d base s k = Some a.
Proof. intros H. destruct d; simpl; rewrite H; reflexivity. Qed.

Lemma try_rep_greedy (f : Re.cclass) (lo : nat) (x rest : pystr) k a :
  forallb f x = true -> stops f rest -> lo <= length x ->
  k rest = Some a ->
  Re.try_rep (Re.mkRep f lo None true) (x ++ rest) k = Some a.
Proof.
  intros Hx Hr Hlo Hk. unfold Re.try_rep. simpl.
  rewrite (span_run f x rest Hx Hr).
  destruct (length x <? lo) eqn:E; [apply Nat.ltb_lt in E; lia|].
  apply try_down_first.
  replace (lo + (length x - lo)) with (length x) by lia.
  rewrite skipn_app, skipn_all, Nat.sub_diag. exact Hk.
Qed.

(** A quantifier that wants a character of its class fails where there is
    none. *)
Lemma try_rep_stops (r : Re.rep) s k :
  stops (Re.cls r) s -> 0 < Re.lo r -> Re.try_rep r s k = None.
Proof.
  intros Hs Hlo. unfold Re.try_rep. rewrite (span_stops _ _ _ Hs).
  destruct (0 <? Re.lo r) eqn:E; [reflexivity|].
  apply Nat.ltb_ge in E. lia.
Qed.

Lemma try_rep_one (c : char) s k :
  Re.try_rep (Re.one (N.eqb c)) (c :: s) k = k s.
Proof.
  unfold Re.try_rep. simpl. rewrite N.eqb_refl, span_zero. simpl.
  destruct (k s); reflexivity.
Qed.
End First.

Lemma m_nodes_lit (l : pystr) (p : Re.pattern) (s : pystr) :
  Re.m_nodes (Re.lit l ++ p) (l ++ s) = Re.m_nodes p s.
Proof.
  induction l as [|c l IH]; [reflexivity|].
  cbn [Re.lit map app Re.m_nodes]. rewrite try_rep_one. exact IH.
Qed.

Lemma m_nodes_lit_fail (l : pystr) (p : Re.pattern) :
  forall s, startswith s l = false -> Re.m_nodes (Re.lit l ++ p) s = None.
Proof.
  induction l as [|c l IH]; intros s; [rewrite startswith_nil; discriminate|].
  cbn [Re.lit map app Re.m_nodes].
  destruct s as [|x s]; simpl startswith.
  - intros _. apply try_rep_stops; simpl; [exact I | lia].
  - destruct (c =? x)%N eqn:E; simpl.
    + apply N.eqb_eq in E. subst x. intros H.
      rewrite try_rep_one. apply IH, H.
    + intros _. apply try_rep_stops; simpl; [exact E | lia].
Qed.

(** A pattern that starts with a group of one or more characters of a class
    does not match where the class has no character. *)
Lemma m_nodes_grp_stops (r : Re.rep) (b : list Re.rep) (p : Re.pattern)
  (s : pystr) :
  stops (Re.cls r) s -> 0 < Re.lo r ->
  Re.m_nodes (Re.Grp (r :: b) :: p) s = None.
Proof. intros Hs Hlo. simpl. apply try_rep_stops; assumption. Qed.

(** A group [(x+)], greedy, takes the whole run when the rest of the pattern
    matches after it. *)
Lemma m_nodes_grp_plus (f : Re.cclass) (p : Re.pattern) (x rest : pystr)
  (gs : list pystr) (rest' : pystr) :
  x <> [] -> forallb f x = true -> stops f rest ->
  Re.m_nodes p rest = Some (gs, rest') ->
  Re.m_nodes (Re.Grp [Re.plus f] :: p) (x ++ rest) = Some (x :: gs, rest').
Proof.
  intros Hne Hx Hr Hp. cbn [Re.m_nodes Re.m_reps]. unfold Re.plus.
  apply try_rep_greedy; try assumption.
  - destruct x; simpl; [congruence | lia].
  - rewrite Hp, length_app, Nat.add_sub.
    rewrite firstn_app, firstn_all, Nat.sub_diag. simpl.
    rewrite app_nil_r. reflexivity.
Qed.

(** The search passes the positions where the pattern does not match. *)
Lemma search_from_skip (p : Re.pattern) (pre s : pystr) :
  (forall i, i < length pre -> Re.m_nodes p (skipn i (pre ++ s)) = None) ->
  Re.search_from p (pre ++ s) = Re.search_from p s.
Proof.
  induction pre as [|c pre IH]; intros H; [reflexivity|].
  pose proof (H 0 ltac:(simpl; lia)) as H0. cbn [skipn app] in H0.
  cbn [app Re.search_from]. rewrite H0. apply IH.
  intros i Hi. apply (H (S i)). simpl. lia.
Qed.

Lemma search_from_here (p : Re.pattern) (s : pystr) r :
  Re.m_nodes p s = Some r -> Re.search_from p s = Some r.
Proof. intros H. destruct s; simpl; rewrite H; reflexivity. Qed.

(** A prefix without a character of the class: no position of it starts a
    run. *)
Lemma skipn_stops (f : char -> bool) (pre s : pystr) (i : nat) :
  forallb (fun c => negb (f c)) pre = true -> i < length pre ->
  stops f (skipn i (pre ++ s)).
Proof.
  revert i. induction pre as [|c pre IH]; intros i Hpre Hi; simpl in Hi;
    [lia|].
  simpl in Hpre. apply andb_prop in Hpre. destruct Hpre as [Hc Hpre].
  destruct i as [|i]; simpl.
  - apply negb_true_iff, Hc.
  - apply IH; [exact Hpre | lia].
Qed.

(** ** Strings of digits *)

Lemma is_space_cases (c : char) :
  is_space c = true ->
  In c [9; 10; 11; 12; 13; 28; 29; 30; 31; 32; 133; 160; 5760; 8192; 8193;
        8194; 8195; 8196; 8197; 8198; 8199; 8200; 8201; 8202; 8232; 8233;
        8239; 8287; 12288]%N.
Proof.
  unfold is_space. intros H.
  repeat (apply orb_prop in H; destruct H as [H|H]);
    try (apply andb_prop in H; destruct H as [H1 H2];
         apply N.leb_le in H1, H2);
    try apply N.eqb_eq in H; simpl; lia.
Qed.

Lemma is_digit_not_space (c : char) : is_digit c = true -> is_space c = false.
Proof.
  intros Hd. destruct (is_space c) eqn:Hs; [|reflexivity].
  apply is_space_cases in Hs. simpl in Hs.
  repeat (destruct Hs as [<-|Hs]; [vm_compute in Hd; discriminate|]).
  destruct Hs.
Qed.

Lemma num_lstrip_id (s : pystr) :
  stops num_space s -> num_lstrip s = s.
Proof. destruct s as [|c s]; simpl; [reflexivity|]. intros ->. reflexivity. Qed.

Lemma num_strip_id (s : pystr) :
  forallb (fun c => negb (num_space c)) s = true -> num_strip s = s.
Proof.
  intros H. unfold num_strip.
  assert (Hs : forall t, forallb (fun c => negb (num_space c)) t = true ->
                         stops num_space t).
  { intros [|c t]; simpl; [auto|]. intros Ht. apply andb_prop in Ht.
    apply negb_true_iff, Ht. }
  rewrite (num_lstrip_id s (Hs _ H)).
  rewrite num_lstrip_id, rev_involutive; [reflexivity|].
  apply Hs. rewrite forallb_rev. exact H.
Qed.

Lemma drop_underscores_id (s : pystr) :
  forallb (fun c => negb (c =? underscore)%N) s = true ->
  forall prev : option char,
    match prev with Some p => (p =? underscore)%N = false | None => True end ->
    drop_underscores prev s = Some s.
Proof.
  induction s as [|c s IH]; intros Hs prev Hprev; simpl.
  - destruct prev as [p|]; [rewrite Hprev|]; reflexivity.
  - simpl in Hs. apply andb_prop in Hs. destruct Hs as [Hc Hs].
    apply negb_true_iff in Hc. rewrite Hc, (IH Hs (Some c) Hc).
    destruct prev as [p|]; [rewrite Hprev|]; reflexivity.
Qed.

Lemma digit_values_length (s : pystr) (ds : list N) :
  digit_values s = Some ds -> length ds = length s.
Proof.
  revert ds. induction s as [|c s IH]; intros ds; simpl.
  - intros [= <-]. reflexivity.
  - destruct (digit_value c); [|discriminate].
    destruct (digit_values s) as [ds'|]; [|discriminate].
    intros [= <-]. simpl. f_equal. apply IH. reflexivity.
Qed.

Lemma digit_values_digits (s : pystr) :
  forallb is_digit s = true -> exists ds, digit_values s = Some ds.
Proof.
  induction s as [|c s IH]; simpl; [eauto|]. intros H.
  apply andb_prop in H. destruct H as [Hc Hs].
  destruct (IH Hs) as [ds ->]. unfold is_digit in Hc.
  destruct (digit_value c); [eauto | discriminate].
Qed.

Lemma digits_plain (s : pystr) :
  forallb is_digit s = true ->
  forallb (fun c => negb (num_space c)) s = true
  /\ forallb (fun c => negb (c =? underscore)%N) s = true
  /\ forallb unsigned_char s = true.
Proof.
  intros H. rewrite !forallb_forall in *. repeat split; intros c Hc.
  - unfold num_space. rewrite (is_digit_not_space c (H c Hc)). reflexivity.
  - apply negb_true_iff, N.eqb_neq. intros ->. specialize (H _ Hc).
    vm_compute in H. discriminate.
  - unfold unsigned_char, char_isdigit. rewrite (H c Hc). reflexivity.
Qed.

(** [int] of a string of digits: its number, unless it is too long. *)
Lemma int_of_str_digits (s : pystr) :
  digits s ->
  int_of_str s = if int_max_str_digits <? length s then Raise ValueError
                 else Ok (number s).
Proof.
  intros [Hne Hd]. destruct (digits_plain s Hd) as (Hsp & Hus & Hun).
  unfold int_of_str, number.
  rewrite (num_strip_id s Hsp), (drop_underscores_id s Hus None I).
  rewrite (split_sign_unsigned s Hun).
  destruct (digit_values_digits s Hd) as [ds Hds].
  rewrite <- (digit_values_length _ _ Hds).
  destruct s as [|c s]; [congruence|]. rewrite Hds. reflexivity.
Qed.

Lemma number_nonneg (s : pystr) : (0 <= number s)%Z.
Proof.
  unfold number. destruct (digit_values s); [apply decimal_nonneg | lia].
Qed.

(** ** The matcher misses no match *)

Lemma span_ge (f : Re.cclass) (x s' : pystr) :
  forallb f x = true ->
  forall cap,
    match cap with Some h => length x <= h | None => True end ->
    length x <= Re.span f cap (x ++ s').
Proof.
  intros Hx. induction x as [|c x IH]; intros cap Hcap; simpl; [lia|].
  simpl in Hx. apply andb_prop in Hx. destruct Hx as [Hc Hx].
  destruct cap as [[|h]|]; simpl in Hcap; try lia; rewrite Hc.
  - specialize (IH Hx (Some h) ltac:(simpl; lia)). cbn [option_map pred]. lia.
  - specialize (IH Hx None I). cbn [option_map]. lia.
Qed.

Section Complete.
Variable A : Type.
Implicit Types (k : pystr -> option A) (s : pystr).

Lemma try_down_complete d base s k i :
  base <= i <= base + d -> k (skipn i s) <> None ->
  Re.try_down d base s k <> None.
Proof.
  induction d as [|d IH]; intros Hi Hk; simpl.
  - assert (i = base + 0) as -> by lia.
    destruct (k (skipn (base + 0) s)); [discriminate | congruence].
  - destruct (k (skipn (base + S d) s)) eqn:E; [discriminate|].
    apply IH; [|exact Hk].
    assert (i <> base + S d) by (intros ->; congruence). lia.
Qed.

Lemma try_up_complete d s k i :
  forall base,
    base <= i <= base + d -> k (skipn i s) <> None ->
    Re.try_up d base s k <> None.
Proof.
  induction d as [|d IH]; intros base Hi Hk; simpl.
  - assert (i = base) as -> by lia.
    destruct (k (skipn base s)); [discriminate | congruence].
  - destruct (k (skipn base s)) eqn:E; [discriminate|].
    apply IH; [|exact Hk].
    assert (i <> base) by (intros ->; congruence). lia.
Qed.

Lemma try_rep_complete r x s' k :
  run_in r x -> k s' <> None -> Re.try_rep r (x ++ s') k <> None.
Proof.
  intros (Hall & Hlo & Hhi) Hk. unfold Re.try_rep.
  pose proof (span_ge (Re.cls r) x s' Hall (Re.hi r) Hhi) as Hn.
  remember (Re.span (Re.cls r) (Re.hi r) (x ++ s')) as n eqn:En. clear En.
  destruct (n <? Re.lo r) eqn:E; [apply Nat.ltb_lt in E; lia|].
  assert (Hs : k (skipn (length x) (x ++ s')) <> None).
  { rewrite skipn_app, skipn_all, Nat.sub_diag. exact Hk. }
  destruct (Re.greedy r).
  - apply (try_down_complete _ _ _ _ (length x)); [lia | exact Hs].
  - apply (try_up_complete _ _ _ (length x)); [lia | exact Hs].
Qed.

Lemma m_reps_complete b :
  forall w s' k,
    text_in b w -> k s' <> None -> Re.m_reps b (w ++ s') k <> None.
Proof.
  induction b as [|r b IH]; intros w s' k; simpl.
  - intros -> Hk. exact Hk.
  - intros (x & y & -> & Hx & Hy) Hk. rewrite <- app_assoc.
    apply try_rep_complete; [exact Hx|]. apply IH; assumption.
Qed.
End Complete.

Lemma m_nodes_complete (p : Re.pattern) :
  forall w rest gs,
    matches p w rest gs -> Re.m_nodes p (w ++ rest) <> None.
Proof.
  induction p as [|nd p IH]; intros w rest gs; simpl.
  - intros _. discriminate.
  - destruct nd as [r|b|].
    + intros (x & y & -> & Hx & Hy). rewrite <- app_assoc.
      apply try_rep_complete; [exact Hx|]. eapply IH, Hy.
    + intros (g & y & gs' & -> & _ & Hg & Hy). rewrite <- app_assoc.
      apply m_reps_complete; [exact Hg|].
      pose proof (IH _ _ _ Hy) as Hn.
      destruct (Re.m_nodes p (y ++ rest)) as [[a b']|];
        [discriminate | congruence].
    + intros [He Hm]. rewrite He. eapply IH, Hm.
Qed.

(** [re.search] finds a match whenever the string holds one. *)
Lemma search_complete (p : Re.pattern) (s : pystr) (gs : list pystr) :
  found p s gs -> Re.search p s <> None.
Proof.
  intros (pre & w & rest & -> & Hm). unfold Re.search.
  assert (H : Re.search_from p (pre ++ w ++ rest) <> None).
  { induction pre as [|c pre IH].
    - pose proof (m_nodes_complete _ _ _ _ Hm) as Hn. cbn [app].
      destruct (w ++ rest); simpl;
        destruct (Re.m_nodes p _); congruence.
    - cbn [app Re.search_from].
      destruct (Re.m_nodes p (c :: pre ++ w ++ rest));
        [discriminate | exact IH]. }
  destruct (Re.search_from p (pre ++ w ++ rest)); [discriminate | congruence].
Qed.

Lemma search_None (p : Re.pattern) (s : pystr) :
  Re.search p s = None <-> forall gs, ~ found p s gs.
Proof.
  split.
  - intros H gs Hf. apply (search_complete _ _ _ Hf), H.
  - intros H. destruct (Re.search p s) as [gs|] eqn:E; [|reflexivity].
    exfalso. apply (H gs), search_found, E.
Qed.

(* ================================================================== *)
(** * The helper functions *)
(* ================================================================== *)

(** ** parse_rooms *)

Lemma search_digits_none (text : pystr) :
  forallb (fun c => negb (is_digit c)) text = true ->
  Re.search re_digits text = None.
Proof.
  intros H. unfold Re.search.
  replace text with (text ++ []) by apply app_nil_r.
  rewrite search_from_skip.
  - simpl. reflexivity.
  - intros i Hi. apply m_nodes_grp_stops; [|simpl; lia].
    apply (skipn_stops is_digit); assumption.
Qed.

Lemma search_digits_first (pre ds rest : pystr) :
  forallb (fun c => negb (is_digit c)) pre = true ->
  digits ds -> stops is_digit rest ->
  Re.search re_digits (pre ++ ds ++ rest) = Some [ds].
Proof.
  intros Hpre [Hne Hds] Hrest. unfold Re.search.
  rewrite search_from_skip.
  - rewrite (search_from_here _ _ ([ds], rest)); [reflexivity|].
    apply m_nodes_grp_plus; auto.
  - intros i Hi. apply m_nodes_grp_stops; [|simpl; lia].
    apply (skipn_stops is_digit); assumption.
Qed.

Lemma found_digits (text g : pystr) (gs : list pystr) :
  found re_digits text (g :: gs) ->
  digits g /\ length g <= length text.
Proof.
  intros (pre & w & rest & -> & (g' & y & gs' & -> & [= <- <-] & Hg & _)).
  apply text_in_plus in Hg. split; [exact Hg|].
  rewrite !length_app. lia.
Qed.

(** X1.  [parse_rooms] reads the first run of decimal digits of a text
    that does not say "студия": the result is the number the run writes,
    whatever follows it, and a [ValueError] when the run has more than 4300
    digits. *)
Theorem parse_rooms_reads_the_first_digits (pre ds rest : pystr) :
  contains (lower (pre ++ ds ++ rest)) (u "студия") = false ->
  forallb (fun c => negb (is_digit c)) pre = true ->
  digits ds -> stops is_digit rest ->
  parse_rooms (pre ++ ds ++ rest)
  = if 4300 <? length ds then Raise ValueError else Ok (number ds).
Proof.
  intros Hst Hpre Hds Hrest. unfold parse_rooms. rewrite Hst.
  rewrite (search_digits_first pre ds rest Hpre Hds Hrest).
  apply int_of_str_digits, Hds.
Qed.

Lemma parse_rooms_reads_the_first_digits_witness :
  parse_rooms (u "кв. 12, этаж 3") = Ok 12%Z.
Proof.
  apply (parse_rooms_reads_the_first_digits (u "кв. ") (u "12") (u ", этаж 3"));
    try (vm_compute; reflexivity).
  split; [discriminate | reflexivity].
Defined.

Lemma parse_rooms_Ok (text : pystr) (n : Z) :
  parse_rooms text = Ok n -> (0 <= n)%Z.
Proof.
  unfold parse_rooms.
  destruct (contains (lower text) (u "студия")); [intros [= <-]; lia|].
  destruct (Re.search re_digits text) as [m|] eqn:E; [|intros [= <-]; lia].
  pose proof (search_found _ _ _ E) as Hf.
  pose proof (search_groups _ _ _ E) as (g & gs & -> & _ & _).
  apply found_digits in Hf. destruct Hf as [Hg _].
  change (Re.group 1 (g :: gs)) with g.
  rewrite (int_of_str_digits g Hg).
  destruct (int_max_str_digits <? length g); [discriminate|].
  intros [= <-]. apply number_nonneg.
Qed.

Lemma parse_rooms_Raise (text : pystr) (e : exn) :
  parse_rooms text = Raise e -> e = ValueError /\ 4300 < length text.
Proof.
  unfold parse_rooms.
  destruct (contains (lower text) (u "студия")); [discriminate|].
  destruct (Re.search re_digits text) as [m|] eqn:E; [|discriminate].
  pose proof (search_found _ _ _ E) as Hf.
  pose proof (search_groups _ _ _ E) as (g & gs & -> & _ & _).
  apply found_digits in Hf. destruct Hf as [Hg Hlen].
  change (Re.group 1 (g :: gs)) with g.
  rewrite (int_of_str_digits g Hg).
  destruct (int_max_str_digits <? length g) eqn:El; [|discriminate].
  intros [= <-]. split; [reflexivity|].
  apply Nat.ltb_lt in El. unfold int_max_str_digits in El. lia.
Qed.

(** X2.  [parse_rooms] gives 0 for a studio and for a text without a digit;
    its result is never negative; and it raises nothing but a [ValueError],
    which takes a text of more than 4300 characters. *)
Theorem parse_rooms_is_a_count (text : pystr) :
  (contains (lower text) (u "студия") = true -> parse_rooms text = Ok 0%Z)
  /\ (forallb (fun c => negb (is_digit c)) text = true ->
      parse_rooms text = Ok 0%Z)
  /\ (forall n, parse_rooms text = Ok n -> (0 <= n)%Z)
  /\ (forall e, parse_rooms text = Raise e ->
                e = ValueError /\ 4300 < length text).
Proof.
  split; [unfold parse_rooms; intros ->; reflexivity|].
  split; [|split; [apply parse_rooms_Ok | apply parse_rooms_Raise]].
  intros H. unfold parse_rooms. rewrite (search_digits_none text H).
  destruct (contains _ _); reflexivity.
Qed.

Lemma parse_rooms_is_a_count_witness :
  parse_rooms (u "Студия 25 м²") = Ok 0%Z
  /\ parse_rooms (u "квартира") = Ok 0%Z.
Proof.
  split.
  - apply (proj1 (parse_rooms_is_a_count (u "Студия 25 м²"))).
    vm_compute. reflexivity.
  - apply (proj1 (proj2 (parse_rooms_is_a_count (u "квартира")))).
    vm_compute. reflexivity.
Defined.

(** ** Decimal literals *)

Lemma plain_char_cases (c : char) :
  plain_char c = true ->
  is_space c = false /\ (c =? underscore)%N = false /\ unsigned_char c = true.
Proof.
  unfold plain_char. intros H. apply orb_prop in H. destruct H as [H|H].
  - repeat split.
    + apply is_digit_not_space, H.
    + apply N.eqb_neq. intros ->. vm_compute in H. discriminate.
    + unfold unsigned_char, char_isdigit. rewrite H. reflexivity.
  - apply N.eqb_eq in H. subst c. repeat split.
Qed.

Lemma plain_chars (s : pystr) :
  forallb plain_char s = true ->
  forallb (fun c => negb (num_space c)) s = true
  /\ forallb (fun c => negb (c =? underscore)%N) s = true
  /\ forallb unsigned_char s = true.
Proof.
  intros H. rewrite !forallb_forall in *.
  repeat split; intros c Hc;
    destruct (plain_char_cases c (H c Hc)) as (H1 & H2 & H3).
  - unfold num_space. rewrite H1. reflexivity.
  - rewrite H2. reflexivity.
  - exact H3.
Qed.

(** No unsigned literal is one of the words [float] knows. *)
Lemma unsigned_not_a_word (s w : pystr) (y : char) :
  forallb unsigned_char s = true -> In y [105; 110]%N ->
  str_eqb (map ascii_lower s) (y :: w) = false.
Proof.
  intros H1 Hy. destruct (str_eqb _ _) eqn:Heq; [|reflexivity].
  exfalso. destruct s as [|c s]; [discriminate|].
  apply str_eqb_head, ascii_lower_cases in Heq.
  simpl in H1. apply andb_prop in H1. destruct H1 as [Hc _].
  pose proof (unsigned_char_not c Hc) as Hn.
  assert (Hin : In c [43; 45; 73; 78; 105; 110]%N).
  { simpl in Hy |- *. destruct Hy as [<-|[<-|[]]]; destruct Heq as [->|Heq];
      try (assert (c = 73%N) as -> by lia);
      try (assert (c = 78%N) as -> by lia); auto 10. }
  exact (Hn c Hin eq_refl).
Qed.

(** [float] reads a string of digits and points as a decimal literal. *)
Lemma float_of_str_plain (s : pystr) :
  forallb plain_char s = true -> float_of_str s = float_of_decimal false s.
Proof.
  intros H. destruct (plain_chars s H) as (Hsp & Hus & Hun).
  unfold float_of_str.
  rewrite (num_strip_id s Hsp), (drop_underscores_id s Hus None I).
  rewrite (split_sign_unsigned s Hun).
  change (u "inf") with (105%N :: u "nf").
  change (u "infinity") with (105%N :: u "nfinity").
  change (u "nan") with (110%N :: u "an").
  rewrite !(unsigned_not_a_word s) by (simpl; auto). reflexivity.
Qed.

Lemma take_digits_run (ds rest : pystr) (vs : list N) :
  digit_values ds = Some vs -> stops is_digit rest ->
  take_digits (ds ++ rest) = (vs, rest).
Proof.
  revert vs. induction ds as [|c ds IH]; intros vs; simpl.
  - intros [= <-] Hr. destruct rest as [|c rest]; [reflexivity|].
    simpl in *. unfold is_digit in Hr.
    destruct (digit_value c); [discriminate | reflexivity].
  - destruct (digit_value c) as [d|]; [|discriminate].
    destruct (digit_values ds) as [vs'|]; [|discriminate].
    intros [= <-] Hr. rewrite (IH vs' eq_refl Hr). reflexivity.
Qed.

Lemma digit_values_app (a b : pystr) (va vb : list N) :
  digit_values a = Some va -> digit_values b = Some vb ->
  digit_values (a ++ b) = Some (va ++ vb).
Proof.
  revert va. induction a as [|c a IH]; intros va; simpl.
  - intros [= <-] H. exact H.
  - destruct (digit_value c) as [d|]; [|discriminate].
    destruct (digit_values a) as [va'|]; [|discriminate].
    intros [= <-] Hb. rewrite (IH va' eq_refl Hb). reflexivity.
Qed.

Lemma digits_are_plain (s : pystr) :
  forallb is_digit s = true -> forallb plain_char s = true.
Proof.
  intros H. rewrite !forallb_forall in *. intros c Hc. unfold plain_char.
  rewrite (H c Hc). reflexivity.
Qed.

Lemma plain_point : plain_char point = true.
Proof. reflexivity. Qed.

(** [ip.fp], digits around a point, with a digit somewhere: the float
    nearest to the number the digits write, scaled. *)
Lemma float_of_str_point (ip fp : pystr) :
  forallb is_digit ip = true -> forallb is_digit fp = true ->
  ip ++ fp <> [] ->
  float_of_str (ip ++ [point] ++ fp)
  = Ok (round_decimal false (number (ip ++ fp)) (- Z.of_nat (length fp))).
Proof.
  intros Hi Hf Hne.
  rewrite float_of_str_plain.
  2:{ rewrite !forallb_app. cbn [forallb].
      rewrite plain_point, !digits_are_plain by assumption. reflexivity. }
  destruct (digit_values_digits ip Hi) as [vi Hvi].
  destruct (digit_values_digits fp Hf) as [vf Hvf].
  unfold float_of_decimal.
  rewrite (take_digits_run ip _ vi Hvi) by reflexivity.
  cbn [app]. rewrite N.eqb_refl.
  replace fp with (fp ++ []) at 1 by apply app_nil_r.
  rewrite (take_digits_run fp [] vf Hvf I).
  unfold number. rewrite (digit_values_app _ _ _ _ Hvi Hvf).
  rewrite (digit_values_length _ _ Hvf).
  assert (Hv : vi ++ vf <> []).
  { intros Hnil. apply Hne. apply app_eq_nil in Hnil. destruct Hnil as [-> ->].
    apply digit_values_length in Hvi, Hvf.
    destruct ip, fp; simpl in *; try discriminate. reflexivity. }
  destruct (vi ++ vf) eqn:E; [congruence|]. reflexivity.
Qed.

(** A string of digits alone. *)
Lemma float_of_str_digits (ds : pystr) :
  digits ds ->
  float_of_str ds = Ok (round_decimal false (number ds) 0).
Proof.
  intros [Hne Hd].
  rewrite float_of_str_plain.
  2:{ apply digits_are_plain, Hd. }
  destruct (digit_values_digits ds Hd) as [vs Hvs].
  unfold float_of_decimal.
  replace ds with (ds ++ []) at 1 by apply app_nil_r.
  rewrite (take_digits_run ds [] vs Hvs I).
  unfold number. rewrite Hvs. rewrite app_nil_r. simpl.
  destruct vs; [|reflexivity].
  apply digit_values_length in Hvs. destruct ds; [congruence | discriminate].
Qed.

(** No digit at all, or a second point: not a literal. *)
Lemma float_of_decimal_points (neg : bool) (s : pystr) :
  forallb (N.eqb point) s = true ->
  float_of_decimal neg s = Raise ValueError.
Proof.
  intros H. unfold float_of_decimal.
  destruct s as [|c s]; [reflexivity|].
  cbn [forallb] in H. apply andb_prop in H. destruct H as [Hc Hs].
  apply N.eqb_eq in Hc. subst c. cbn [take_digits].
  change (digit_value point) with (@None N). cbv iota.
  rewrite N.eqb_refl.
  destruct s as [|c s]; [reflexivity|].
  cbn [forallb] in Hs. apply andb_prop in Hs. destruct Hs as [Hc _].
  apply N.eqb_eq in Hc. subst c. reflexivity.
Qed.

Lemma float_of_str_two_points (a b c : pystr) :
  forallb is_digit a = true -> forallb is_digit b = true ->
  forallb plain_char c = true ->
  float_of_str (a ++ [point] ++ b ++ [point] ++ c) = Raise ValueError.
Proof.
  intros Ha Hb Hc.
  rewrite float_of_str_plain.
  2:{ rewrite !forallb_app. cbn [forallb].
      rewrite plain_point, Hc, !digits_are_plain by assumption.
      reflexivity. }
  destruct (digit_values_digits a Ha) as [va Hva].
  destruct (digit_values_digits b Hb) as [vb Hvb].
  unfold float_of_decimal.
  rewrite (take_digits_run a _ va Hva) by reflexivity.
  cbn [app]. rewrite N.eqb_refl.
  rewrite (take_digits_run b _ vb Hvb) by reflexivity.
  destruct (va ++ vb); reflexivity.
Qed.

(** ** A group of one class *)

Lemma search_plus_none (f : Re.cclass) (text : pystr) :
  forallb (fun c => negb (f c)) text = true ->
  Re.search [Re.Grp [Re.plus f]] text = None.
Proof.
  intros H. unfold Re.search.
  replace text with (text ++ []) by apply app_nil_r.
  rewrite search_from_skip.
  - simpl. reflexivity.
  - intros i Hi. apply m_nodes_grp_stops; [|simpl; lia].
    apply (skipn_stops f); assumption.
Qed.

Lemma search_plus_first (f : Re.cclass) (pre x rest : pystr) :
  forallb (fun c => negb (f c)) pre = true ->
  x <> [] -> forallb f x = true -> stops f rest ->
  Re.search [Re.Grp [Re.plus f]] (pre ++ x ++ rest) = Some [x].
Proof.
  intros Hpre Hne Hx Hrest. unfold Re.search.
  rewrite search_from_skip.
  - rewrite (search_from_here _ _ ([x], rest)); [reflexivity|].
    apply m_nodes_grp_plus; auto.
  - intros i Hi. apply m_nodes_grp_stops; [|simpl; lia].
    apply (skipn_stops f); assumption.
Qed.

Lemma found_plus (f : Re.cclass) (text g : pystr) (gs : list pystr) :
  found [Re.Grp [Re.plus f]] text (g :: gs) ->
  g <> [] /\ forallb f g = true /\ length g <= length text.
Proof.
  intros (pre & w & rest & -> & (g' & y & gs' & -> & [= <- <-] & Hg & _)).
  apply text_in_plus in Hg. destruct Hg as [Hne Hg].
  repeat split; try assumption. rewrite !length_app. lia.
Qed.

(** ** parse_area *)

Lemma area_char_cases (c : char) :
  area_char c = is_digit c || (c =? comma)%N.
Proof.
  unfold area_char, Re.oneof, Re.digit, Re.chr. cbn [existsb].
  rewrite orb_false_r. change (Re.ch ",") with comma.
  rewrite (N.eqb_sym comma c). reflexivity.
Qed.

Lemma comma_as_point_eq (c : char) :
  comma_as_point c = if (comma =? c)%N then point else c.
Proof. reflexivity. Qed.

(** Commas become points; digits stay. *)
Lemma comma_to_point (s : pystr) :
  replace s (u ",") (u ".")
  = map comma_as_point s.
Proof. apply (replace_char comma point). Qed.

Lemma comma_to_point_digits (s : pystr) :
  forallb is_digit s = true ->
  map comma_as_point s = s.
Proof.
  induction s as [|c s IH]; cbn [map forallb]; [reflexivity|]. intros H.
  apply andb_prop in H. destruct H as [Hc Hs]. rewrite (IH Hs).
  rewrite comma_as_point_eq. destruct (comma =? c)%N eqn:E; [|reflexivity].
  apply N.eqb_eq in E. subst c. vm_compute in Hc. discriminate.
Qed.

Lemma comma_to_point_plain (s : pystr) :
  forallb area_char s = true ->
  forallb plain_char (map comma_as_point s)
  = true.
Proof.
  intros H. rewrite forallb_forall in *. intros y Hy.
  apply in_map_iff in Hy. destruct Hy as (x & <- & Hx).
  specialize (H x Hx). rewrite area_char_cases in H.
  rewrite comma_as_point_eq.
  destruct (comma =? x)%N eqn:E; [reflexivity|].
  rewrite N.eqb_sym, E, orb_false_r in H. unfold plain_char. rewrite H.
  reflexivity.
Qed.

Lemma digits_are_area (s : pystr) :
  forallb is_digit s = true -> forallb area_char s = true.
Proof.
  intros H. rewrite !forallb_forall in *. intros c Hc.
  rewrite area_char_cases, (H c Hc). reflexivity.
Qed.

Lemma re_area_eq : re_area = [Re.Grp [Re.plus area_char]].
Proof. reflexivity. Qed.

Lemma area_comma : area_char comma = true.
Proof. reflexivity. Qed.

(** X3.  [parse_area] reads the first run of digits and commas of a text,
    the comma standing for the decimal point: for digits [ip], a comma and
    digits [fp] (one of the two parts may be empty) the result is the float
    nearest to the number [ip.fp]; for digits alone, the float nearest to
    their number. *)
Theorem parse_area_reads_a_decimal_comma (pre ip fp rest : pystr) :
  forallb (fun c => negb (area_char c)) pre = true ->
  forallb is_digit ip = true -> forallb is_digit fp = true ->
  stops area_char rest ->
  (ip ++ fp <> [] ->
   parse_area (pre ++ (ip ++ [comma] ++ fp) ++ rest)
   = Ok (round_decimal false (number (ip ++ fp)) (- Z.of_nat (length fp))))
  /\ (ip <> [] ->
      parse_area (pre ++ ip ++ rest) = Ok (round_decimal false (number ip) 0)).
Proof.
  intros Hpre Hi Hf Hrest. unfold parse_area. rewrite re_area_eq. split.
  - intros Hne.
    rewrite (search_plus_first area_char pre _ rest Hpre); try assumption.
    + change (Re.group 1 [?g]) with g.
      rewrite comma_to_point, !map_app.
      rewrite (comma_to_point_digits ip Hi), (comma_to_point_digits fp Hf).
      cbn [map]. rewrite (comma_as_point_eq comma), N.eqb_refl.
      apply float_of_str_point; assumption.
    + destruct ip; discriminate.
    + rewrite !forallb_app. cbn [forallb].
      rewrite area_comma, !digits_are_area by assumption. reflexivity.
  - intros Hne.
    rewrite (search_plus_first area_char pre _ rest Hpre); try assumption.
    + change (Re.group 1 [?g]) with g.
      rewrite comma_to_point, comma_to_point_digits by assumption.
      apply float_of_str_digits. split; assumption.
    + apply digits_are_area, Hi.
Qed.

Lemma parse_area_reads_a_decimal_comma_witness :
  parse_area (u "от 45,6 м²") = Ok Example.area_45_6
  /\ parse_area (u "S = 30 м") = Ok (S754_finite false 8444249301319680 (-48)).
Proof.
  split.
  - apply (parse_area_reads_a_decimal_comma (u "от ") (u "45") (u "6")
             (u " м²")); try (vm_compute; reflexivity). discriminate.
  - apply (parse_area_reads_a_decimal_comma (u "S = ") (u "30") [] (u " м"));
      try (vm_compute; reflexivity). discriminate.
Defined.

Lemma parse_area_Ok (text : pystr) (x : float) :
  parse_area text = Ok x -> has_sign false x.
Proof.
  unfold parse_area. rewrite re_area_eq.
  destruct (Re.search _ text) as [m|] eqn:E; [|intros [= <-]; reflexivity].
  pose proof (search_found _ _ _ E) as Hf.
  pose proof (search_groups _ _ _ E) as (g & gs & -> & _ & _).
  apply found_plus in Hf. destruct Hf as (_ & Hg & _).
  change (Re.group 1 (g :: gs)) with g. rewrite comma_to_point.
  apply float_of_str_unsigned.
  apply (plain_chars _ (comma_to_point_plain g Hg)).
Qed.

Lemma parse_area_Raise (text : pystr) (e : exn) :
  parse_area text = Raise e -> e = ValueError.
Proof.
  unfold parse_area.
  destruct (Re.search _ text) as [m|]; [|discriminate].
  apply float_of_str_raises.
Qed.

(** X4.  The rest of [parse_area]: a text without a digit or a comma
    gives 0.0; a result is never negative and never a NaN; the only
    exception is a [ValueError], raised when the first run has no digit or
    has a second comma (["1,234,5"]). *)
Theorem parse_area_rejects_a_second_comma :
  (forall text : pystr,
      forallb (fun c => negb (area_char c)) text = true ->
      parse_area text = Ok fzero)
  /\ (forall (text : pystr) x, parse_area text = Ok x -> has_sign false x)
  /\ (forall (text : pystr) e, parse_area text = Raise e -> e = ValueError)
  /\ (forall pre run rest : pystr,
         forallb (fun c => negb (area_char c)) pre = true ->
         run <> [] -> forallb (N.eqb comma) run = true ->
         stops area_char rest ->
         parse_area (pre ++ run ++ rest) = Raise ValueError)
  /\ (forall pre a b c rest : pystr,
         forallb (fun c => negb (area_char c)) pre = true ->
         forallb is_digit a = true -> forallb is_digit b = true ->
         forallb area_char c = true -> stops area_char rest ->
         parse_area (pre ++ (a ++ [comma] ++ b ++ [comma] ++ c) ++ rest)
         = Raise ValueError).
Proof.
  split; [|split; [|split; [|split]]].
  - intros text H. unfold parse_area. rewrite re_area_eq.
    rewrite (search_plus_none area_char text H). reflexivity.
  - exact parse_area_Ok.
  - exact parse_area_Raise.
  - unfold parse_area. rewrite re_area_eq. intros pre run rest Hpre Hne Hrun Hrest.
    rewrite (search_plus_first area_char pre run rest Hpre); try assumption.
    + change (Re.group 1 [?g]) with g. rewrite comma_to_point.
      assert (Hp : forallb (N.eqb point)
                     (map comma_as_point run)
                   = true).
      { rewrite forallb_forall in *. intros y Hy.
        apply in_map_iff in Hy. destruct Hy as (x & <- & Hx).
        rewrite comma_as_point_eq, (Hrun x Hx). reflexivity. }
      rewrite float_of_str_plain.
      * apply float_of_decimal_points, Hp.
      * rewrite forallb_forall in *. intros y Hy.
        specialize (Hp y Hy). apply N.eqb_eq in Hp. subst y. reflexivity.
    + rewrite forallb_forall in *. intros x Hx.
      specialize (Hrun x Hx). apply N.eqb_eq in Hrun. subst x. reflexivity.
  - unfold parse_area. rewrite re_area_eq.
    intros pre a b c rest Hpre Ha Hb Hc Hrest.
    rewrite (search_plus_first area_char pre _ rest Hpre); try assumption.
    + change (Re.group 1 [?g]) with g.
      rewrite comma_to_point, !map_app.
      rewrite (comma_to_point_digits a Ha), (comma_to_point_digits b Hb).
      cbn [map]. rewrite !(comma_as_point_eq comma), !N.eqb_refl.
      apply float_of_str_two_points; try assumption.
      apply comma_to_point_plain, Hc.
    + destruct a; discriminate.
    + rewrite !forallb_app. cbn [forallb].
      rewrite area_comma, Hc, !digits_are_area by assumption. reflexivity.
Qed.

Lemma parse_area_rejects_a_second_comma_witness :
  parse_area (u "1,234,5 м²") = Raise ValueError
  /\ parse_area (u "a, b") = Raise ValueError
  /\ parse_area (u "м²") = Ok fzero.
Proof.
  pose proof parse_area_rejects_a_second_comma
    as (Hnone & _ & _ & Hcommas & Htwo).
  split; [|split].
  - apply (Htwo [] (u "1") (u "234") (u "5") (u " м²"));
      vm_compute; reflexivity.
  - apply (Hcommas (u "a") (u ",") (u " b"));
      try (vm_compute; reflexivity). discriminate.
  - apply Hnone. vm_compute. reflexivity.
Defined.

(** ** [str.replace] *)

Lemma replace_aux_skip (old new : pystr) (s : pystr) :
  forall k, replace_aux old new k s = replace (skipn k s) old new.
Proof.
  unfold replace. induction s as [|c s IH]; intros [|k]; try reflexivity.
  simpl. apply IH.
Qed.

Lemma startswith_app (l s : pystr) : startswith (l ++ s) l = true.
Proof.
  induction l as [|c l IH]; simpl; [apply startswith_nil|].
  rewrite N.eqb_refl. exact IH.
Qed.

Lemma startswith_inv (s l : pystr) :
  startswith s l = true -> exists s', s = l ++ s'.
Proof.
  revert s. induction l as [|c l IH]; intros s;
    [intros _; exists s; reflexivity|].
  destruct s as [|x s]; simpl; [discriminate|]. intros H.
  apply andb_prop in H. destruct H as [Hc Hs]. apply N.eqb_eq in Hc. subst x.
  destruct (IH s Hs) as [s' ->]. eauto.
Qed.

(** An occurrence at the front is replaced, and the replacement goes on
    after it. *)
Lemma replace_here (old new s : pystr) :
  old <> [] -> replace (old ++ s) old new = new ++ replace s old new.
Proof.
  intros Hne. destruct old as [|o old]; [congruence|].
  unfold replace at 1. cbn [app replace_aux].
  change (o :: old ++ s) with ((o :: old) ++ s). rewrite startswith_app.
  rewrite replace_aux_skip.
  replace (length (o :: old) - 1) with (length old) by (simpl; lia).
  rewrite skipn_app, skipn_all, Nat.sub_diag. reflexivity.
Qed.

Lemma replace_next (old new : pystr) (c : char) (s : pystr) :
  startswith (c :: s) old = false ->
  replace (c :: s) old new = c :: replace s old new.
Proof. intros H. unfold replace. cbn [replace_aux]. rewrite H. reflexivity. Qed.

Lemma contains_cons (c : char) (s sub : pystr) :
  contains (c :: s) sub = startswith (c :: s) sub || contains s sub.
Proof. reflexivity. Qed.

(** A string in which [old] does not occur is left as it is. *)
Lemma replace_absent (old new s : pystr) :
  contains s old = false -> replace s old new = s.
Proof.
  induction s as [|c s IH]; [reflexivity|].
  rewrite contains_cons. intros H. apply orb_false_elim in H.
  destruct H as [H1 H2]. rewrite (replace_next _ _ _ _ H1), (IH H2).
  reflexivity.
Qed.

Section ReplaceByChar.
(** [old] replaced by one character that does not occur in it. *)
Variables (old : pystr) (n : char).
Hypothesis old_ne : old <> [].
Hypothesis n_fresh : ~ In n old.

Lemma startswith_replaced (w : pystr) :
  ~ In n w ->
  forall s, startswith (replace s old [n]) w = true -> startswith s w = true.
Proof.
  induction w as [|x w IH]; intros Hw s; [intros _; apply startswith_nil|].
  destruct s as [|c s]; [discriminate|].
  destruct (startswith (c :: s) old) eqn:E.
  - apply startswith_inv in E. destruct E as [s' ->].
    rewrite (replace_here old [n] s' old_ne). simpl.
    destruct (x =? n)%N eqn:Ex; [|discriminate].
    apply N.eqb_eq in Ex. subst x. exfalso. apply Hw. left. reflexivity.
  - rewrite (replace_next _ _ _ _ E). simpl. intros H.
    apply andb_prop in H. destruct H as [H1 H2]. rewrite H1. simpl.
    apply IH; [|exact H2]. intros Hin. apply Hw. right. exact Hin.
Qed.

(** Nothing is left to replace. *)
Lemma replace_leaves_none (s : pystr) :
  contains (replace s old [n]) old = false.
Proof.
  remember (length s) as m eqn:Hm. revert s Hm.
  induction m as [m IH] using lt_wf_ind. intros s ->.
  destruct s as [|c s].
  - destruct old; [congruence | reflexivity].
  - destruct (startswith (c :: s) old) eqn:E.
    + apply startswith_inv in E. destruct E as [s' E]. rewrite E.
      rewrite (replace_here old [n] s' old_ne). cbn [app].
      rewrite contains_cons. apply orb_false_intro.
      * destruct old as [|o old']; [congruence|]. simpl.
        destruct (o =? n)%N eqn:Eo; [|reflexivity].
        apply N.eqb_eq in Eo. subst o. exfalso. apply n_fresh. left.
        reflexivity.
      * apply (IH (length s')); [|reflexivity].
        apply (f_equal (@length _)) in E. rewrite length_app in E.
        destruct old; [congruence|]. simpl in *. lia.
    + rewrite (replace_next _ _ _ _ E), contains_cons.
      apply orb_false_intro.
      * destruct (startswith (c :: replace s old [n]) old) eqn:E2;
          [|reflexivity].
        rewrite <- (replace_next old [n] c s E) in E2.
        apply (startswith_replaced old n_fresh) in E2. congruence.
      * apply (IH (length s)); [simpl; lia | reflexivity].
Qed.

(** Pieces without the first character of [old], with [old] between them:
    each [old] becomes [n] and the pieces stay. *)
Lemma replace_piece (a rest : pystr) :
  ~ In (hd n old) a ->
  replace (a ++ old ++ rest) old [n] = a ++ [n] ++ replace rest old [n].
Proof.
  intros Ha. induction a as [|c a IH].
  - apply (replace_here old [n] rest old_ne).
  - cbn [app]. rewrite replace_next.
    + rewrite IH; [reflexivity|]. intros Hin. apply Ha. right. exact Hin.
    + destruct old as [|o old']; [congruence|]. simpl.
      destruct (o =? c)%N eqn:E; [|reflexivity].
      apply N.eqb_eq in E. subst c. exfalso. apply Ha. left. reflexivity.
Qed.

Lemma replace_last_piece (a : pystr) :
  ~ In (hd n old) a -> replace a old [n] = a.
Proof.
  intros Ha. induction a as [|c a IH]; [reflexivity|].
  rewrite replace_next.
  - rewrite IH; [reflexivity|]. intros Hin. apply Ha. right. exact Hin.
  - destruct old as [|o old']; [congruence|]. simpl.
    destruct (o =? c)%N eqn:E; [|reflexivity].
    apply N.eqb_eq in E. subst c. exfalso. apply Ha. left. reflexivity.
Qed.

Lemma replace_join (parts : list pystr) :
  Forall (fun a => ~ In (hd n old) a) parts ->
  replace (join old parts) old [n] = join [n] parts.
Proof.
  induction 1 as [|a parts Ha _ IH]; [reflexivity|].
  destruct parts as [|b parts].
  - apply replace_last_piece, Ha.
  - change (join old (a :: b :: parts)) with (a ++ old ++ join old (b :: parts)).
    rewrite (replace_piece a _ Ha), IH. reflexivity.
Qed.
End ReplaceByChar.

(** ** decode_url *)

(** X5.  [decode_url] turns every escape of a slash into a slash and changes
    nothing else: pieces without a backslash, joined by the escape, come
    out joined by slashes; no escape is left in the result; a URL without
    the escape is returned as it is; so decoding twice is decoding once. *)
Theorem decode_url_unescapes_the_slashes :
  (forall parts : list pystr,
      Forall (fun a => ~ In backslash a) parts ->
      decode_url (join slash_escape parts) = join (u "/") parts)
  /\ (forall url, contains (decode_url url) slash_escape = false)
  /\ (forall url,
         contains url slash_escape = false -> decode_url url = url)
  /\ (forall url, decode_url (decode_url url) = decode_url url).
Proof.
  assert (Hne : slash_escape <> []) by discriminate.
  assert (Hfresh : ~ In 47%N slash_escape).
  { vm_compute. intuition discriminate. }
  assert (Hnone : forall url, contains (decode_url url) slash_escape = false).
  { intros url. apply (replace_leaves_none slash_escape 47%N); assumption. }
  split; [|split; [exact Hnone | split]].
  - intros parts Hp.
    apply (replace_join slash_escape 47%N); assumption.
  - intros url H. apply replace_absent, H.
  - intros url. apply replace_absent, Hnone.
Qed.

Lemma decode_url_unescapes_the_slashes_witness :
  decode_url (u "https:\u002F\u002Fcdn.cian.site\u002Fa.jpg")
  = u "https://cdn.cian.site/a.jpg"
  /\ decode_url (u "https://www.cian.ru/sale/flat/7/")
     = u "https://www.cian.ru/sale/flat/7/".
Proof.
  pose proof decode_url_unescapes_the_slashes as (Hjoin & _ & Hsame & _).
  split.
  - apply (Hjoin [u "https:"; []; u "cdn.cian.site"; u "a.jpg"]).
    repeat constructor; vm_compute; intuition discriminate.
  - apply Hsame. vm_compute. reflexivity.
Defined.

(** ** normalize_status *)

Lemma normalize_status_idem (status : option pystr) :
  normalize_status (normalize_status status) = normalize_status status.
Proof.
  assert (H1 : normalize_status (Some (u "Сдан")) = Some (u "Сдан"))
    by (vm_compute; reflexivity).
  assert (H2 : normalize_status (Some (u "Строится")) = Some (u "Строится"))
    by (vm_compute; reflexivity).
  destruct status as [[|c st]|]; try reflexivity.
  remember (c :: st) as s eqn:Hs.
  assert (Hin : normalize_status (@Some pystr s)
                = if contains (strip (lower s)) (u "сдан")
                  then Some (u "Сдан")
                  else if contains (strip (lower s)) (u "строит")
                       then Some (u "Строится") else @Some pystr s)
    by (subst s; reflexivity).
  rewrite Hin.
  destruct (contains (strip (lower s)) (u "сдан")) eqn:E1; [exact H1|].
  destruct (contains (strip (lower s)) (u "строит")) eqn:E2; [exact H2|].
  exact Hin.
Qed.

Lemma normalize_status_not_empty (status : option pystr) :
  normalize_status status <> Some [].
Proof.
  destruct status as [[|c st]|]; try discriminate.
  unfold normalize_status.
  destruct (contains _ _); [discriminate|].
  destruct (contains _ _); discriminate.
Qed.

(** X6.  [normalize_status] is idempotent; it gives [None] exactly for
    [None] and for the empty string, never the empty string; and a status
    it returns is "Сдан", "Строится" or the status it was given. *)
Theorem normalize_status_is_idempotent (status : option pystr) :
  normalize_status (normalize_status status) = normalize_status status
  /\ (normalize_status status = None <-> truthy status = false)
  /\ normalize_status status <> Some []
  /\ (forall st, normalize_status status = Some st ->
                 st = u "Сдан" \/ st = u "Строится" \/ status = Some st).
Proof.
  split; [apply normalize_status_idem|].
  split; [|split; [apply normalize_status_not_empty|]].
  - destruct status as [[|c st]|]; try (simpl; intuition discriminate).
    unfold normalize_status.
    destruct (contains _ _); [simpl; intuition discriminate|].
    destruct (contains _ _); simpl; intuition discriminate.
  - destruct status as [[|c st]|]; try discriminate.
    unfold normalize_status. intros s.
    destruct (contains _ _); [intros [= <-]; auto|].
    destruct (contains _ _); intros [= <-]; auto.
Qed.

Lemma normalize_status_is_idempotent_witness :
  normalize_status (Some (u "Дом сдан в 2023")) = Some (u "Сдан")
  /\ normalize_status (Some (u "Сдан")) = Some (u "Сдан").
Proof.
  assert (H : normalize_status (Some (u "Дом сдан в 2023")) = Some (u "Сдан"))
    by (vm_compute; reflexivity).
  split; [exact H|].
  pose proof (normalize_status_is_idempotent (Some (u "Дом сдан в 2023")))
    as (Hidem & _).
  rewrite H in Hidem. exact Hidem.
Defined.

(* ================================================================== *)
(** * The cards of a listing page *)
(* ================================================================== *)

(** ** Runs *)

(** Every string starts with a longest run of a class. *)
Lemma longest_run (f : char -> bool) (s : pystr) :
  exists x r, s = x ++ r /\ forallb f x = true /\ stops f r.
Proof.
  induction s as [|c s (x & r & -> & Hx & Hr)].
  - exists [], []. repeat split.
  - destruct (f c) eqn:E.
    + exists (c :: x), r. simpl. rewrite E. auto.
    + exists [], (c :: x ++ r). repeat split. exact E.
Qed.

Lemma contains_app (pre l rest : pystr) :
  contains (pre ++ l ++ rest) l = true.
Proof.
  induction pre as [|c pre IH].
  - cbn [app]. destruct (l ++ rest) eqn:E; unfold contains; fold contains;
      rewrite <- E, startswith_app; reflexivity.
  - cbn [app]. rewrite contains_cons, IH. apply orb_true_r.
Qed.

Lemma contains_inv (s l : pystr) :
  contains s l = true -> exists pre rest, s = pre ++ l ++ rest.
Proof.
  induction s as [|c s IH].
  - cbn [contains]. rewrite orb_false_r. intros H. apply startswith_inv in H.
    destruct H as [s' ->]. exists [], s'. reflexivity.
  - rewrite contains_cons. intros H. apply orb_prop in H.
    destruct H as [H|H].
    + apply startswith_inv in H. destruct H as [s' ->].
      exists [], s'. reflexivity.
    + destruct (IH H) as (pre & rest & ->). exists (c :: pre), rest.
      reflexivity.
Qed.

(** A pattern that ends with [(\d+)]: the group is the whole run of digits
    at its place. *)
Lemma m_nodes_lit_num (l s : pystr) (gs : list pystr) (rest : pystr) :
  Re.m_nodes (Re.lit l ++ [grp_num]) s = Some (gs, rest) ->
  exists d, s = l ++ d ++ rest /\ gs = [d] /\ digits d /\ stops is_digit rest.
Proof.
  intros H. pose proof (m_nodes_matches _ _ _ _ H) as (w & -> & Hm).
  apply matches_lit in Hm. destruct Hm as (y & -> & Hm).
  destruct Hm as (g & y' & gs' & -> & -> & Hg & -> & ->).
  apply text_in_plus in Hg. destruct Hg as [Hne Hg].
  rewrite <- !app_assoc in H. rewrite m_nodes_lit in H. cbn [app] in H.
  destruct (longest_run is_digit rest) as (x & r & -> & Hx & Hr).
  rewrite app_assoc in H. unfold grp_num in H.
  rewrite (m_nodes_grp_plus Re.digit [] (g ++ x) r [] r) in H;
    try assumption; try reflexivity.
  - injection H as H1 H2.
    assert (x = []) as ->.
    { apply (f_equal (@length _)) in H2. rewrite length_app in H2.
      destruct x; [reflexivity | simpl in H2; lia]. }
    exists g. rewrite app_nil_r in *. cbn [app]. repeat split; auto.
    rewrite <- app_assoc. reflexivity.
  - destruct g; [congruence | discriminate].
  - rewrite forallb_app. unfold Re.digit in *. rewrite Hg, Hx. reflexivity.
Qed.

Lemma search_from_lit_num (l s : pystr) (gs : list pystr) (rest : pystr) :
  Re.search_from (Re.lit l ++ [grp_num]) s = Some (gs, rest) ->
  exists pre d,
    s = pre ++ l ++ d ++ rest /\ gs = [d] /\ digits d /\ stops is_digit rest.
Proof.
  induction s as [|c s IH]; simpl.
  - destruct (Re.m_nodes _ []) as [[g r]|] eqn:E; [|discriminate].
    intros [= <- <-]. apply m_nodes_lit_num in E.
    destruct E as (d & -> & H). exists [], d. auto.
  - destruct (Re.m_nodes _ (c :: s)) as [[g r]|] eqn:E.
    + intros [= <- <-]. apply m_nodes_lit_num in E.
      destruct E as (d & -> & H). exists [], d. auto.
    + intros H. destruct (IH H) as (pre & d & -> & Hd).
      exists (c :: pre), d. auto.
Qed.

(** ** _extract_flat_url_and_id *)

(** X7.  What [_extract_flat_url_and_id] returns: the URL is never
    relative; the identifier is empty exactly when the URL has no [/flat/]
    followed by a digit, and otherwise it is the whole run of digits that
    follows a [/flat/] of the URL. *)
Theorem flat_id_is_the_number_in_the_url (card : Card) (url flat_id : pystr) :
  _extract_flat_url_and_id card = Ok (url, flat_id) ->
  startswith url (u "/") = false
  /\ (flat_id = [] <->
      forall pre c rest,
        url = pre ++ u "/flat/" ++ c :: rest -> is_digit c = false)
  /\ (flat_id <> [] ->
      digits flat_id
      /\ exists pre rest,
          url = pre ++ u "/flat/" ++ flat_id ++ rest /\ stops is_digit rest).
Proof.
  unfold _extract_flat_url_and_id. intros H.
  bind_inv H as (first & _ & H). bind_inv H as (link & _ & H).
  destruct link as [l|].
  2:{ injection H as <- <-. repeat split; try congruence.
      intros _ pre c rest Hurl. destruct pre; discriminate. }
  bind_inv H as (href & _ & H).
  set (url0 := match href with Some h => h | None => [] end) in H.
  set (url1 := if startswith url0 (u "/") then u "https://www.cian.ru" ++ url0
               else url0) in H.
  assert (Hrel : startswith url1 (u "/") = false).
  { subst url1. destruct (startswith url0 (u "/")) eqn:E; [reflexivity|].
    exact E. }
  destruct (Re.search re_flat_id url1) as [m|] eqn:E.
  - injection H as <- <-. split; [exact Hrel|].
    unfold Re.search, re_flat_id in E.
    destruct (Re.search_from _ url1) as [[gs rest]|] eqn:Es; [|discriminate].
    injection E as <-. apply search_from_lit_num in Es.
    destruct Es as (pre & d & Hurl & -> & Hd & Hrest).
    change (Re.group 1 [d]) with d. split.
    + split.
      * intros ->. destruct Hd as [Hne _]. congruence.
      * intros Hno. exfalso. destruct Hd as [Hne Hd].
        destruct d as [|c d]; [congruence|].
        simpl in Hd. apply andb_prop in Hd. destruct Hd as [Hc _].
        rewrite (Hno pre c (d ++ rest)) in Hc; [discriminate|].
        rewrite Hurl. reflexivity.
    + intros _. split; [exact Hd|]. exists pre, rest. auto.
  - injection H as <- <-. split; [exact Hrel|]. split; [|congruence].
    split; [|reflexivity]. intros _ pre c rest Hurl.
    destruct (is_digit c) eqn:Hc; [|reflexivity]. exfalso.
    pose proof (proj1 (search_None re_flat_id url1) E [[c]]) as Hn.
    apply Hn. exists pre, (u "/flat/" ++ [c]), rest.
    split; [rewrite Hurl, <- !app_assoc; reflexivity|].
    unfold re_flat_id.
    assert (Hm : forall t w, w = t ++ [c] ->
                 matches (Re.lit t ++ [grp_num]) w rest [[c]]).
    { induction t as [|x t IH]; intros w ->.
      - exists [c], [], []. repeat split. exists [c], [].
        repeat split; simpl; try lia. unfold Re.digit. rewrite Hc.
        reflexivity.
      - exists [x], (t ++ [c]). split; [reflexivity|]. split.
        + repeat split; simpl; try lia. rewrite N.eqb_refl. reflexivity.
        + apply IH. reflexivity. }
    apply Hm. reflexivity.
Qed.

Lemma flat_id_is_the_number_in_the_url_witness :
  startswith (u "https://www.cian.ru/sale/flat/7/") (u "/") = false
  /\ digits (u "7").
Proof.
  pose proof (flat_id_is_the_number_in_the_url (Example.card "7")
                (u "https://www.cian.ru/sale/flat/7/") (u "7"))
    as H.
  destruct H as (Hrel & _ & Hid); [vm_compute; reflexivity|].
  split; [exact Hrel|]. apply Hid. discriminate.
Defined.

(** ** _extract_valid_flat_ids *)

Lemma not_brace_run (r : Re.rep) (x : pystr) :
  Re.cls r = Re.noneof [Re.chr "}"] -> run_in r x -> ~ In closing_brace x.
Proof.
  intros Hcls [Hall _] Hin. rewrite Hcls in Hall.
  rewrite forallb_forall in Hall. specialize (Hall _ Hin).
  vm_compute in Hall. discriminate.
Qed.

(** The matches [re.findall] returns are matches of the pattern at a
    place of the string. *)
Lemma findall_matched (p : Re.pattern) (s : pystr) :
  Forall (fun gs => exists pre t rest,
              s = pre ++ t /\ Re.m_nodes p t = Some (gs, rest))
         (Re.findall p s).
Proof.
  unfold Re.findall. generalize 0 as skip.
  induction s as [|c s IH]; intros skip; simpl.
  - destruct skip; [|constructor].
    destruct (Re.m_nodes p []) as [[g r]|] eqn:E; constructor.
    + exists [], [], r. auto.
    + constructor.
  - assert (Hup : forall k,
               Forall (fun gs => exists pre t rest,
                           c :: s = pre ++ t
                           /\ Re.m_nodes p t = Some (gs, rest))
                      (Re.findall_aux p k s)).
    { intros k. eapply Forall_impl; [|apply IH].
      intros gs (pre & t & rest & -> & H). exists (c :: pre), t, rest. auto. }
    destruct skip; [|apply Hup].
    destruct (Re.m_nodes p (c :: s)) as [[g r]|] eqn:E.
    + constructor; [|apply Hup]. exists [], (c :: s), r. auto.
    + apply Hup.
Qed.

(** A run of a class, in a string split in two ways. *)
Lemma run_prefix (f : char -> bool) (g : pystr) :
  forall x t s' : pystr,
    forallb f g = true -> forallb f x = true -> stops f t ->
    x ++ t = g ++ s' -> exists d, x = g ++ d /\ s' = d ++ t.
Proof.
  induction g as [|a g IH]; intros x t s' Hg Hx Ht Heq.
  - exists x. auto.
  - cbn [forallb] in Hg. apply andb_prop in Hg. destruct Hg as [Ha Hg].
    destruct x as [|b x].
    + cbn [app] in Heq. subst t. cbn [stops] in Ht. congruence.
    + cbn [app] in Heq. injection Heq as -> Heq.
      cbn [forallb] in Hx. apply andb_prop in Hx. destruct Hx as [_ Hx].
      destruct (IH x t s' Hg Hx Ht Heq) as (d & -> & ->).
      exists d. auto.
Qed.

Lemma run_before (f : char -> bool) (d : pystr) :
  forall (t m : pystr) (c0 : char) (rest : pystr),
    forallb f d = true -> f c0 = false ->
    d ++ t = m ++ c0 :: rest -> exists m', m = d ++ m' /\ t = m' ++ c0 :: rest.
Proof.
  induction d as [|a d IH]; intros t m c0 rest Hd Hc Heq.
  - exists m. auto.
  - cbn [forallb] in Hd. apply andb_prop in Hd. destruct Hd as [Ha Hd].
    destruct m as [|b m].
    + cbn [app] in Heq. injection Heq as -> _. congruence.
    + cbn [app] in Heq. injection Heq as -> Heq.
      destruct (IH t m c0 rest Hd Hc Heq) as (m' & -> & ->).
      exists m'. auto.
Qed.

(** A greedy group [(x+)] takes the whole run of its class, when what
    follows it in the pattern matches as well after more of the run. *)
Lemma m_nodes_grp_longest (f : Re.cclass) (p : Re.pattern) (s : pystr)
  (gs : list pystr) (rest : pystr) :
  (forall d t : pystr,
      forallb f d = true -> Re.m_nodes p (d ++ t) <> None ->
      Re.m_nodes p t <> None) ->
  Re.m_nodes (Re.Grp [Re.plus f] :: p) s = Some (gs, rest) ->
  exists x t gs',
    s = x ++ t /\ x <> [] /\ forallb f x = true /\ stops f t
    /\ gs = x :: gs' /\ Re.m_nodes p t = Some (gs', rest).
Proof.
  intros Hcont H.
  destruct (longest_run f s) as (x & t & -> & Hx & Ht).
  assert (Hne : x <> []).
  { intros ->. cbn [app] in H.
    rewrite (m_nodes_grp_stops (Re.plus f) [] p t Ht) in H;
      [discriminate | cbn; lia]. }
  pose proof H as H0. cbn [Re.m_nodes Re.m_reps] in H0.
  apply try_rep_run in H0. destruct H0 as (g & s' & Heq & [Hg _] & Hk).
  cbn [Re.plus Re.cls] in Hg.
  destruct (run_prefix f g x t s' Hg Hx Ht Heq) as (d & Hxd & ->).
  assert (Hd : forallb f d = true).
  { rewrite Hxd, forallb_app in Hx. apply andb_prop in Hx. apply Hx. }
  assert (Hp : Re.m_nodes p t <> None).
  { apply (Hcont d t Hd). destruct (Re.m_nodes p (d ++ t)); congruence. }
  destruct (Re.m_nodes p t) as [[gs2 rest2]|] eqn:E; [|congruence].
  rewrite (m_nodes_grp_plus f p x t gs2 rest2 Hne Hx Ht E) in H.
  injection H as <- <-. exists x, t, gs2. auto 10.
Qed.

(** What follows the run in the pattern: any characters, then a literal
    that does not start with a character of the run. *)
Lemma m_nodes_star_lit_skip (f : Re.cclass) (r : Re.rep) (c0 : char)
  (l : pystr) (p : Re.pattern) (d t : pystr) :
  Re.lo r = 0 -> Re.hi r = None -> f c0 = false -> forallb f d = true ->
  Re.m_nodes (Re.Rep r :: Re.lit (c0 :: l) ++ p) (d ++ t) <> None ->
  Re.m_nodes (Re.Rep r :: Re.lit (c0 :: l) ++ p) t <> None.
Proof.
  intros Hlo Hhi Hc Hd H.
  destruct (Re.m_nodes _ (d ++ t)) as [[gs rest]|] eqn:E; [|congruence].
  clear H. apply m_nodes_matches in E. destruct E as (w & Hw & Hm).
  destruct Hm as (m & y & -> & [Hall _] & Hm).
  pose proof (matches_lit (c0 :: l) p y rest gs Hm) as (y' & Hy & _).
  rewrite Hy in Hw. rewrite <- !app_assoc in Hw. cbn [app] in Hw.
  destruct (run_before f d t m c0 _ Hd Hc Hw) as (m' & -> & ->).
  replace (m' ++ c0 :: l ++ y' ++ rest) with ((m' ++ y) ++ rest)
    by (rewrite Hy, <- !app_assoc; reflexivity).
  apply (m_nodes_complete _ (m' ++ y) rest gs).
  exists m', y. split; [reflexivity|]. split; [|exact Hm].
  rewrite forallb_app in Hall. apply andb_prop in Hall.
  repeat split; [apply Hall | rewrite Hlo; lia | rewrite Hhi; exact I].
Qed.

Lemma re_cian_parent_eq :
  re_cian_parent
  = Re.lit (q "`cianId`:")
    ++ Re.Grp [Re.plus Re.digit]
       :: Re.Rep (Re.star_lazy (Re.noneof [Re.chr "}"]))
       :: Re.lit (dquote :: q "parentId`:") ++ [grp_num].
Proof. reflexivity. Qed.

(** A match of the pattern of [_extract_valid_flat_ids]: each group is
    the whole run of digits at its place. *)
Lemma m_nodes_cian_parent (t : pystr) (gs : list pystr) (rest : pystr) :
  Re.m_nodes re_cian_parent t = Some (gs, rest) ->
  exists x mid parent,
    gs = [x; parent] /\ digits x /\ digits parent
    /\ t = q "`cianId`:" ++ x ++ mid ++ q "`parentId`:" ++ parent ++ rest
    /\ ~ In closing_brace mid /\ stops is_digit mid /\ stops is_digit rest.
Proof.
  rewrite re_cian_parent_eq. intros H.
  destruct (startswith t (q "`cianId`:")) eqn:Es;
    [|rewrite (m_nodes_lit_fail _ _ t Es) in H; discriminate].
  apply startswith_inv in Es. destruct Es as [t1 ->].
  rewrite m_nodes_lit in H.
  apply m_nodes_grp_longest in H.
  2:{ intros d t' Hd.
      apply (m_nodes_star_lit_skip Re.digit); try reflexivity; exact Hd. }
  destruct H as (x & t2 & gs' & -> & Hne & Hx & Ht2 & -> & H).
  cbn [Re.m_nodes] in H. apply try_rep_run in H.
  destruct H as (mid & s' & -> & Hmid & H).
  apply m_nodes_lit_num in H. destruct H as (d & -> & -> & Hd & Hrest).
  exists x, mid, d. split; [reflexivity|]. split; [split; assumption|].
  split; [exact Hd|]. split; [reflexivity|]. split; [|split].
  - apply (not_brace_run (Re.star_lazy (Re.noneof [Re.chr "}"])) mid eq_refl
             Hmid).
  - destruct mid; [exact I | exact Ht2].
  - exact Hrest.
Qed.

Lemma valid_ids_sound (html jk_id x : pystr) :
  In x (_extract_valid_flat_ids html jk_id) ->
  digits x /\ digits jk_id
  /\ exists pre mid rest,
      html = pre ++ q "`cianId`:" ++ x ++ mid ++ q "`parentId`:" ++ jk_id
             ++ rest
      /\ ~ In closing_brace mid /\ stops is_digit mid
      /\ stops is_digit rest.
Proof.
  intros Hin. unfold _extract_valid_flat_ids in Hin.
  apply in_map_iff in Hin. destruct Hin as (m & <- & Hm).
  apply filter_In in Hm. destruct Hm as [Hm Heq].
  pose proof (findall_matched re_cian_parent html) as Hall.
  rewrite Forall_forall in Hall.
  destruct (Hall m Hm) as (pre & t & rest & -> & Ht).
  apply m_nodes_cian_parent in Ht.
  destruct Ht as (x & mid & parent & -> & Hx & Hp & -> & Hb & Hs1 & Hs2).
  change (Re.group 2 [x; parent]) with parent in Heq.
  change (Re.group 1 [x; parent]) with x.
  apply str_eqb_eq in Heq. subst parent.
  split; [exact Hx|]. split; [exact Hp|]. exists pre, mid, rest. auto.
Qed.

Lemma valid_ids_none (html jk_id : pystr) :
  ~ digits jk_id -> _extract_valid_flat_ids html jk_id = [].
Proof.
  intros Hn.
  destruct (_extract_valid_flat_ids html jk_id) as [|x l] eqn:E;
    [reflexivity|].
  exfalso. apply Hn. apply (valid_ids_sound html jk_id x). rewrite E.
  left. reflexivity.
Qed.

(** X8.  Every identifier of the set [_extract_valid_flat_ids] returns is
    the number the document gives as a [cianId] (the whole run of digits
    after the key) followed, with no closing brace in between, by a
    [parentId] whose number (the whole run of digits again) is the
    identifier asked for; so for an identifier that is not a string of
    digits the set is empty. *)
Theorem valid_ids_have_the_parent_asked_for (html jk_id : pystr) :
  (forall x,
      In x (_extract_valid_flat_ids html jk_id) ->
      digits x /\ digits jk_id
      /\ exists pre mid rest,
          html = pre ++ q "`cianId`:" ++ x ++ mid ++ q "`parentId`:" ++ jk_id
                 ++ rest
          /\ ~ In closing_brace mid /\ stops is_digit mid
          /\ stops is_digit rest)
  /\ (~ digits jk_id -> _extract_valid_flat_ids html jk_id = []).
Proof.
  split; [apply valid_ids_sound | apply valid_ids_none].
Qed.

Lemma valid_ids_have_the_parent_asked_for_witness :
  digits (u "7")
  /\ _extract_valid_flat_ids (q "{`cianId`:7,`parentId`:42}") (u "ЖК") = [].
Proof.
  split.
  - pose proof (valid_ids_have_the_parent_asked_for
                  (q "{`cianId`:7,`parentId`:42}") (u "42")) as [H _].
    apply (H (u "7")). vm_compute. auto.
  - pose proof (valid_ids_have_the_parent_asked_for
                  (q "{`cianId`:7,`parentId`:42}") (u "ЖК")) as [_ H].
    apply H. intros [_ Hd]. vm_compute in Hd. discriminate.
Defined.

(** ** The filter of [_parse_flat_card] *)

(** X9.  The identifiers of the page filter its cards only when there are
    some.  A card whose identifier is not among them is dropped; a card
    whose identifier is among them is treated as with no filter at all; and
    when the identifier of the complex is not a string of digits no page
    filters anything: all its cards are parsed as with an empty set. *)
Theorem an_empty_set_filters_nothing (jk : JK.t)
  (layouts_by_id : dict Flat.t) :
  (forall card valid_ids url flat_id,
      _extract_flat_url_and_id card = Ok (url, flat_id) ->
      valid_ids <> [] -> set_mem flat_id valid_ids = false ->
      _parse_flat_card card jk layouts_by_id valid_ids = None)
  /\ (forall card valid_ids url flat_id,
         _extract_flat_url_and_id card = Ok (url, flat_id) ->
         set_mem flat_id valid_ids = true ->
         _parse_flat_card card jk layouts_by_id valid_ids
         = _parse_flat_card card jk layouts_by_id [])
  /\ (~ digits (JK.id jk) ->
      forall page,
        page_loads page ->
        _parse_flats_page page jk layouts_by_id
        = Ok (flats_of_cards (cards_of page) jk layouts_by_id [])).
Proof.
  split; [|split].
  - intros card valid_ids url flat_id Hid Hne Hmem.
    unfold _parse_flat_card, parse_flat_card_body.
    rewrite Hid. cbn [bind].
    destruct flat_id as [|c flat_id]; [reflexivity|].
    destruct valid_ids as [|v valid_ids]; [congruence|].
    rewrite Hmem. reflexivity.
  - intros card valid_ids url flat_id Hid Hmem.
    unfold _parse_flat_card, parse_flat_card_body.
    rewrite Hid. cbn [bind].
    destruct flat_id as [|c flat_id]; [reflexivity|].
    destruct valid_ids as [|v valid_ids]; [discriminate|].
    rewrite Hmem. reflexivity.
  - intros Hn page [[html Hc] (cards & Hl & Hcs)].
    unfold _parse_flats_page, cards_of. rewrite Hc, Hl. cbn [bind].
    rewrite (valid_ids_none html (JK.id jk) Hn).
    destruct cards as [|c cards]; [|reflexivity].
    destruct (Hcs eq_refl) as [cs ->]. reflexivity.
Qed.

Lemma an_empty_set_filters_nothing_witness :
  _parse_flat_card (Example.card "7") Example.jk [] [u "8"] = None
  /\ _parse_flat_card (Example.card "7") Example.jk [] [u "7"]
     = _parse_flat_card (Example.card "7") Example.jk [] [].
Proof.
  pose proof (an_empty_set_filters_nothing Example.jk []) as (H8 & H7 & _).
  split.
  - apply (H8 _ _ (u "https://www.cian.ru/sale/flat/7/") (u "7"));
      [vm_compute; reflexivity | discriminate | vm_compute; reflexivity].
  - apply (H7 _ _ (u "https://www.cian.ru/sale/flat/7/") (u "7"));
      vm_compute; reflexivity.
Defined.

(** ** _parse_price *)

Lemma replace_char_empty (c : char) (s : pystr) :
  replace s [c] [] = filter (fun x => negb (c =? x)%N) s.
Proof.
  unfold replace. induction s as [|x s IH]; cbn [replace_aux filter];
    [reflexivity|].
  cbn [startswith]. rewrite startswith_nil, andb_true_r.
  destruct (c =? x)%N; cbn [negb length Nat.sub app]; [|f_equal]; exact IH.
Qed.

Lemma nbsp_to_space (s : pystr) :
  replace s nbsp (u " ") = map nbsp_as_space s.
Proof. apply (replace_char 160%N 32%N). Qed.

Section StarStops.
Variable A : Type.

Lemma try_rep_star_stops (f : Re.cclass) (s : pystr)
  (k : pystr -> option A) :
  stops f s -> Re.try_rep (Re.star f) s k = k s.
Proof.
  intros Hs. unfold Re.try_rep. rewrite (span_stops _ _ _ Hs). simpl.
  destruct (k s); reflexivity.
Qed.
End StarStops.

Lemma price_char_cases (c : char) :
  price_char c = is_digit c || is_space c.
Proof.
  unfold price_char, Re.oneof, Re.digit, Re.space. cbn [existsb].
  rewrite orb_false_r. reflexivity.
Qed.

Lemma re_price_rub_eq :
  re_price_rub
  = Re.Grp [Re.plus price_char] :: Re.Rep (Re.star Re.space)
    :: Re.lit [ruble] ++ [].
Proof. reflexivity. Qed.

(** The pattern matches a run of digits and blanks that stands before the
    ruble sign. *)
Lemma m_nodes_price_here (run post : pystr) :
  run <> [] -> forallb price_char run = true ->
  Re.m_nodes re_price_rub (run ++ [ruble] ++ post) = Some ([run], post).
Proof.
  intros Hne Hrun. rewrite re_price_rub_eq.
  apply m_nodes_grp_plus; try assumption; [reflexivity|].
  cbn [Re.m_nodes]. rewrite try_rep_star_stops by reflexivity.
  apply (m_nodes_lit [ruble] [] post).
Qed.

(** It matches nowhere before: its match would reach a ruble sign over
    digits and blanks only. *)
Lemma m_nodes_price_before (s : pystr) (r : list pystr * pystr) :
  Re.m_nodes re_price_rub s = Some r ->
  exists a rest, s = a ++ [ruble] ++ rest /\ forallb price_char a = true.
Proof.
  destruct r as [gs rest]. intros H.
  apply m_nodes_matches in H. destruct H as (w & -> & Hm).
  rewrite re_price_rub_eq in Hm.
  destruct Hm as (g & y & gs' & -> & _ & Hg & (sp & y' & -> & Hsp & Hm)).
  apply matches_lit in Hm. destruct Hm as (y2 & -> & ->  & _).
  apply text_in_plus in Hg. destruct Hg as [_ Hg]. destruct Hsp as [Hsp _].
  exists (g ++ sp), rest. rewrite <- !app_assoc. split; [reflexivity|].
  rewrite forallb_app, Hg. cbn [andb Re.cls Re.star] in *.
  rewrite forallb_forall in *. intros c Hc. rewrite price_char_cases.
  unfold Re.space in Hsp. rewrite (Hsp c Hc). apply orb_true_r.
Qed.

Lemma no_price_before (pre tail : pystr) (i : nat) :
  ~ In ruble pre -> stops price_char (rev pre) -> i < length pre ->
  forallb price_char (firstn 0 tail) = true ->
  Re.m_nodes re_price_rub (skipn i (pre ++ tail)) = None.
Proof.
  intros Hr Hlast Hi _.
  destruct (Re.m_nodes re_price_rub (skipn i (pre ++ tail))) as [r|] eqn:E;
    [|reflexivity].
  exfalso. apply m_nodes_price_before in E.
  destruct E as (a & rest & E & Ha).
  rewrite skipn_app in E.
  replace (i - length pre) with 0 in E by lia. cbn [skipn] in E.
  (* the part of [pre] that is left ends with a character outside *)
  assert (Hp : exists p c, skipn i pre = p ++ [c] /\ price_char c = false
                           /\ ~ In ruble (p ++ [c])).
  { destruct (rev pre) as [|c rp] eqn:Erev.
    - apply (f_equal (@length _)) in Erev. rewrite length_rev in Erev.
      simpl in Erev. lia.
    - assert (Hpre : pre = rev rp ++ [c]).
      { rewrite <- (rev_involutive pre), Erev. reflexivity. }
      exists (skipn i (rev rp)), c. rewrite Hpre, skipn_app.
      rewrite Hpre, length_app in Hi. simpl in Hi.
      replace (i - length (rev rp)) with 0 by lia. cbn [skipn].
      split; [reflexivity|]. split; [exact Hlast|].
      intros Hin. apply Hr. rewrite Hpre.
      apply in_app_or in Hin. apply in_or_app.
      destruct Hin as [Hin|Hin]; [left|right; exact Hin].
      rewrite <- (firstn_skipn i (rev rp)). apply in_or_app. right.
      exact Hin. }
  destruct Hp as (p & c & Hp & Hc & Hno). rewrite Hp in E.
  rewrite <- app_assoc in E. apply app_eq_app in E.
  destruct E as (l & [[E1 E2]|[E1 E2]]).
  - (* the ruble sign of the match would stand in [pre] *)
    destruct l as [|x l].
    + rewrite app_nil_r in E1. subst p. cbn [app] in E2.
      injection E2 as E2 _. subst c. apply Hno, in_or_app. right. left.
      reflexivity.
    + cbn [app] in E2. injection E2 as <- _. apply Hno.
      rewrite E1. apply in_or_app. left. apply in_or_app. right. left.
      reflexivity.
  - (* or the match would pass the character outside *)
    destruct l as [|x l].
    + rewrite app_nil_r in E1. subst p. cbn [app] in E2.
      injection E2 as E2 _. subst c. apply Hno, in_or_app. right. left.
      reflexivity.
    + cbn [app] in E2. injection E2 as <- E2. rewrite E1 in Ha.
      rewrite forallb_app in Ha. cbn [forallb] in Ha.
      rewrite Hc in Ha. rewrite andb_false_r in Ha. discriminate.
Qed.

Lemma search_price_first (pre run post : pystr) :
  ~ In ruble pre -> stops price_char (rev pre) ->
  run <> [] -> forallb price_char run = true ->
  Re.search re_price_rub (pre ++ run ++ [ruble] ++ post) = Some [run].
Proof.
  intros Hr Hlast Hne Hrun. unfold Re.search.
  rewrite search_from_skip.
  - rewrite (search_from_here _ _ ([run], post)); [reflexivity|].
    apply m_nodes_price_here; assumption.
  - intros i Hi. apply no_price_before; auto.
Qed.

(** The digits of a run of digits and blanks. *)
Lemma digits_of_run (run : pystr) :
  forallb (fun c => is_digit c || blank c) run = true ->
  replace (map nbsp_as_space run) (u " ") [] = filter is_digit run
  /\ forallb price_char (map nbsp_as_space run) = true.
Proof.
  intros H. change (u " ") with [32%N]. rewrite replace_char_empty.
  induction run as [|c run IH]; [split; reflexivity|].
  cbn [forallb] in H. apply andb_prop in H. destruct H as [Hc H].
  destruct (IH H) as [IH1 IH2]. cbn [map filter forallb].
  rewrite IH1, IH2, andb_true_r. clear IH IH1 IH2.
  destruct (is_digit c) eqn:Ed.
  - assert (nbsp_as_space c = c) as ->.
    { unfold nbsp_as_space. destruct (160 =? c)%N eqn:E; [|reflexivity].
      apply N.eqb_eq in E. subst c. vm_compute in Ed. discriminate. }
    rewrite price_char_cases, Ed.
    destruct (32 =? c)%N eqn:E; [|split; reflexivity].
    apply N.eqb_eq in E. subst c. vm_compute in Ed. discriminate.
  - simpl in Hc. unfold blank in Hc. apply orb_prop in Hc.
    destruct Hc as [Hc|Hc]; apply N.eqb_eq in Hc; subst c; split; reflexivity.
Qed.

Lemma filter_digits (run : pystr) :
  existsb is_digit run = true -> digits (filter is_digit run).
Proof.
  intros H. split.
  - apply existsb_exists in H. destruct H as (c & Hin & Hc).
    intros Hnil. assert (Hf : In c (filter is_digit run))
      by (apply filter_In; auto).
    rewrite Hnil in Hf. destruct Hf.
  - apply forallb_forall. intros c Hc. apply filter_In in Hc. tauto.
Qed.

Lemma digits_isdigit (s : pystr) : digits s -> isdigit s = true.
Proof.
  intros [Hne Hd]. destruct s as [|c s]; [congruence|]. unfold isdigit.
  rewrite forallb_forall in *. intros x Hx. unfold char_isdigit.
  rewrite (Hd x Hx). reflexivity.
Qed.

(** X10.  [_parse_price] reads a price written before the ruble sign with
    spaces or no-break spaces between its digits: when no ruble sign stands
    before the run of digits and blanks and the character before the run
    is neither a digit nor a whitespace, the result is the number its
    digits write, whatever the card's price element says, and a
    [ValueError] when there are more than 4300 digits. *)
Theorem price_is_read_before_the_ruble_sign (card : Card)
  (pre run post : pystr) :
  ~ In ruble pre -> stops price_char (rev pre) ->
  forallb (fun c => is_digit c || blank c) run = true ->
  existsb is_digit run = true ->
  _parse_price card (pre ++ run ++ [ruble] ++ post)
  = if 4300 <? length (filter is_digit run) then Raise ValueError
    else Ok (number (filter is_digit run)).
Proof.
  intros Hr Hlast Hrun Hdig. unfold _parse_price, price_digits.
  rewrite nbsp_to_space, !map_app. cbn [map].
  change (nbsp_as_space ruble) with ruble.
  destruct (digits_of_run run Hrun) as [Hds Hpc].
  pose proof (filter_digits run Hdig) as Hd.
  rewrite (search_price_first (map nbsp_as_space pre) (map nbsp_as_space run)).
  - change (Re.group 1 [?g]) with g. rewrite Hds, (digits_isdigit _ Hd).
    apply int_of_str_digits, Hd.
  - intros Hin. apply in_map_iff in Hin. destruct Hin as (c & Hc & Hin).
    unfold nbsp_as_space in Hc. destruct (160 =? c)%N; [discriminate|].
    subst c. exact (Hr Hin).
  - rewrite <- map_rev. destruct (rev pre) as [|c rp]; [exact I|].
    cbn [map stops] in *. unfold nbsp_as_space.
    destruct (160 =? c)%N eqn:E; [|exact Hlast].
    apply N.eqb_eq in E. subst c. vm_compute in Hlast. discriminate.
  - apply existsb_exists in Hdig. destruct Hdig as (c & Hin & _).
    destruct run; [destruct Hin | discriminate].
  - exact Hpc.
Qed.

Lemma price_is_read_before_the_ruble_sign_witness :
  _parse_price (Example.card "7") (u "3/9 этаж, цена 5 000 000 ₽ за всё")
  = Ok 5000000%Z.
Proof.
  apply (price_is_read_before_the_ruble_sign (Example.card "7")
           (u "3/9 этаж, цена") (u " 5 000 000 ") (u " за всё"));
    try (vm_compute; reflexivity).
  vm_compute. intuition discriminate.
Defined.

(* ================================================================== *)
(** * The layouts, the records and the run *)
(* ================================================================== *)

(** ** _extract_flats_from_layouts *)

Lemma lang_plus (f : Re.cclass) (w : pystr) :
  lang [Re.plus f] w -> w <> [] /\ forallb f w = true.
Proof.
  simpl. intros (x & y & -> & (Hall & Hlo) & ->). rewrite app_nil_r.
  simpl in *. split; [|exact Hall]. destruct x; simpl in *; [lia|discriminate].
Qed.



Lemma int_of_str_Raise (s : pystr) (e : exn) :
  int_of_str s = Raise e -> e = ValueError.
Proof.
  unfold int_of_str.
  destruct (drop_underscores None (num_strip s)) as [s1|];
    [|intros [= <-]; reflexivity].
  destruct (split_sign s1) as [neg body].
  destruct body as [|c body]; [intros [= <-]; reflexivity|].
  destruct (digit_values (c :: body)) as [ds|]; [|intros [= <-]; reflexivity].
  destruct (int_max_str_digits <? length ds); [|discriminate].
  intros [= <-]. reflexivity.
Qed.





Lemma for_each_Raise {A B} (f : A -> result B) (e : exn) :
  forall xs, for_each f xs = Raise e -> exists x, In x xs /\ f x = Raise e.
Proof.
  induction xs as [|x xs IH]; simpl; [discriminate|].
  destruct (f x) as [y|e'] eqn:Ey; simpl.
  - destruct (for_each f xs) as [ys|e'']; simpl; [discriminate|].
    intros [= ->]. destruct (IH eq_refl) as (x' & Hin & Hx'). eauto.
  - intros [= ->]. eauto.
Qed.



(** X12.  The layout extractor raises nothing but a [ValueError] (an area
    that is not a number, a run of more than 4300 digits), and
    [_parse_flats] then fails with it before it has touched the browser. *)
Theorem a_bad_layout_fails_the_run_at_once (html : pystr) (jk : JK.t)
  (e : exn) :
  _extract_flats_from_layouts html jk = Raise e ->
  e = ValueError
  /\ forall site, _parse_flats site jk html = ([], Raise ValueError).
Proof.
  intros H.
  assert (He : e = ValueError).
  { unfold _extract_flats_from_layouts in H. apply for_each_Raise in H.
    destruct H as (m & _ & H). unfold layout_flat in H.
    destruct (parse_rooms _) as [rooms|e1] eqn:E1; simpl in H.
    - destruct (parse_area _) as [area|e2] eqn:E2; simpl in H.
      + destruct (int_of_str _) as [price|e3] eqn:E3; simpl in H;
          [discriminate|].
        injection H as <-. eapply int_of_str_Raise, E3.
      + injection H as <-. eapply parse_area_Raise, E2.
    - injection H as <-. eapply parse_rooms_Raise, E1. }
  subst e. split; [reflexivity|]. intros site.
  unfold _parse_flats. rewrite H. reflexivity.
Qed.

Lemma a_bad_layout_fails_the_run_at_once_witness :
  _parse_flats Example.site_one Example.jk
    (Example.layout_json "7" "1,234,5" "5000000")
  = ([], Raise ValueError).
Proof.
  apply (a_bad_layout_fails_the_run_at_once
           (Example.layout_json "7" "1,234,5" "5000000") Example.jk
           ValueError).
  vm_compute. reflexivity.
Defined.

(** ** The layouts by identifier *)

(** X13.  The dictionary of the layouts gives, for an identifier, the last
    candidate of the list that has it (a later candidate replaces an
    earlier one with the same identifier), and nothing for an identifier no
    candidate has; the record of a card is merged with that candidate. *)
Theorem the_last_layout_of_an_id_is_used (layouts_flats : list Flat.t) :
  (forall k,
      dict_get k (index_by_id layouts_flats) = last_with_id k layouts_flats)
  /\ (forall k,
         dict_get k (index_by_id layouts_flats) = None
         <-> Forall (fun f => Flat.id f <> k) layouts_flats)
  /\ (forall card jk valid_ids f,
         _parse_flat_card card jk (index_by_id layouts_flats) valid_ids
         = Some f ->
         exists text,
           _merge_with_layout card text
             (last_with_id (Flat.id f) layouts_flats) jk
           = Ok (Flat.address f, Flat.house_status f, Flat.images f,
                 Flat.year_built f)).
Proof.
  assert (Hget : forall k, dict_get k (index_by_id layouts_flats)
                           = last_with_id k layouts_flats).
  { intros k. unfold index_by_id. rewrite dict_get_fold.
    destruct (last_with_id k layouts_flats); reflexivity. }
  split; [exact Hget|]. split.
  - intros k. rewrite Hget. unfold last_with_id. split.
    + intros H. apply Forall_forall. intros f Hin Hid.
      apply in_rev in Hin. pose proof (find_none _ _ H f Hin) as Hf.
      simpl in Hf. subst k. rewrite str_eqb_refl in Hf. discriminate.
    + intros H. destruct (find _ (rev layouts_flats)) as [f|] eqn:E;
        [|reflexivity].
      apply find_some in E. destruct E as [Hin Hk].
      apply in_rev in Hin. rewrite Forall_forall in H.
      apply str_eqb_eq in Hk. exfalso. apply (H f Hin). auto.
  - intros card jk valid_ids f Hf.
    apply _parse_flat_card_merged in Hf. destruct Hf as (text & Hm).
    exists text. rewrite <- Hget. exact Hm.
Qed.

Lemma the_last_layout_of_an_id_is_used_witness :
  dict_get (u "7") (index_by_id [layout_X; layout_none]) = Some layout_none
  /\ Forall (fun f => Flat.id f <> u "8") [layout_X; layout_none].
Proof.
  pose proof (the_last_layout_of_an_id_is_used [layout_X; layout_none])
    as (Hget & Hnone & _).
  split.
  - rewrite Hget. vm_compute. reflexivity.
  - apply Hnone. vm_compute. reflexivity.
Defined.

(** ** The record of a card *)

Lemma groups_ok_lit_end (l : pystr) (gs : list pystr) :
  groups_ok (Re.lit l) gs = (gs = []).
Proof. induction l as [|c l IH]; [reflexivity | exact IH]. Qed.

Lemma floors_groups (m : list pystr) :
  groups_ok re_floors m -> exists a b, m = [a; b] /\ digits a /\ digits b.
Proof.
  unfold re_floors, grp_num. cbn [app groups_ok].
  setoid_rewrite groups_ok_lit_end.
  intros (a & m1 & -> & Ha & b & m2 & -> & Hb & ->).
  apply lang_plus in Ha, Hb. exists a, b. auto.
Qed.

Lemma int_of_str_digits_Ok (s : pystr) (n : Z) :
  digits s -> int_of_str s = Ok n -> (0 <= n)%Z.
Proof.
  intros Hs. rewrite (int_of_str_digits s Hs).
  destruct (int_max_str_digits <? length s); [discriminate|].
  intros [= <-]. apply number_nonneg.
Qed.

Lemma _parse_card_data_counts (card : Card) (text : pystr)
  (rooms floor floors_total price : Z) (area : float) :
  _parse_card_data card text = Ok (rooms, area, floor, floors_total, price) ->
  (0 <= rooms)%Z /\ (0 <= floor)%Z /\ (0 <= floors_total)%Z.
Proof.
  unfold _parse_card_data. intros H.
  bind_inv H as (rooms' & Hrooms & H).
  bind_inv H as (area' & _ & H).
  bind_inv H as ([fl ft] & Hfl & H).
  bind_inv H as (price' & _ & H).
  injection H as -> -> -> -> ->.
  split; [eapply parse_rooms_Ok, Hrooms|].
  destruct (Re.search re_floors text) as [m|] eqn:E.
  - apply search_groups, floors_groups in E.
    destruct E as (a & b & -> & Ha & Hb).
    change (Re.group 1 [a; b]) with a in Hfl.
    change (Re.group 2 [a; b]) with b in Hfl.
    bind_inv Hfl as (x & Hx & Hfl). bind_inv Hfl as (y & Hy & Hfl).
    injection Hfl as <- <-.
    split; [exact (int_of_str_digits_Ok a x Ha Hx)
           | exact (int_of_str_digits_Ok b y Hb Hy)].
  - injection Hfl as <- <-. split; lia.
Qed.

Lemma _merge_with_layout_rest (card : Card) (text : pystr)
  (layout : option Flat.t) (jk : JK.t) address status images year :
  _merge_with_layout card text layout jk = Ok (address, status, images, year) ->
  normalize_status status = status /\ status <> Some []
  /\ (year = Some 0%Z -> JK.year_built jk = Some 0%Z)
  /\ images = match layout with Some l => Flat.images l | None => [] end.
Proof.
  unfold _merge_with_layout. intros H.
  bind_inv H as (addr_el & _ & H). bind_inv H as (addr & _ & H).
  injection H as _ <- <- <-.
  split; [apply normalize_status_idem|].
  split; [apply normalize_status_not_empty|].
  split; [|reflexivity].
  destruct layout as [l|]; [|auto].
  destruct (Flat.year_built l) as [y|]; [|auto].
  destruct (y =? 0)%Z eqn:E; [auto|].
  intros [= ->]. discriminate.
Qed.

(** X14.  The record a card gives: its identifier is not empty; its
    numbers of rooms and of floors are not negative; its status is a
    normalized one, never the empty string; its year is never 0 unless the
    development's is; and its images are those of the layout candidate
    with its identifier, none when there is no such candidate. *)
Theorem card_records_are_well_formed (card : Card) (jk : JK.t)
  (layouts_by_id : dict Flat.t) (valid_ids : list pystr) (f : Flat.t) :
  _parse_flat_card card jk layouts_by_id valid_ids = Some f ->
  Flat.id f <> []
  /\ (0 <= Flat.rooms f)%Z /\ (0 <= Flat.floor f)%Z
  /\ (0 <= Flat.floors_total f)%Z
  /\ normalize_status (Flat.house_status f) = Flat.house_status f
  /\ Flat.house_status f <> Some []
  /\ (Flat.year_built f = Some 0%Z -> JK.year_built jk = Some 0%Z)
  /\ Flat.images f
     = match dict_get (Flat.id f) layouts_by_id with
       | Some l => Flat.images l
       | None => []
       end.
Proof.
  unfold _parse_flat_card.
  destruct (parse_flat_card_body _ _ _ _) as [[g|]|e] eqn:E;
    try discriminate.
  intros [= ->]. revert E. unfold parse_flat_card_body. intros H.
  bind_inv H as ([url flat_id] & _ & H).
  destruct flat_id as [|c flat_id]; [discriminate|].
  destruct (match valid_ids with [] => false | _ :: _ => _ end);
    [discriminate|].
  bind_inv H as (title_text & _ & H).
  bind_inv H as ([[[[rooms area] floor] floors_total] price] & Hdata & H).
  destruct (feqb area fzero || (price =? 0)%Z); [discriminate|].
  bind_inv H as ([[[address house_status] images] year_built] & Hm & H).
  injection H as <-. cbn.
  apply _parse_card_data_counts in Hdata.
  apply _merge_with_layout_rest in Hm.
  split; [discriminate|]. tauto.
Qed.

Lemma card_records_are_well_formed_witness :
  Flat.images Example.flat7 = Flat.images Example.layout7
  /\ (0 <= Flat.floor Example.flat7)%Z.
Proof.
  pose proof (card_records_are_well_formed (Example.card "7") Example.jk
                (index_by_id [Example.layout7]) [] Example.flat7) as H.
  destruct H as (_ & _ & Hfl & _ & _ & _ & _ & Him);
    [vm_compute; reflexivity|].
  split; [|exact Hfl]. rewrite Him. vm_compute. reflexivity.
Defined.

(** ** The cards of a page *)




(** ** What the enrichment writes *)



(** ** The order of the run *)

Lemma page_turn_events site jk layouts_by_id page_num flats :
  Forall listing_event (fst (page_turn site jk layouts_by_id page_num flats)).
Proof.
  unfold page_turn. simpl.
  destruct (_parse_flats_page _ _ _) as [pf|]; simpl;
    [|repeat constructor].
  destruct (q_next_btn _) as [[btn|]|]; simpl; try (repeat constructor).
  destruct (is_visible btn) as [[|]|]; simpl; try (repeat constructor).
  destruct (click btn) as [[]|]; simpl; try (repeat constructor).
  destruct (settled btn) as [[]|]; simpl; repeat constructor.
Qed.

Lemma pages_loop_events site jk layouts_by_id :
  forall page_num flats,
    Forall listing_event
           (fst (pages_loop site jk layouts_by_id page_num flats)).
Proof.
  intros page_num. pattern page_num. apply pages_loop_ind.
  clear page_num. intros page_num IH flats.
  rewrite pages_loop_eq.
  destruct (Z_le_gt_dec page_num max_pages) as [Hle|Hgt]; [|constructor].
  pose proof (page_turn_events site jk layouts_by_id page_num flats) as Hp.
  destruct (page_turn site jk layouts_by_id page_num flats)
    as [t1 [[flats' [|]]|e]]; cbn [fst] in *; try exact Hp.
  specialize (IH Hle flats').
  destruct (pages_loop site jk layouts_by_id (page_num + 1) flats')
    as [t2 r]. cbn [fst] in *. apply Forall_app. auto.
Qed.

Lemma enriched_urls site jk flats :
  forall i, map Flat.url (enriched site jk i flats) = map Flat.url flats.
Proof.
  induction flats as [|flat rest IH]; intros i; simpl; [reflexivity|].
  rewrite IH. f_equal.
  pose proof (_enrich_flat_details_fixed site i jk flat) as H.
  unfold fixed_fields in H. injection H as _ H _ _ _ _ _ _ _. exact H.
Qed.

(** X17.  The order of a run.  A run that ends well has opened the listing,
    then parsed and turned its pages, and only then visited the detail
    pages: one visit per record of the result, in their order, or none at
    all when it fell back on the layouts.  A run that fails has visited no
    detail page. *)
Theorem details_are_visited_after_the_listing (site : Site) (jk : JK.t)
  (jk_html : pystr) (t : list event) (r : result (list Flat.t)) :
  _parse_flats site jk jk_html = (t, r) ->
  match r with
  | Ok out =>
    exists pages visited,
      t = EvOpenListing :: pages ++ map EvDetail visited
      /\ Forall listing_event pages
      /\ (visited = map Flat.url out
          \/ visited = []
             /\ _extract_flats_from_layouts jk_html jk = Ok out)
  | Raise _ =>
    t = [] \/ exists pages, t = EvOpenListing :: pages
                            /\ Forall listing_event pages
  end.
Proof.
  unfold _parse_flats.
  destruct (_extract_flats_from_layouts jk_html jk) as [lf|e] eqn:El;
    [|intros [= <- <-]; left; reflexivity].
  simpl.
  destruct (listing_goto site) as [[]|];
    [|intros [= <- <-]; right; exists []; split; [reflexivity | constructor]].
  destruct (listing_settled site) as [[]|];
    [|intros [= <- <-]; right; exists []; split; [reflexivity | constructor]].
  destruct (content (listing site 0)) as [html|];
    [|intros [= <- <-]; right; exists []; split; [reflexivity | constructor]].
  simpl. destruct (contains html no_offers).
  - intros [= <- <-]. exists [], []. repeat split; auto.
  - pose proof (pages_loop_events site jk (index_by_id lf) 1 []) as Hev.
    destruct (pages_loop site jk (index_by_id lf) 1 []) as [t1 [flats|e]];
      cbn [fst] in Hev; simpl.
    + rewrite enrich_all_eq. simpl. intros [= <- <-].
      exists t1, (map Flat.url flats). rewrite map_map.
      split; [reflexivity|]. split; [exact Hev|]. left.
      symmetry. apply enriched_urls.
    + intros [= <- <-]. right. exists t1. auto.
Qed.

Lemma details_are_visited_after_the_listing_witness :
  exists pages,
    fst (_parse_flats Example.site_abc Example.jk Example.landing)
    = EvOpenListing :: pages ++ map EvDetail (map Flat.url abc_after)
    /\ Forall listing_event pages.
Proof.
  pose proof (details_are_visited_after_the_listing Example.site_abc
                Example.jk Example.landing
                (fst (_parse_flats Example.site_abc Example.jk
                        Example.landing))
                (Ok abc_after)) as H.
  destruct H as (pages & visited & Ht & Hp & [Hv | [_ Hl]]).
  - vm_compute. reflexivity.
  - exists pages. subst visited. auto.
  - vm_compute in Hl. discriminate.
Defined.

(* ================================================================== *)
(** * The development and the start of a run *)
(* ================================================================== *)

(** ** Groups and keys *)

Lemma searched_inv (p : Re.pattern) (s g : pystr) :
  searched p s = Some g ->
  exists gs, found p s gs /\ g = Re.group 1 gs.
Proof.
  unfold searched. destruct (Re.search p s) as [gs|] eqn:E; [|discriminate].
  intros [= <-]. exists gs. split; [apply search_found, E | reflexivity].
Qed.

(** A pattern that starts with a literal and a group: the group's text is
    in its language and stands in the string right after the literal. *)
Lemma found_lit_grp (l : pystr) (b : list Re.rep) (p : Re.pattern)
  (s : pystr) (gs : list pystr) :
  found (Re.lit l ++ Re.Grp b :: p) s gs ->
  text_in b (Re.group 1 gs) /\ contains s (l ++ Re.group 1 gs) = true.
Proof.
  intros (pre & w & rest & -> & Hm).
  apply matches_lit in Hm. destruct Hm as (y & -> & Hm).
  destruct Hm as (g & y' & gs' & -> & -> & Hg & _).
  change (Re.group 1 (g :: gs')) with g. split; [exact Hg|].
  replace (pre ++ (l ++ g ++ y') ++ rest)
    with (pre ++ (l ++ g) ++ (y' ++ rest))
    by (rewrite <- !app_assoc; reflexivity).
  apply contains_app.
Qed.

(** The same with a quantified class and a second literal before the
    group. *)
Lemma found_lit_rep_lit_grp (l1 : pystr) (r : Re.rep) (l2 : pystr)
  (b : list Re.rep) (p : Re.pattern) (s : pystr) (gs : list pystr) :
  found (Re.lit l1 ++ Re.Rep r :: Re.lit l2 ++ Re.Grp b :: p) s gs ->
  text_in b (Re.group 1 gs) /\ contains s l1 = true.
Proof.
  intros (pre & w & rest & -> & Hm).
  apply matches_lit in Hm. destruct Hm as (y & -> & Hm).
  destruct Hm as (x & y1 & -> & _ & Hm).
  apply matches_lit in Hm. destruct Hm as (y2 & -> & Hm).
  destruct Hm as (g & y' & gs' & -> & -> & Hg & _).
  change (Re.group 1 (g :: gs')) with g. split; [exact Hg|].
  rewrite <- !app_assoc. apply contains_app.
Qed.

Lemma matches_lit_end (l w rest : pystr) (gs : list pystr) :
  matches (Re.lit l) w rest gs -> w = l /\ gs = [].
Proof.
  intros H. rewrite <- (app_nil_r (Re.lit l)) in H.
  apply matches_lit in H. destruct H as (y & -> & -> & ->).
  rewrite app_nil_r. auto.
Qed.

Lemma contains_prefix (s l l' : pystr) :
  contains s (l ++ l') = true -> contains s l = true.
Proof.
  intros H. apply contains_inv in H. destruct H as (pre & rest & ->).
  rewrite <- app_assoc. apply contains_app.
Qed.

Lemma contains_in (s l : pystr) (c : char) :
  contains s l = true -> In c l -> In c s.
Proof.
  intros H Hc. apply contains_inv in H. destruct H as (pre & rest & ->).
  apply in_or_app. right. apply in_or_app. left. exact Hc.
Qed.

Lemma digits_text (g : pystr) : text_in [Re.plus Re.digit] g -> digits g.
Proof. intros H. apply text_in_plus in H. exact H. Qed.

(** ** _extract_newobject_id *)

Lemma found_newobject (p : Re.pattern) (html : pystr) (gs : list pystr) :
  In p newobject_patterns -> found p html gs ->
  digits (Re.group 1 gs) /\ contains html newobject = true.
Proof.
  intros Hp Hf. simpl in Hp.
  destruct Hp as [<-|[<-|[<-|[<-|[]]]]].
  - apply (found_lit_grp (u "newobject%5B0%5D=") [Re.plus Re.digit] []) in Hf.
    destruct Hf as [Hg Hc]. split; [apply digits_text, Hg|].
    apply contains_prefix in Hc.
    apply (contains_prefix html newobject (u "%5B0%5D=")), Hc.
  - apply (found_lit_grp (q "`newobject`:[") [Re.plus Re.digit]
             (Re.lit (u "]"))) in Hf.
    destruct Hf as [Hg Hc]. split; [apply digits_text, Hg|].
    apply contains_prefix in Hc.
    apply contains_inv in Hc. destruct Hc as (pre & rest & ->).
    change (q "`newobject`:[") with ([dquote] ++ newobject ++ q "`:[").
    rewrite <- !app_assoc, (app_assoc pre). apply contains_app.
  - destruct Hf as (pre & w & rest & -> & Hm).
    unfold re_newobject_colon in Hm.
    apply matches_lit in Hm. destruct Hm as (y & -> & Hm).
    destruct Hm as (x & y1 & -> & _ & Hm).
    apply matches_lit in Hm. destruct Hm as (y2 & -> & Hm).
    destruct Hm as (x2 & y3 & -> & _ & Hm).
    destruct Hm as (g & y' & gs' & -> & -> & Hg & _).
    change (Re.group 1 (g :: gs')) with g. split; [apply digits_text, Hg|].
    change (u "newobject_id") with (newobject ++ u "_id").
    rewrite <- !app_assoc. apply contains_app.
  - destruct Hf as (pre & w & rest & -> & Hm).
    unfold re_newobject_type in Hm.
    apply matches_lit in Hm. destruct Hm as (y & -> & Hm).
    destruct Hm as (g & y1 & gs' & -> & -> & Hg & Hm).
    destruct Hm as (x & y2 & -> & _ & Hm). cbn [app] in Hm.
    apply matches_lit_end in Hm. destruct Hm as [-> _].
    change (Re.group 1 (g :: gs')) with g. split; [apply digits_text, Hg|].
    change (q "`type`:`newobject`")
      with (q "`type`:`" ++ newobject ++ [dquote]).
    rewrite <- !app_assoc.
    rewrite (app_assoc pre), (app_assoc (pre ++ _)),
      (app_assoc ((pre ++ _) ++ _)), (app_assoc (((pre ++ _) ++ _) ++ _)).
    apply contains_app.
Qed.

Lemma first_group_found (patterns : list Re.pattern) (html g : pystr) :
  first_group patterns html = Some g ->
  exists p gs, In p patterns /\ found p html gs /\ g = Re.group 1 gs.
Proof.
  induction patterns as [|p ps IH]; simpl; [discriminate|].
  destruct (Re.search p html) as [gs|] eqn:E.
  - intros [= <-]. exists p, gs. split; [auto|].
    split; [apply search_found, E | reflexivity].
  - intros H. destruct (IH H) as (p' & gs & Hin & Hf & Hg).
    exists p', gs. auto.
Qed.

Lemma first_group_None (patterns : list Re.pattern) (html : pystr) :
  first_group patterns html = None <->
  forall p gs, In p patterns -> ~ found p html gs.
Proof.
  induction patterns as [|p ps IH]; simpl.
  - split; [intros _ p gs [] | reflexivity].
  - destruct (Re.search p html) as [gs|] eqn:E.
    + split; [discriminate|]. intros H. exfalso.
      apply (H p gs); [auto | apply search_found, E].
    + rewrite IH. split.
      * intros H p' gs [<-|Hin]; [|apply H, Hin].
        apply (proj1 (search_None _ _) E).
      * intros H p' gs Hin. apply H. auto.
Qed.

Lemma startswith_app_long (l x tail : pystr) :
  length l <= length x -> startswith (x ++ tail) l = startswith x l.
Proof.
  revert x. induction l as [|c l IH]; intros x Hlen;
    [rewrite !startswith_nil; reflexivity|].
  destruct x as [|a x]; simpl in Hlen; [lia|].
  simpl. rewrite IH by lia. reflexivity.
Qed.

(** A literal that starts nowhere in [P ++ L] before its own place starts
    nowhere before it in a longer string either. *)
Lemma no_match_in_prefix (P L tail : pystr) :
  forallb (fun i => negb (startswith (skipn i (P ++ L)) L))
          (seq 0 (length P)) = true ->
  forall i, i < length P -> startswith (skipn i (P ++ L ++ tail)) L = false.
Proof.
  intros H i Hi. rewrite forallb_forall in H.
  specialize (H i ltac:(apply in_seq; lia)). apply negb_true_iff in H.
  rewrite app_assoc, skipn_app.
  replace (i - length (P ++ L)) with 0 by (rewrite length_app; lia).
  cbn [skipn]. rewrite startswith_app_long; [exact H|].
  rewrite length_skipn, length_app. lia.
Qed.

Lemma search_newobject_query_url (newobject_id rest : pystr) :
  digits newobject_id -> stops is_digit rest ->
  Re.search re_newobject_query (_build_flats_url (Some newobject_id) ++ rest)
  = Some [newobject_id].
Proof.
  intros [Hne Hd] Hrest. unfold _build_flats_url, format_opt.
  change (u "&from_developer=1&newobject%5B0%5D=")
    with (u "&from_developer=1&" ++ u "newobject%5B0%5D=").
  set (A := u "https://www.cian.ru/cat.php").
  set (B := u "?deal_type=sale&engine_version=2&offer_type=flat").
  set (C := u "&from_developer=1&").
  set (L := u "newobject%5B0%5D=").
  replace ((A ++ B ++ (C ++ L) ++ newobject_id) ++ rest)
    with ((A ++ B ++ C) ++ L ++ newobject_id ++ rest)
    by (rewrite <- !app_assoc; reflexivity).
  unfold Re.search, re_newobject_query. fold L.
  rewrite search_from_skip.
  - rewrite (search_from_here _ _ ([newobject_id], rest)); [reflexivity|].
    rewrite m_nodes_lit. unfold grp_num.
    apply m_nodes_grp_plus; auto.
  - intros i Hi. apply m_nodes_lit_fail.
    apply no_match_in_prefix; [|exact Hi]. vm_compute. reflexivity.
Qed.

(** X18.  [_extract_newobject_id] returns a string of digits, from a
    document that holds the word [newobject]; it raises
    [NewObjectIdNotFound] exactly when none of its four patterns has a match
    in the document, as when the word is not there; and it finds again the
    identifier the listing URL of [_build_flats_url] was built with. *)
Theorem newobject_id_is_found_in_its_url :
  (forall content newobject_id,
      _extract_newobject_id content = Done newobject_id ->
      digits newobject_id
      /\ exists html, content = Ok html /\ contains html newobject = true)
  /\ (forall html,
         _extract_newobject_id (Ok html)
         = Failed (Parser NewObjectIdNotFound)
         <-> forall p gs, In p newobject_patterns -> ~ found p html gs)
  /\ (forall html,
         contains html newobject = false ->
         _extract_newobject_id (Ok html)
         = Failed (Parser NewObjectIdNotFound))
  /\ (forall newobject_id rest,
         digits newobject_id -> stops is_digit rest ->
         _extract_newobject_id
           (Ok (_build_flats_url (Some newobject_id) ++ rest))
         = Done newobject_id).
Proof.
  assert (Hnone : forall html,
             _extract_newobject_id (Ok html)
             = Failed (Parser NewObjectIdNotFound)
             <-> forall p gs, In p newobject_patterns -> ~ found p html gs).
  { intros html. rewrite <- first_group_None. unfold _extract_newobject_id.
    destruct (first_group newobject_patterns html);
      split; try discriminate; reflexivity. }
  split; [|split; [exact Hnone | split]].
  - intros [html|e] id; unfold _extract_newobject_id; [|discriminate].
    destruct (first_group newobject_patterns html) as [g|] eqn:E;
      [|discriminate].
    intros [= <-]. apply first_group_found in E.
    destruct E as (p & gs & Hp & Hf & ->).
    destruct (found_newobject p html gs Hp Hf) as [Hd Hc].
    split; [exact Hd|]. exists html. auto.
  - intros html Hc. apply Hnone. intros p gs Hp Hf.
    destruct (found_newobject p html gs Hp Hf) as [_ Hc']. congruence.
  - intros id rest Hd Hrest. unfold _extract_newobject_id.
    unfold newobject_patterns. cbn [first_group].
    rewrite (search_newobject_query_url id rest Hd Hrest). reflexivity.
Qed.

Lemma newobject_id_is_found_in_its_url_witness :
  _extract_newobject_id (Ok (u "<html>no such thing</html>"))
  = Failed (Parser NewObjectIdNotFound)
  /\ _extract_newobject_id
       (Ok (_build_flats_url (Some (u "4242")) ++ u "&p=2"))
     = Done (u "4242").
Proof.
  pose proof newobject_id_is_found_in_its_url as (_ & _ & Habsent & Hurl).
  split.
  - apply Habsent. vm_compute. reflexivity.
  - apply Hurl; [split; [discriminate | reflexivity] | reflexivity].
Defined.

(** ** Numbers without a sign *)

Section Unsigned.
(** A class of characters with no sign and none of the letters the words
    [inf] and [nan] start with. *)
Variable P : char -> bool.
Hypothesis P_plain :
  forall c, P c = true -> forall x, In x [43; 45; 73; 78; 105; 110]%N -> c <> x.

Lemma split_sign_plain (s : pystr) :
  forallb P s = true -> split_sign s = (false, s).
Proof.
  destruct s as [|c s]; simpl; [reflexivity|]. intros H.
  apply andb_prop in H. destruct H as [Hc _].
  pose proof (P_plain c Hc) as Hn.
  destruct (c =? minus)%N eqn:E1.
  { apply N.eqb_eq in E1. exfalso. apply (Hn 45%N); simpl; auto. }
  destruct (c =? plus_sign)%N eqn:E2.
  { apply N.eqb_eq in E2. exfalso. apply (Hn 43%N); simpl; auto. }
  reflexivity.
Qed.

Lemma plain_not_a_word (s w : pystr) (y : char) :
  forallb P s = true -> In y [105; 110]%N ->
  str_eqb (map ascii_lower s) (y :: w) = false.
Proof.
  intros H1 Hy. destruct (str_eqb _ _) eqn:Heq; [|reflexivity].
  exfalso. destruct s as [|c s]; [discriminate|].
  apply str_eqb_head, ascii_lower_cases in Heq.
  simpl in H1. apply andb_prop in H1. destruct H1 as [Hc _].
  pose proof (P_plain c Hc) as Hn.
  assert (Hin : In c [43; 45; 73; 78; 105; 110]%N).
  { simpl in Hy |- *. destruct Hy as [<-|[<-|[]]]; destruct Heq as [->|Heq];
      try (assert (c = 73%N) as -> by lia);
      try (assert (c = 78%N) as -> by lia); auto 10. }
  exact (Hn c Hin eq_refl).
Qed.

(** [float] of such a string is not negative and not a NaN. *)
Lemma float_of_str_plain_sign (s : pystr) (x : float) :
  forallb P s = true -> float_of_str s = Ok x -> has_sign false x.
Proof.
  intros Hs. unfold float_of_str.
  destruct (drop_underscores None (num_strip s)) as [s1|] eqn:E;
    [|discriminate].
  pose proof (drop_underscores_all P _ _ _ E (num_strip_all P _ Hs)) as H1.
  rewrite (split_sign_plain _ H1).
  change (u "inf") with (105%N :: u "nf").
  change (u "infinity") with (105%N :: u "nfinity").
  change (u "nan") with (110%N :: u "an").
  rewrite !(plain_not_a_word s1) by (simpl; auto). simpl orb. cbv iota.
  unfold float_of_decimal.
  destruct (take_digits s1) as [ip r1].
  destruct (match r1 with
            | [] => ([], [])
            | c :: r1' => if (c =? point)%N then take_digits r1' else ([], r1)
            end) as [fp r2].
  destruct (ip ++ fp); [discriminate|].
  destruct (exponent r2); [|discriminate].
  intros [= <-]. apply round_decimal_sign.
Qed.
End Unsigned.

Lemma int_of_float_nonneg (x : float) (n : Z) :
  has_sign false x -> int_of_float x = Ok n -> (0 <= n)%Z.
Proof.
  destruct x as [s|s| |s m e]; simpl; try discriminate; try tauto.
  - intros _ [= <-]. lia.
  - intros -> [= <-]. destruct e as [|k|k].
    + rewrite Z.shiftl_0_r. lia.
    + apply Z.shiftl_nonneg. lia.
    + apply Z.shiftr_nonneg. lia.
Qed.

(** [safe_int] on a string made of such characters, with a default that is
    not negative. *)
Lemma safe_int_nonneg (P : char -> bool) (s : pystr) (default n : Z) :
  (forall c, P c = true ->
             forall x, In x [43; 45; 73; 78; 105; 110]%N -> c <> x) ->
  forallb P s = true -> (0 <= default)%Z ->
  safe_int (Some s) default = Ok n -> (0 <= n)%Z.
Proof.
  intros HP Hs Hd. unfold safe_int, try_except.
  destruct (float_of_str s) as [x|e] eqn:E; cbn [bind].
  - pose proof (float_of_str_plain_sign P HP s x Hs E) as Hx.
    destruct (int_of_float x) as [m|e] eqn:Em.
    + intros [= <-]. eapply int_of_float_nonneg; eassumption.
    + destruct e; try discriminate; intros [= <-]; exact Hd.
  - destruct e; try discriminate; intros [= <-]; exact Hd.
Qed.

Lemma safe_int_Raise (value : option pystr) (default : Z) (e : exn) :
  safe_int value default = Raise e -> e = OverflowError.
Proof.
  unfold safe_int, try_except.
  destruct value as [s|]; cbn [bind]; [|discriminate].
  destruct (float_of_str s) as [x|e'] eqn:E; cbn [bind].
  - destruct x as [sg|sg| |sg m ex]; simpl; try discriminate.
    intros [= <-]. reflexivity.
  - apply float_of_str_raises in E. subst e'. discriminate.
Qed.

Lemma safe_float_Ok (value : option pystr) (default : float) :
  exists x, safe_float value default = Ok x.
Proof.
  unfold safe_float, try_except. destruct value as [s|]; [|eauto].
  destruct (float_of_str _) as [x|e] eqn:E; [eauto|].
  apply float_of_str_raises in E. subst e. eauto.
Qed.

(** ** The number of a string of digits *)

Lemma digit_in_lt (starts : list N) (c : char) (d : N) :
  digit_in starts c = Some d -> (d < 10)%N.
Proof.
  induction starts as [|b starts IH]; simpl; [discriminate|].
  destruct ((b <=? c) && (c <? b + 10))%N eqn:E; [|exact IH].
  intros [= <-]. apply andb_prop in E. destruct E as [E1 E2].
  apply N.leb_le in E1. apply N.ltb_lt in E2. lia.
Qed.

Lemma fold_decimal_lt (ds : list N) :
  Forall (fun d => (d < 10)%N) ds ->
  forall acc : Z,
    (0 <= acc)%Z ->
    (fold_left (fun a d => a * 10 + Z.of_N d) ds acc
     < (acc + 1) * 10 ^ Z.of_nat (length ds))%Z.
Proof.
  induction 1 as [|d ds Hd _ IH]; intros acc Hacc; simpl fold_left.
  - simpl. lia.
  - specialize (IH (acc * 10 + Z.of_N d)%Z ltac:(lia)).
    replace (Z.of_nat (length (d :: ds))) with (1 + Z.of_nat (length ds))%Z
      by (simpl length; lia).
    rewrite Z.pow_add_r by lia.
    assert (Hp : (0 < 10 ^ Z.of_nat (length ds))%Z)
      by (apply Z.pow_pos_nonneg; lia).
    nia.
Qed.

Lemma number_lt (s : pystr) :
  forallb is_digit s = true -> (number s < 10 ^ Z.of_nat (length s))%Z.
Proof.
  intros H. destruct (digit_values_digits s H) as [ds Hds].
  unfold number. rewrite Hds, <- (digit_values_length _ _ Hds).
  pose proof (fold_decimal_lt ds) as Hlt. unfold decimal.
  specialize (Hlt ltac:(
    clear -Hds; revert ds Hds; induction s as [|c s IH]; intros ds; simpl;
      [intros [= <-]; constructor|];
      destruct (digit_value c) as [d|] eqn:Ed; [|discriminate];
      destruct (digit_values s) as [ds'|]; [|discriminate];
      intros [= <-]; constructor; [eapply digit_in_lt, Ed | eapply IH;
                                                             reflexivity])
    0%Z ltac:(lia)).
  lia.
Qed.

(** ** Replacement, character by character *)

Lemma replace_aux_all (P : char -> bool) (old new : pystr) :
  forallb P new = true ->
  forall (s : pystr) (skip : nat),
    forallb P s = true -> forallb P (replace_aux old new skip s) = true.
Proof.
  intros Hn. induction s as [|c s IH]; intros skip Hs; [reflexivity|].
  cbn [forallb] in Hs. apply andb_prop in Hs. destruct Hs as [Hc Hs].
  cbn [replace_aux]. destruct skip as [|k]; [|apply IH, Hs].
  destruct (startswith (c :: s) old).
  - rewrite forallb_app, Hn. apply IH, Hs.
  - cbn [forallb]. rewrite Hc. apply IH, Hs.
Qed.

Lemma replace_all (P : char -> bool) (s old new : pystr) :
  forallb P s = true -> forallb P new = true ->
  forallb P (replace s old new) = true.
Proof. intros Hs Hn. apply replace_aux_all; assumption. Qed.

Lemma replace_not_empty (s old new : pystr) :
  s <> [] -> new <> [] -> replace s old new <> [].
Proof.
  intros Hs Hn. destruct s as [|c s]; [congruence|].
  unfold replace. cbn [replace_aux].
  destruct (startswith (c :: s) old); [|discriminate].
  destruct new; [congruence | discriminate].
Qed.

Lemma noneof_In (c : char) (s : pystr) :
  forallb (Re.noneof [N.eqb c]) s = true <-> ~ In c s.
Proof.
  rewrite forallb_forall. unfold Re.noneof, Re.oneof. cbn [existsb]. split.
  - intros H Hin. specialize (H c Hin). rewrite N.eqb_refl in H. discriminate.
  - intros H x Hx. destruct (c =? x)%N eqn:E; [|reflexivity].
    apply N.eqb_eq in E. subst x. contradiction.
Qed.

Lemma text_without_group (c : char) (g : pystr) :
  text_in [Re.plus (Re.noneof [N.eqb c])] g -> text_without c g.
Proof.
  intros H. apply text_in_plus in H. destruct H as [Hne H].
  split; [exact Hne | apply noneof_In, H].
Qed.

(** ** The group of a search *)

Lemma searched_text (l : pystr) (b : list Re.rep) (p : Re.pattern)
  (s g : pystr) :
  searched (Re.lit l ++ Re.Grp b :: p) s = Some g -> text_in b g.
Proof.
  intros H. apply searched_inv in H. destruct H as (gs & Hf & ->).
  apply found_lit_grp in Hf. apply Hf.
Qed.

Lemma searched_text_after (l1 : pystr) (r : Re.rep) (l2 : pystr)
  (b : list Re.rep) (p : Re.pattern) (s g : pystr) :
  searched (Re.lit l1 ++ Re.Rep r :: Re.lit l2 ++ Re.Grp b :: p) s = Some g ->
  text_in b g.
Proof.
  intros H. apply searched_inv in H. destruct H as (gs & Hf & ->).
  apply found_lit_rep_lit_grp in Hf. apply Hf.
Qed.

Lemma searched_text_next (l : pystr) (r : Re.rep) (b : list Re.rep)
  (p : Re.pattern) (s g : pystr) :
  searched (Re.lit l ++ Re.Rep r :: Re.Grp b :: p) s = Some g -> text_in b g.
Proof.
  intros H. apply searched_inv in H. destruct H as (gs & Hf & ->).
  destruct Hf as (pre & w & rest & -> & Hm).
  apply matches_lit in Hm. destruct Hm as (y & -> & Hm).
  destruct Hm as (x & y1 & -> & _ & Hm).
  destruct Hm as (g & y' & gs' & -> & -> & Hg & _). exact Hg.
Qed.

Lemma search_two_groups (l1 : pystr) (b1 : list Re.rep) (l2 : pystr)
  (b2 : list Re.rep) (p : Re.pattern) (s : pystr) (m : list pystr) :
  Re.search (Re.lit l1 ++ Re.Grp b1 :: Re.lit l2 ++ Re.Grp b2 :: p) s
  = Some m ->
  text_in b1 (Re.group 1 m) /\ text_in b2 (Re.group 2 m).
Proof.
  intros H. apply search_found in H.
  destruct H as (pre & w & rest & -> & Hm).
  apply matches_lit in Hm. destruct Hm as (y & -> & Hm).
  destruct Hm as (g1 & y1 & gs1 & -> & -> & Hg1 & Hm).
  apply matches_lit in Hm. destruct Hm as (y2 & -> & Hm).
  destruct Hm as (g2 & y3 & gs2 & -> & -> & Hg2 & _).
  split; assumption.
Qed.

(** A group is a piece of the string searched. *)
Lemma matches_groups_length (p : Re.pattern) :
  forall (w rest : pystr) (gs : list pystr),
    matches p w rest gs -> Forall (fun g => length g <= length w) gs.
Proof.
  induction p as [|[r|b|] p IH]; intros w rest gs; cbn [matches].
  - intros [_ ->]. constructor.
  - intros (x & y & -> & _ & Hm). specialize (IH _ _ _ Hm).
    eapply Forall_impl; [|exact IH]. cbv beta. intros g Hg.
    rewrite length_app. lia.
  - intros (g & y & gs' & -> & -> & _ & Hm). specialize (IH _ _ _ Hm).
    constructor; [rewrite length_app; lia|].
    eapply Forall_impl; [|exact IH]. cbv beta. intros g' Hg.
    rewrite length_app. lia.
  - intros [_ Hm]. exact (IH _ _ _ Hm).
Qed.

Lemma searched_length (p : Re.pattern) (s g : pystr) :
  searched p s = Some g -> length g <= length s.
Proof.
  intros H. apply searched_inv in H. destruct H as (gs & Hf & ->).
  destruct Hf as (pre & w & rest & -> & Hm).
  apply matches_groups_length in Hm. rewrite !length_app.
  unfold Re.group. cbn [Nat.sub].
  destruct gs as [|g gs]; cbn [nth length]; [lia|].
  inversion Hm; subst. lia.
Qed.

(** ** The patterns of the development, as a literal and what follows *)

Lemma re_display_name_eq :
  re_display_name
  = Re.lit (q "`displayName`:`") ++ Re.Grp [Re.plus not_dq] :: Re.lit (q "`").
Proof. reflexivity. Qed.

Lemma re_street_address_eq :
  re_street_address
  = Re.lit (q "class=`street-address`>")
    ++ Re.Grp [Re.plus (Re.noneof [N.eqb (Re.ch "<")])] :: Re.lit (u "<").
Proof. reflexivity. Qed.

Lemma re_builders_eq :
  re_builders
  = Re.lit (q "`builders`:[{`")
    ++ Re.Rep (Re.star not_brace)
       :: Re.lit (q "`name`:`") ++ Re.Grp [Re.plus not_dq] :: Re.lit (q "`").
Proof. reflexivity. Qed.

Lemma re_parking_eq :
  re_parking
  = Re.lit (q "`parking`:[{`")
    ++ Re.Rep (Re.star not_brace)
       :: Re.lit (q "`title`:`") ++ Re.Grp [Re.plus not_dq] :: Re.lit (q "`").
Proof. reflexivity. Qed.

Lemma re_building_class_eq :
  re_building_class
  = Re.lit (q "`newbuildingClass`:`")
    ++ Re.Grp [Re.plus not_dq] :: Re.lit (q "`").
Proof. reflexivity. Qed.

Lemma re_dev_min_price_eq :
  re_dev_min_price = Re.lit (q "`fromDeveloperMinPrice`:") ++ grp_num :: [].
Proof. reflexivity. Qed.

Lemma re_min_price_eq :
  re_min_price = Re.lit (q "`minPrice`:`") ++ grp_decimal :: Re.lit (q "`").
Proof. reflexivity. Qed.

Lemma re_dev_max_price_eq :
  re_dev_max_price = Re.lit (q "`fromDeveloperMaxPrice`:") ++ grp_num :: [].
Proof. reflexivity. Qed.

Lemma re_max_price_eq :
  re_max_price = Re.lit (q "`maxPrice`:`") ++ grp_decimal :: Re.lit (q "`").
Proof. reflexivity. Qed.

Lemma re_meter_min_eq :
  re_meter_min
  = Re.lit (q "`minPriceForMeterFromDeveloperValue`:") ++ grp_num :: [].
Proof. reflexivity. Qed.

Lemma re_meter_display_eq :
  re_meter_display
  = Re.lit (q "`priceForMeterFromDeveloperDisplay`:`")
    ++ Re.Rep (Re.star_lazy not_dq)
       :: Re.Grp [Re.one Re.digit; Re.star price_char; Re.one Re.digit]
       :: Re.Rep (Re.star Re.space) :: Re.lit (u "₽").
Proof. reflexivity. Qed.

Lemma re_completion_year_eq :
  re_completion_year
  = Re.lit (q "`completionYear`:")
    ++ Re.Grp [Re.mkRep Re.digit 4 (Some 4) true] :: [].
Proof. reflexivity. Qed.

Lemma re_floor_range_eq :
  re_floor_range
  = Re.lit (q "`floor`:{`minFloors`:")
    ++ Re.Grp [Re.plus Re.digit]
       :: Re.lit (q ",`maxFloors`:")
          ++ Re.Grp [Re.plus Re.digit] :: Re.lit (u "}").
Proof. reflexivity. Qed.

Lemma re_spec_buildings_eq :
  re_spec_buildings
  = Re.lit (q "`title`:`Корпуса`,`value`:`") ++ grp_num :: Re.lit (q "`").
Proof. reflexivity. Qed.

Lemma re_spec_finishing_eq :
  re_spec_finishing
  = Re.lit (q "`title`:`Отделка`,`value`:`")
    ++ Re.Grp [Re.plus not_dq] :: Re.lit (q "`").
Proof. reflexivity. Qed.

(** ** The numbers of the development *)

Lemma bind_Raise_inv {A B} (m : result A) (f : A -> result B) (e : exn) :
  bind m f = Raise e -> m = Raise e \/ exists a, m = Ok a /\ f a = Raise e.
Proof. destruct m as [a|e']; simpl; [eauto | intros [= ->]; auto]. Qed.

Lemma decimal_char_plain (c : char) :
  Re.oneof [Re.digit; Re.chr "."] c = true ->
  forall x, In x [43; 45; 73; 78; 105; 110]%N -> c <> x.
Proof.
  intros Hc x Hx ->. simpl in Hx.
  repeat (destruct Hx as [<-|Hx]; [vm_compute in Hc; discriminate|]).
  exact Hx.
Qed.

Lemma price_char_plain (c : char) :
  price_char c = true ->
  forall x, In x [43; 45; 73; 78; 105; 110]%N -> c <> x.
Proof.
  intros Hc x Hx ->. simpl in Hx.
  repeat (destruct Hx as [<-|Hx]; [vm_compute in Hc; discriminate|]).
  exact Hx.
Qed.

Lemma searched_int_nonneg (l : pystr) (p : Re.pattern) (s : pystr)
  (o : option Z) :
  searched_int (Re.lit l ++ grp_num :: p) s = Ok o -> opt_all (Z.le 0) o.
Proof.
  unfold searched_int.
  destruct (searched _ s) as [g|] eqn:E; [|intros [= <-]; exact I].
  apply searched_text, digits_text in E. intros H.
  bind_inv H as (n & Hn & [= <-]). cbn [opt_all].
  exact (int_of_str_digits_Ok g n E Hn).
Qed.

Lemma searched_int_Raise (l : pystr) (p : Re.pattern) (s : pystr) (e : exn) :
  searched_int (Re.lit l ++ grp_num :: p) s = Raise e ->
  e = ValueError /\ int_max_str_digits < length s.
Proof.
  unfold searched_int.
  destruct (searched _ s) as [g|] eqn:E; [|discriminate].
  pose proof (searched_length _ _ _ E) as Hlen.
  apply searched_text, digits_text in E.
  rewrite (int_of_str_digits g E).
  destruct (int_max_str_digits <? length g) eqn:El; [|discriminate].
  apply Nat.ltb_lt in El. cbn [bind]. intros [= <-]. split; [reflexivity|lia].
Qed.

Lemma developer_price_nonneg (la : pystr) (pa : Re.pattern) (lb : pystr)
  (pb : Re.pattern) (html : pystr) (o : option Z) :
  developer_price (Re.lit la ++ grp_num :: pa)
    (Re.lit lb ++ grp_decimal :: pb) html = Ok o ->
  opt_all (Z.le 0) o.
Proof.
  unfold developer_price.
  destruct (searched (Re.lit la ++ _) html) as [g|] eqn:Ea.
  - apply searched_text, digits_text in Ea. intros H.
    bind_inv H as (n & Hn & [= <-]). cbn [opt_all].
    exact (int_of_str_digits_Ok g n Ea Hn).
  - destruct (searched (Re.lit lb ++ _) html) as [g|] eqn:Eb;
      [|intros [= <-]; exact I].
    apply searched_text, text_in_plus in Eb. destruct Eb as [_ Hg].
    intros H. bind_inv H as (n & Hn & [= <-]). cbn [opt_all].
    apply (safe_int_nonneg _ g 0%Z n decimal_char_plain Hg); [lia | exact Hn].
Qed.

Lemma developer_price_Raise (la : pystr) (pa : Re.pattern) (lb : pystr)
  (pb : Re.pattern) (html : pystr) (e : exn) :
  developer_price (Re.lit la ++ grp_num :: pa)
    (Re.lit lb ++ grp_decimal :: pb) html = Raise e ->
  e = ValueError /\ int_max_str_digits < length html \/ e = OverflowError.
Proof.
  unfold developer_price.
  destruct (searched (Re.lit la ++ _) html) as [g|] eqn:Ea.
  - pose proof (searched_length _ _ _ Ea) as Hlen.
    apply searched_text, digits_text in Ea.
    rewrite (int_of_str_digits g Ea).
    destruct (int_max_str_digits <? length g) eqn:El; [|discriminate].
    apply Nat.ltb_lt in El. cbn [bind]. intros [= <-]. left.
    split; [reflexivity|lia].
  - destruct (searched (Re.lit lb ++ _) html) as [g|]; [|discriminate].
    intros H. apply bind_Raise_inv in H.
    destruct H as [H|(n & _ & H)]; [|discriminate].
    right. exact (safe_int_Raise _ _ _ H).
Qed.

Lemma year_of_four_digits (o : option Z) (html : pystr) :
  searched_int re_completion_year html = Ok o ->
  opt_all (fun y => 0 <= y <= 9999)%Z o.
Proof.
  unfold searched_int. rewrite re_completion_year_eq.
  destruct (searched _ html) as [g|] eqn:E; [|intros [= <-]; exact I].
  apply searched_text in E.
  destruct E as (x & y & -> & (Hall & Hlo & Hhi) & ->).
  rewrite app_nil_r. cbn [Re.cls Re.lo Re.hi] in Hall, Hlo, Hhi.
  assert (Hd : digits x).
  { split; [|exact Hall]. destruct x; [simpl in Hlo; lia | discriminate]. }
  rewrite (int_of_str_digits x Hd).
  replace (int_max_str_digits <? length x) with false
    by (symmetry; apply Nat.ltb_ge; unfold int_max_str_digits; lia).
  cbn [bind]. intros [= <-]. cbn [opt_all].
  pose proof (number_nonneg x). pose proof (number_lt x Hall) as Hlt.
  replace (length x) with 4 in Hlt by lia. cbn in Hlt. lia.
Qed.

Lemma year_never_raises (html : pystr) (e : exn) :
  searched_int re_completion_year html = Raise e -> False.
Proof.
  unfold searched_int. rewrite re_completion_year_eq.
  destruct (searched _ html) as [g|] eqn:E; [|discriminate].
  apply searched_text in E.
  destruct E as (x & y & -> & (Hall & Hlo & Hhi) & ->).
  rewrite app_nil_r. cbn [Re.cls Re.lo Re.hi] in Hall, Hlo, Hhi.
  assert (Hd : digits x).
  { split; [|exact Hall]. destruct x; [simpl in Hlo; lia | discriminate]. }
  rewrite (int_of_str_digits x Hd).
  replace (int_max_str_digits <? length x) with false
    by (symmetry; apply Nat.ltb_ge; unfold int_max_str_digits; lia).
  discriminate.
Qed.

Lemma meter_display_nonneg (html g : pystr) (n : Z) :
  searched re_meter_display html = Some g ->
  safe_int (Some (replace (replace g (u " ") []) nbsp_escape [])) 0 = Ok n ->
  (0 <= n)%Z.
Proof.
  rewrite re_meter_display_eq. intros E. apply searched_text_next in E.
  assert (Hg : forallb price_char g = true).
  { revert E. apply text_in_chars.
    apply Forall_cons; [|apply Forall_cons; [|apply Forall_cons;
                                               [|apply Forall_nil]]];
      intros c Hc; unfold Re.one, Re.star in Hc; cbn [Re.cls] in Hc;
      try exact Hc; unfold price_char, Re.oneof; cbn [existsb]; rewrite Hc;
      reflexivity. }
  apply (safe_int_nonneg _ _ 0%Z n price_char_plain); [|lia].
  apply replace_all; [|reflexivity]. apply replace_all; [exact Hg|reflexivity].
Qed.

Lemma floors_of_range (html : pystr) (m : list pystr) :
  Re.search re_floor_range html = Some m ->
  floors_text (if str_eqb (Re.group 1 m) (Re.group 2 m) then Re.group 1 m
               else Re.group 1 m ++ u "-" ++ Re.group 2 m).
Proof.
  rewrite re_floor_range_eq. intros E. apply search_two_groups in E.
  destruct E as [H1 H2]. exists (Re.group 1 m), (Re.group 2 m).
  split; [apply digits_text, H1|]. split; [apply digits_text, H2|].
  reflexivity.
Qed.

(** ** _extract_jk_fields and _parse_jk *)

Lemma Ok_eq {A : Type} (a b : A) : Ok a = Ok b -> a = b.
Proof. congruence. Qed.

Section JKFacts.
Variable capitalize : pystr -> pystr.

Lemma specs_Ok (html : pystr) (bc : option Z) (fin : option pystr)
  (ceil : option float) :
  match searched re_short_specs html with
  | Some specs =>
    buildings_count <- searched_int re_spec_buildings specs ;;
    let finishing := searched re_spec_finishing specs in
    ceiling_height <-
      match searched re_spec_ceiling specs with
      | Some g => x <- safe_float (Some g) fzero ;; Ok (Some x)
      | None => Ok None
      end ;;
    Ok (buildings_count, finishing, ceiling_height)
  | None => Ok (None, None, None)
  end = Ok (bc, fin, ceil) ->
  opt_all (Z.le 0) bc /\ opt_all (text_without dquote) fin.
Proof.
  destruct (searched re_short_specs html) as [specs|];
    [|intros [= <- <- <-]; split; exact I].
  intros H. bind_inv H as (bc' & Hbc & H). cbv zeta in H.
  bind_inv H as (ceil' & _ & [= <- <- <-]). split.
  - rewrite re_spec_buildings_eq in Hbc.
    exact (searched_int_nonneg _ _ _ _ Hbc).
  - destruct (searched re_spec_finishing specs) as [g|] eqn:E; [|exact I].
    rewrite re_spec_finishing_eq in E. apply searched_text in E.
    apply (text_without_group dquote), E.
Qed.

Lemma _extract_jk_fields_Ok (html : pystr) (data : JKFields.t) :
  _extract_jk_fields capitalize html = Ok data ->
  opt_all (text_without dquote) (JKFields.name data)
  /\ opt_all (fun s => s <> [] /\ normalize_status (Some s) = Some s)
             (JKFields.status data)
  /\ opt_all (text_without (Re.ch "<")) (JKFields.address data)
  /\ Forall (opt_all (text_without dquote))
            [JKFields.developer data; JKFields.building_class data;
             JKFields.finishing data; JKFields.parking data]
  /\ Forall (opt_all (Z.le 0))
            [JKFields.price_min data; JKFields.price_max data;
             JKFields.price_per_m2_min data; JKFields.price_per_m2_max data;
             JKFields.buildings_count data]
  /\ opt_all (fun y => 0 <= y <= 9999)%Z (JKFields.year_built data)
  /\ opt_all floors_text (JKFields.floors data).
Proof.
  unfold _extract_jk_fields. cbv zeta. intros H.
  bind_inv H as (price_min & Hmin & H).
  bind_inv H as (price_max & Hmax & H).
  bind_inv H as (m2_min & Hm2min & H).
  bind_inv H as (m2_max & Hm2max & H).
  bind_inv H as (year & Hyear & H).
  bind_inv H as ([[bc fin] ceil] & Hspecs & H).
  apply Ok_eq in H. subst data.
  apply specs_Ok in Hspecs. destruct Hspecs as [Hbc Hfin].
  unfold JKFields.name, JKFields.status, JKFields.address,
    JKFields.developer, JKFields.price_min, JKFields.price_max,
    JKFields.price_per_m2_min, JKFields.price_per_m2_max,
    JKFields.year_built, JKFields.building_class, JKFields.floors,
    JKFields.buildings_count, JKFields.finishing, JKFields.parking.
  repeat match goal with |- _ /\ _ => split end.
  - destruct (searched re_display_name html) as [g|] eqn:E; [|exact I].
    rewrite re_display_name_eq in E. apply searched_text in E.
    cbn [option_map opt_all].
    pose proof (text_without_group dquote g E) as [Hne Hnd]. split.
    + apply replace_not_empty; [|discriminate].
      apply replace_not_empty; [exact Hne | discriminate].
    + apply noneof_In. apply noneof_In in Hnd.
      apply replace_all; [|reflexivity].
      apply replace_all; [exact Hnd | reflexivity].
  - destruct (searched re_building_status html) as [g|]; [|exact I].
    pose proof (normalize_status_idem (Some g)) as Hi.
    pose proof (normalize_status_not_empty (Some g)) as Hn.
    destruct (normalize_status (Some g)) as [s|]; [|exact I].
    cbn [opt_all]. split; [intros ->; apply Hn; reflexivity | exact Hi].
  - destruct (searched re_street_address html) as [g|] eqn:E; [|exact I].
    rewrite re_street_address_eq in E. apply searched_text in E.
    apply (text_without_group (Re.ch "<")), E.
  - repeat apply Forall_cons; try apply Forall_nil.
    + destruct (searched re_builders html) as [g|] eqn:E; [|exact I].
      rewrite re_builders_eq in E. apply searched_text_after in E.
      apply (text_without_group dquote), E.
    + destruct (searched re_building_class html) as [g|] eqn:E; [|exact I].
      rewrite re_building_class_eq in E. apply searched_text in E.
      apply (text_without_group dquote), E.
    + exact Hfin.
    + destruct (searched re_parking html) as [g|] eqn:E; [|exact I].
      rewrite re_parking_eq in E. apply searched_text_after in E.
      apply (text_without_group dquote), E.
  - repeat apply Forall_cons; try apply Forall_nil.
    + rewrite re_dev_min_price_eq, re_min_price_eq in Hmin.
      exact (developer_price_nonneg _ _ _ _ _ _ Hmin).
    + rewrite re_dev_max_price_eq, re_max_price_eq in Hmax.
      exact (developer_price_nonneg _ _ _ _ _ _ Hmax).
    + rewrite re_meter_min_eq in Hm2min.
      exact (searched_int_nonneg _ _ _ _ Hm2min).
    + destruct (searched re_meter_display html) as [g|] eqn:E;
        [|injection Hm2max as <-; exact I].
      bind_inv Hm2max as (n & Hn & [= <-]). cbn [opt_all].
      exact (meter_display_nonneg html g n E Hn).
    + exact Hbc.
  - exact (year_of_four_digits year html Hyear).
  - destruct (Re.search re_floor_range html) as [m|] eqn:E; [|exact I].
    cbn [opt_all]. exact (floors_of_range html m E).
Qed.

Lemma specs_Raise (html : pystr) (e : exn) :
  match searched re_short_specs html with
  | Some specs =>
    buildings_count <- searched_int re_spec_buildings specs ;;
    let finishing := searched re_spec_finishing specs in
    ceiling_height <-
      match searched re_spec_ceiling specs with
      | Some g => x <- safe_float (Some g) fzero ;; Ok (Some x)
      | None => Ok None
      end ;;
    Ok (buildings_count, finishing, ceiling_height)
  | None => Ok (None, None, None)
  end = Raise e ->
  e = ValueError /\ int_max_str_digits < length html.
Proof.
  destruct (searched re_short_specs html) as [specs|] eqn:Es; [|discriminate].
  apply searched_length in Es. intros H.
  apply bind_Raise_inv in H. destruct H as [H|(bc & _ & H)].
  - rewrite re_spec_buildings_eq in H. apply searched_int_Raise in H.
    destruct H as [-> H]. split; [reflexivity | lia].
  - exfalso. cbv zeta in H.
    destruct (searched re_spec_ceiling specs) as [g|]; [|discriminate].
    destruct (safe_float_Ok (Some g) fzero) as [x Hx].
    rewrite Hx in H. discriminate.
Qed.

Lemma _parse_jk_id (newobject_id : pystr) (content : result pystr)
  (jk : JK.t) :
  _parse_jk capitalize newobject_id content = Ok jk ->
  JK.id jk = newobject_id.
Proof.
  unfold _parse_jk. intros H.
  bind_inv H as (html & _ & H). bind_inv H as (data & _ & H).
  apply Ok_eq in H. subst jk. reflexivity.
Qed.

End JKFacts.

(** X19.  A development that [_parse_jk] returns carries the identifier it
    was given and the fixed address of the landing page; its name is not
    empty and has no double quote, a status is a normalized, non-empty
    status, the other texts are not empty and hold no delimiter of their
    pattern, every price and the count of buildings are not negative, the
    year has at most four digits, and the floors are one number or two
    different numbers around a hyphen. *)
Theorem a_development_is_well_formed (capitalize : pystr -> pystr)
  (newobject_id : pystr) (content : result pystr) (jk : JK.t) :
  _parse_jk capitalize newobject_id content = Ok jk ->
  JK.id jk = newobject_id /\ JK.url jk = JK_URL
  /\ text_without dquote (JK.name jk)
  /\ opt_all (fun s => s <> [] /\ normalize_status (Some s) = Some s)
             (JK.status jk)
  /\ opt_all (text_without (Re.ch "<")) (JK.address jk)
  /\ Forall (opt_all (text_without dquote))
            [JK.developer jk; JK.building_class jk; JK.finishing jk;
             JK.parking jk]
  /\ Forall (opt_all (Z.le 0))
            [JK.price_min jk; JK.price_max jk; JK.price_per_m2_min jk;
             JK.price_per_m2_max jk; JK.buildings_count jk]
  /\ opt_all (fun y => 0 <= y <= 9999)%Z (JK.year_built jk)
  /\ opt_all floors_text (JK.floors jk).
Proof.
  unfold _parse_jk. intros H.
  bind_inv H as (html & _ & H). bind_inv H as (data & Hd & [= <-]).
  apply _extract_jk_fields_Ok in Hd.
  destruct Hd as (Hname & Hst & Had & Htx & Hnum & Hy & Hfl).
  unfold JK.id, JK.url, JK.name, JK.status, JK.address, JK.developer,
    JK.building_class, JK.finishing, JK.parking, JK.price_min, JK.price_max,
    JK.price_per_m2_min, JK.price_per_m2_max, JK.buildings_count,
    JK.year_built, JK.floors.
  repeat match goal with |- _ /\ _ => split end;
    try reflexivity; try assumption.
  destruct (JKFields.name data) as [n|]; [apply Hname|].
  split; [discriminate|]. vm_compute. intuition discriminate.
Qed.

Lemma a_development_is_well_formed_witness :
  JK.id Sample.jk = u "42"
  /\ opt_all (Z.le 0) (JK.price_max Sample.jk)
  /\ opt_all floors_text (JK.floors Sample.jk).
Proof.
  pose proof (a_development_is_well_formed Sample.capitalize (u "42")
                (Ok Sample.jk_page) Sample.jk) as H.
  destruct H as (Hid & _ & _ & _ & _ & _ & Hnum & _ & Hfl);
    [vm_compute; reflexivity|].
  split; [exact Hid|]. split; [|exact Hfl].
  inversion Hnum as [|? ? _ Hnum']. inversion Hnum' as [|? ? Hmax _].
  exact Hmax.
Defined.

(** X20.  [_extract_jk_fields] raises nothing but an [OverflowError] (a
    price too large for a float) or a [ValueError], and this one only when
    the document has more than 4300 characters. *)
Theorem a_development_fails_only_on_huge_numbers
  (capitalize : pystr -> pystr) (html : pystr) (e : exn) :
  _extract_jk_fields capitalize html = Raise e ->
  e = ValueError /\ int_max_str_digits < length html \/ e = OverflowError.
Proof.
  unfold _extract_jk_fields. cbv zeta. intros H.
  apply bind_Raise_inv in H. destruct H as [H|(price_min & _ & H)].
  { rewrite re_dev_min_price_eq, re_min_price_eq in H.
    exact (developer_price_Raise _ _ _ _ _ _ H). }
  apply bind_Raise_inv in H. destruct H as [H|(price_max & _ & H)].
  { rewrite re_dev_max_price_eq, re_max_price_eq in H.
    exact (developer_price_Raise _ _ _ _ _ _ H). }
  apply bind_Raise_inv in H. destruct H as [H|(m2_min & _ & H)].
  { left. rewrite re_meter_min_eq in H.
    exact (searched_int_Raise _ _ _ _ H). }
  apply bind_Raise_inv in H. destruct H as [H|(m2_max & _ & H)].
  { right. destruct (searched re_meter_display html) as [g|]; [|discriminate].
    apply bind_Raise_inv in H. destruct H as [H|(n & _ & H)]; [|discriminate].
    exact (safe_int_Raise _ _ _ H). }
  apply bind_Raise_inv in H. destruct H as [H|(year & _ & H)].
  { exfalso. destruct (searched_int re_completion_year html) as [o|e'] eqn:E;
      [discriminate|]. apply year_never_raises in E. exact E. }
  apply bind_Raise_inv in H. destruct H as [H|([[bc fin] ceil] & _ & H)];
    [|discriminate].
  left. exact (specs_Raise html e H).
Qed.

Lemma a_development_fails_only_on_huge_numbers_witness :
  OverflowError = ValueError
  /\ int_max_str_digits < length Sample.huge_price_page
  \/ OverflowError = OverflowError.
Proof.
  apply (a_development_fails_only_on_huge_numbers Sample.capitalize
           Sample.huge_price_page OverflowError).
  vm_compute. reflexivity.
Defined.

(** ** parse *)

Lemma of_result_Done {A} (r : result A) (a : A) :
  of_result r = Done a -> r = Ok a.
Proof. destruct r; simpl; congruence. Qed.

Lemma of_result_Failed {A} (r : result A) (f : failure) :
  of_result r = Failed f -> exists e, r = Raise e /\ f = Python e.
Proof. destruct r as [a|e]; simpl; [discriminate|]. intros [= <-]. eauto. Qed.

Lemma bindT_steps {A B} (m : T A) (f : A -> T B) :
  fst (bindT m f)
  = fst m ++ match snd m with
             | Done a => fst (f a)
             | Failed _ => []
             end.
Proof.
  destruct m as [t1 [a|e]]; simpl.
  - destruct (f a); reflexivity.
  - rewrite app_nil_r. reflexivity.
Qed.

Lemma bindT_outcome {A B} (m : T A) (f : A -> T B) :
  snd (bindT m f)
  = match snd m with
    | Done a => snd (f a)
    | Failed e => Failed e
    end.
Proof.
  destruct m as [t1 [a|e]]; simpl; [|reflexivity].
  destruct (f a); reflexivity.
Qed.

Lemma bindT_Done {A B} (m : T A) (f : A -> T B) (b : B) :
  snd (bindT m f) = Done b -> exists a, snd m = Done a /\ snd (f a) = Done b.
Proof.
  rewrite bindT_outcome. destruct (snd m) as [a|e]; [eauto|discriminate].
Qed.

Lemma bindT_Failed {A B} (m : T A) (f : A -> T B) (e : failure) :
  snd (bindT m f) = Failed e ->
  snd m = Failed e \/ exists a, snd m = Done a /\ snd (f a) = Failed e.
Proof.
  rewrite bindT_outcome. destruct (snd m) as [a|e']; [eauto|].
  intros [= ->]. auto.
Qed.

Lemma bindT_Forall {A B} (P : step -> Prop) (m : T A) (f : A -> T B) :
  Forall P (fst m) -> (forall a, Forall P (fst (f a))) ->
  Forall P (fst (bindT m f)).
Proof.
  intros Hm Hf. rewrite bindT_steps. apply Forall_app. split; [exact Hm|].
  destruct (snd m); [apply Hf | constructor].
Qed.

Lemma ensuring_steps {A} (body : T A) (cleanup : T unit) :
  fst (ensuring body cleanup) = fst body ++ fst cleanup.
Proof. destruct body as [t1 r], cleanup as [t2 [u|e]]; reflexivity. Qed.

Lemma ensuring_outcome {A} (body : T A) (cleanup : T unit) :
  snd (ensuring body cleanup)
  = match snd cleanup with
    | Done _ => snd body
    | Failed e => Failed e
    end.
Proof. destruct body as [t1 r], cleanup as [t2 [u|e]]; reflexivity. Qed.

(** [not_parser H]: an outcome [H] of the browser or of Python is not an
    exception of the parser. *)
Ltac not_parser H :=
  unfold act in H; cbn [snd] in H; apply of_result_Failed in H;
  destruct H as (? & _ & ?); discriminate.

Section ParseFacts.
Variable capitalize : pystr -> pystr.
Variable w : World.

(** The [try] block of [parse]. *)
Let block : T (JK.t * list Flat.t) :=
  bindT (_create_page w) (fun _ =>
  bindT (_open_jk_page w) (fun _ =>
  bindT ([], _extract_newobject_id (jk_content w 0)) (fun newobject_id =>
  let flats_url := _build_flats_url (Some newobject_id) in
  bindT (liftT (_parse_jk capitalize newobject_id (jk_content w 1)))
        (fun jk =>
  bindT (liftT (jk_content w 2)) (fun jk_html =>
  bindT (flats_run flats_url
           (_parse_flats (flats_site w flats_url) jk jk_html))
        (fun flats =>
  retT (jk, flats))))))).

Lemma parse_block :
  parse capitalize w
  = bindT (act StEnter (pw_enter w)) (fun _ =>
    bindT
      (ensuring
         (bindT (_launch_browser w) (fun _ =>
          ensuring block (act StClose (browser_close w))))
         (act StExit (pw_exit w)))
      (fun '(jk, flats) =>
         retT (ParseResult.mk jk flats (Z.of_nat (length flats)) (now w)))).
Proof. reflexivity. Qed.

Lemma result_steps (m : T (JK.t * list Flat.t)) :
  fst (bindT m (fun '(jk, flats) =>
         retT (ParseResult.mk jk flats (Z.of_nat (length flats)) (now w))))
  = fst m.
Proof.
  destruct m as [t [[jk flats]|f]]; simpl; [|reflexivity].
  apply app_nil_r.
Qed.

Lemma parse_steps :
  fst (parse capitalize w)
  = StEnter
    :: match pw_enter w with
       | Raise _ => []
       | Ok _ =>
         StLaunch
         :: match chromium_launch w with
            | Raise _ => []
            | Ok _ => fst block ++ [StClose]
            end ++ [StExit]
       end.
Proof.
  rewrite parse_block, bindT_steps. unfold act at 1 2. cbn [fst snd app].
  f_equal. destruct (pw_enter w) as [u0|e0]; [|reflexivity].
  cbn [of_result]. rewrite result_steps, ensuring_steps, bindT_steps.
  unfold _launch_browser, act. cbn [fst snd app]. f_equal. f_equal.
  destruct (chromium_launch w) as [u1|e1]; [|reflexivity].
  cbn [of_result]. apply ensuring_steps.
Qed.

Lemma block_steps : Forall working_step (fst block).
Proof.
  unfold block, _create_page, _open_jk_page.
  repeat (apply bindT_Forall; [|intros ?]); cbv zeta;
    repeat (apply bindT_Forall; [|intros ?]);
    try (repeat constructor; fail).
  unfold flats_run. cbn [fst]. apply Forall_map, Forall_forall.
  intros e _. exact I.
Qed.

Lemma block_Done (jk : JK.t) (flats : list Flat.t) :
  snd block = Done (jk, flats) ->
  _extract_newobject_id (jk_content w 0) = Done (JK.id jk)
  /\ _parse_jk capitalize (JK.id jk) (jk_content w 1) = Ok jk
  /\ exists jk_html,
      jk_content w 2 = Ok jk_html
      /\ snd (_parse_flats
                (flats_site w (_build_flats_url (Some (JK.id jk)))) jk
                jk_html)
         = Ok flats.
Proof.
  unfold block. intros H.
  apply bindT_Done in H. destruct H as (u1 & _ & H).
  apply bindT_Done in H. destruct H as (u2 & _ & H).
  apply bindT_Done in H. destruct H as (newobject_id & Hid & H).
  cbv zeta in H. cbn [snd] in Hid.
  apply bindT_Done in H. destruct H as (jk' & Hjk & H).
  apply bindT_Done in H. destruct H as (jk_html & Hh & H).
  apply bindT_Done in H. destruct H as (flats' & Hf & H).
  unfold retT in H. cbn [snd] in H. injection H as -> ->.
  unfold liftT in Hjk, Hh. cbn [snd] in Hjk, Hh.
  apply of_result_Done in Hjk, Hh.
  unfold flats_run in Hf. cbn [snd] in Hf. apply of_result_Done in Hf.
  pose proof (_parse_jk_id capitalize _ _ _ Hjk) as Hi. subst newobject_id.
  split; [exact Hid|]. split; [exact Hjk|]. exists jk_html. auto.
Qed.

Lemma block_Parser (e : parser_error) :
  snd block = Failed (Parser e) ->
  _extract_newobject_id (jk_content w 0) = Failed (Parser e)
  /\ forall flats_url ev, ~ In (StFlats flats_url ev) (fst block).
Proof.
  unfold block. intros H.
  apply bindT_Failed in H. destruct H as [H|(u1 & H1 & H)].
  { exfalso. unfold _create_page in H. apply bindT_Failed in H.
    destruct H as [H|(x & _ & H)]; not_parser H. }
  apply bindT_Failed in H. destruct H as [H|(u2 & H2 & H)].
  { exfalso. unfold _open_jk_page in H. apply bindT_Failed in H.
    destruct H as [H|(x & _ & H)]; not_parser H. }
  apply bindT_Failed in H. cbn [snd] in H.
  destruct H as [H|(newobject_id & _ & H)].
  - split; [exact H|]. intros flats_url ev Hin.
    rewrite bindT_steps, H1, bindT_steps, H2, bindT_steps in Hin.
    cbn [fst snd] in Hin. rewrite H in Hin. rewrite !in_app_iff in Hin.
    unfold _create_page, _open_jk_page in Hin.
    rewrite !bindT_steps in Hin. unfold act, liftT in Hin.
    cbn [fst snd] in Hin. rewrite !in_app_iff in Hin.
    destruct (of_result (browser_new_context w));
      destruct (of_result (jk_goto w)); cbn [In] in Hin;
      intuition discriminate.
  - exfalso. cbv zeta in H.
    apply bindT_Failed in H. destruct H as [H|(jk & _ & H)];
      [unfold liftT in H; not_parser H|].
    apply bindT_Failed in H. destruct H as [H|(jk_html & _ & H)];
      [unfold liftT in H; not_parser H|].
    apply bindT_Failed in H. destruct H as [H|(flats & _ & H)];
      [unfold flats_run in H; not_parser H|].
    discriminate.
Qed.

End ParseFacts.

(** X21.  Once Playwright is entered, [parse] leaves it as its last step,
    whatever happened; if the browser was launched it is closed just
    before, and between the launch and the closing it only works with the
    browser; if the launch failed, nothing else was done. *)
Theorem the_browser_is_closed_whatever_happens
  (capitalize : pystr -> pystr) (w : World) :
  pw_enter w = Ok tt ->
  (chromium_launch w = Ok tt ->
   exists body,
     fst (parse capitalize w)
     = [StEnter; StLaunch] ++ body ++ [StClose; StExit]
     /\ Forall working_step body)
  /\ (forall e, chromium_launch w = Raise e ->
                fst (parse capitalize w) = [StEnter; StLaunch; StExit]).
Proof.
  intros He. rewrite parse_steps, He. split.
  - intros Hl. rewrite Hl. eexists. split; [|apply block_steps].
    cbn [app]. rewrite <- app_assoc. reflexivity.
  - intros e Hl. rewrite Hl. reflexivity.
Qed.

Lemma the_browser_is_closed_whatever_happens_witness :
  (exists body,
     fst (parse Sample.capitalize Sample.world_without_id)
     = [StEnter; StLaunch] ++ body ++ [StClose; StExit]
     /\ Forall working_step body).
Proof.
  apply (the_browser_is_closed_whatever_happens Sample.capitalize
           Sample.world_without_id); reflexivity.
Defined.

(** X22.  A result of [parse] holds the development of the identifier found
    in the first reading of the landing page, a string of digits, and the
    flats of the listing whose URL is built from that identifier; its count
    is the number of its flats, its time the clock's; and there is a result
    only if the browser was closed and Playwright left without an error. *)
Theorem a_result_is_coherent (capitalize : pystr -> pystr) (w : World)
  (r : ParseResult.t) :
  snd (parse capitalize w) = Done r ->
  let jk := ParseResult.jk r in
  digits (JK.id jk)
  /\ _extract_newobject_id (jk_content w 0) = Done (JK.id jk)
  /\ _parse_jk capitalize (JK.id jk) (jk_content w 1) = Ok jk
  /\ (exists jk_html,
         jk_content w 2 = Ok jk_html
         /\ snd (_parse_flats
                   (flats_site w (_build_flats_url (Some (JK.id jk)))) jk
                   jk_html)
            = Ok (ParseResult.flats r))
  /\ ParseResult.flats_count r = Z.of_nat (length (ParseResult.flats r))
  /\ ParseResult.parsed_at r = now w
  /\ browser_close w = Ok tt /\ pw_exit w = Ok tt.
Proof.
  rewrite parse_block. intros H.
  apply bindT_Done in H. destruct H as (u0 & _ & H).
  apply bindT_Done in H. destruct H as ([jk flats] & H & Hr).
  unfold retT in Hr. cbn [snd] in Hr. injection Hr as <-.
  cbn [ParseResult.jk ParseResult.flats ParseResult.flats_count
       ParseResult.parsed_at]. cbv zeta.
  rewrite ensuring_outcome in H. unfold act at 2 in H. cbn [snd] in H.
  destruct (pw_exit w) as [[]|ex]; [|discriminate]. cbn [of_result] in H.
  apply bindT_Done in H. destruct H as (u1 & _ & H).
  rewrite ensuring_outcome in H. unfold act in H. cbn [snd] in H.
  destruct (browser_close w) as [[]|ec]; [|discriminate].
  cbn [of_result] in H.
  apply block_Done in H. destruct H as (Hid & Hjk & Hfl).
  split; [|repeat split; auto].
  destruct (jk_content w 0) as [html|e]; [|discriminate].
  unfold _extract_newobject_id in Hid.
  destruct (first_group newobject_patterns html) as [g|] eqn:E;
    [|discriminate].
  injection Hid as <-. apply first_group_found in E.
  destruct E as (p & gs & Hp & Hf & ->).
  apply (found_newobject p html gs Hp Hf).
Qed.

Lemma a_result_is_coherent_witness :
  digits (JK.id (ParseResult.jk Sample.result))
  /\ ParseResult.flats_count Sample.result
     = Z.of_nat (length (ParseResult.flats Sample.result))
  /\ browser_close Sample.world = Ok tt.
Proof.
  destruct (a_result_is_coherent Sample.capitalize Sample.world
              Sample.result)
    as (Hd & _ & _ & _ & Hc & _ & Hb & _); [vm_compute; reflexivity|].
  split; [exact Hd|]. split; [exact Hc | exact Hb].
Defined.

(** X23.  [parse] fails with an exception of the parser only when no
    identifier was found: the exception is [NewObjectIdNotFound], never
    [NoFlatsFound]; the landing page was read and none of the four
    patterns has a match in it; and the listing was never opened. *)
Theorem the_only_parser_error_is_a_missing_id
  (capitalize : pystr -> pystr) (w : World) (e : parser_error) :
  snd (parse capitalize w) = Failed (Parser e) ->
  e = NewObjectIdNotFound
  /\ (exists html,
         jk_content w 0 = Ok html
         /\ forall p gs, In p newobject_patterns -> ~ found p html gs)
  /\ forall flats_url ev,
      ~ In (StFlats flats_url ev) (fst (parse capitalize w)).
Proof.
  intros H. pose proof (parse_steps capitalize w) as Hs. cbv zeta in Hs.
  rewrite parse_block in H. unfold _launch_browser, act in H.
  destruct (pw_enter w) as [u0|e0]; [|discriminate].
  cbn [of_result] in H.
  rewrite bindT_outcome in H. cbn [snd] in H.
  rewrite bindT_outcome, ensuring_outcome in H. cbn [snd] in H.
  destruct (pw_exit w) as [u9|e9]; [|discriminate].
  cbn [of_result] in H.
  rewrite bindT_outcome in H. cbn [snd] in H.
  destruct (chromium_launch w) as [u1|e1]; [|discriminate].
  cbn [of_result] in H.
  rewrite ensuring_outcome in H. cbn [snd] in H.
  destruct (browser_close w) as [u8|e8]; [|discriminate].
  cbn [of_result] in H.
  match type of H with
  | match ?x with _ => _ end = _ => destruct x as [[jk flats]|f] eqn:Eb
  end; [discriminate|]. injection H as ->.
  apply block_Parser in Eb. destruct Eb as [Hid Hsteps].
  assert (Hhtml : e = NewObjectIdNotFound
                  /\ exists html,
                      jk_content w 0 = Ok html
                      /\ forall p gs,
                          In p newobject_patterns -> ~ found p html gs).
  { unfold _extract_newobject_id in Hid.
    destruct (jk_content w 0) as [html|x]; [|discriminate].
    destruct (first_group newobject_patterns html) as [g|] eqn:E;
      [discriminate|]. injection Hid as <-.
    split; [reflexivity|]. exists html. split; [reflexivity|].
    apply first_group_None, E. }
  destruct Hhtml as [-> Hhtml]. split; [reflexivity|]. split; [exact Hhtml|].
  intros flats_url ev Hin. rewrite Hs in Hin.
  destruct Hin as [Hin|[Hin|Hin]]; try discriminate.
  rewrite !in_app_iff in Hin.
  destruct Hin as [[Hin|[Hin|[]]]|[Hin|[]]]; try discriminate.
  exact (Hsteps flats_url ev Hin).
Qed.

Lemma the_only_parser_error_is_a_missing_id_witness :
  NewObjectIdNotFound = NewObjectIdNotFound
  /\ forall flats_url ev,
      ~ In (StFlats flats_url ev)
           (fst (parse Sample.capitalize Sample.world_without_id)).
Proof.
  destruct (the_only_parser_error_is_a_missing_id Sample.capitalize
              Sample.world_without_id NewObjectIdNotFound)
    as (He & _ & Hs); [vm_compute; reflexivity|].
  split; [exact He | exact Hs].
Defined.

(** X24.  A failure to close the browser, or to leave Playwright, fails the
    run with that exception, even when the flats had all been read: the
    exception of the exit comes first, then that of the closing. *)
Theorem a_failure_to_close_fails_the_run (capitalize : pystr -> pystr)
  (w : World) :
  pw_enter w = Ok tt -> chromium_launch w = Ok tt ->
  (forall e, pw_exit w = Raise e ->
             snd (parse capitalize w) = Failed (Python e))
  /\ (forall e, browser_close w = Raise e -> pw_exit w = Ok tt ->
                snd (parse capitalize w) = Failed (Python e)).
Proof.
  intros He Hl. rewrite parse_block. unfold _launch_browser, act.
  rewrite He, Hl. cbn [of_result].
  rewrite bindT_outcome. cbn [snd]. rewrite bindT_outcome, ensuring_outcome.
  cbn [snd]. split.
  - intros e ->. reflexivity.
  - intros e Hc ->. cbn [of_result].
    rewrite bindT_outcome. cbn [snd]. rewrite ensuring_outcome. cbn [snd].
    rewrite Hc. reflexivity.
Qed.

Lemma a_failure_to_close_fails_the_run_witness :
  snd (parse Sample.capitalize Sample.world_not_closing)
  = Failed (Python PlaywrightError).
Proof.
  pose proof (a_failure_to_close_fails_the_run Sample.capitalize
                Sample.world_not_closing eq_refl eq_refl) as [_ H].
  apply H; reflexivity.
Defined.
